(** * Echo: a reactive state store with persistence and cross-window sync

    A shallow embedding of the [Echo] class, of the [IndexedDBStorage]
    adapter and of [createIndexedDBMiddleware], followed by the properties
    of the store that the specification states.

    Layout:
    - [JS]      : the fragment of JavaScript values the store handles,
                  [Object.assign], spread, [delete], [JSON.stringify];
    - [Runtime] : the world one store lives in (state container, instance
                  fields, middleware closure, timers, storage backend,
                  observable trace) and a state-and-exception monad on it;
    - [Echo]    : the methods of the store, one definition per method;
    - theorems. *)

From Stdlib Require Import List String Ascii ZArith Bool Lia DecimalString.
Import ListNotations.
Local Open Scope string_scope.
Set Warnings "-register-all".

(* ===================================================================== *)
(** ** JavaScript values *)
(* ===================================================================== *)

Module JS.

(** The values a state or a broadcast payload is made of.  [JNum] stands
    for integer-valued numbers, [JBigInt] for a value [JSON.stringify]
    refuses, [JObj] for a plain object: its own enumerable properties in
    insertion order. *)
Inductive JVal : Type :=
| JUndefined
| JNull
| JBool (b : bool)
| JNum (z : Z)
| JStr (s : string)
| JBigInt (z : Z)
| JObj (fields : list (string * JVal)).

Definition Props := list (string * JVal).

(** [typeof v === "object" && v !== null] *)
Definition is_object (v : JVal) : bool :=
  match v with JObj _ => true | _ => false end.

(** Truthiness, as [data && ...] and [if (x)] use it. *)
Definition truthy (v : JVal) : bool :=
  match v with
  | JUndefined | JNull => false
  | JBool b => b
  | JNum z => negb (Z.eqb z 0)
  | JStr s => negb (String.eqb s EmptyString)
  | JBigInt z => negb (Z.eqb z 0)
  | JObj _ => true
  end.

(** [typeof v === "object"]: [null] included. *)
Definition typeof_object (v : JVal) : bool :=
  match v with JNull | JObj _ => true | _ => false end.

(** First binding of a key in a property list. *)
Fixpoint lookup (k : string) (l : Props) : option JVal :=
  match l with
  | [] => None
  | (k', x) :: l' => if String.eqb k k' then Some x else lookup k l'
  end.

(** The keys of a property list, in order. *)
Definition keys (l : Props) : list string := map fst l.

(** [o[k] = x] on a property list: an existing key keeps its place, a new
    key goes last. *)
Fixpoint put (k : string) (x : JVal) (l : Props) : Props :=
  match l with
  | [] => [(k, x)]
  | (k', y) :: l' =>
      if String.eqb k k' then (k, x) :: l' else (k', y) :: put k x l'
  end.

(** [delete o[k]] *)
Fixpoint remove (k : string) (l : Props) : Props :=
  match l with
  | [] => []
  | (k', y) :: l' =>
      if String.eqb k k' then remove k l' else (k', y) :: remove k l'
  end.

Definition decimal (n : nat) : string :=
  NilZero.string_of_uint (Nat.to_uint n).

Fixpoint chars_from (i : nat) (s : string) : Props :=
  match s with
  | EmptyString => []
  | String c s' => (decimal i, JStr (String c EmptyString)) :: chars_from (S i) s'
  end.

(** The own enumerable properties [Object.assign] and spread copy from a
    source: the fields of an object, the indexed characters of a string,
    nothing for the other primitives. *)
Definition own_props (v : JVal) : Props :=
  match v with
  | JObj fs => fs
  | JStr s => chars_from 0 s
  | _ => []
  end.

(** [Object.assign(target, src)] on property lists. *)
Definition assign_into (target src : Props) : Props :=
  fold_left (fun t kx => put (fst kx) (snd kx) t) src target.

(** [Object.assign({}, a, b)] *)
Definition Object_assign (a b : JVal) : JVal :=
  JObj (assign_into (assign_into [] (own_props a)) (own_props b)).

(** [{ ...v }] *)
Definition spread (v : JVal) : JVal :=
  JObj (assign_into [] (own_props v)).

(** Reading a property, [v.k]: the last definition of [k] wins. *)
Definition get_prop (k : string) (v : JVal) : option JVal :=
  lookup k (rev (own_props v)).

(** [Object.prototype.hasOwnProperty] applied to an object [v] and [k]. *)
Definition hasOwnProperty (k : string) (v : JVal) : bool :=
  match get_prop k v with Some _ => true | None => false end.

(** [v.k], with [undefined] for an absent property. *)
Definition member (k : string) (v : JVal) : JVal :=
  match get_prop k v with Some x => x | None => JUndefined end.

(** [a === b] where one side is a string literal. *)
Definition strict_eq_str (v : JVal) (s : string) : bool :=
  match v with JStr s' => String.eqb s' s | _ => false end.

(** *** JSON.stringify *)

Definition dquote : string := String (ascii_of_nat 34) EmptyString.
Definition bslash : string := String (ascii_of_nat 92) EmptyString.

Definition hex_digit (n : nat) : string :=
  match n with
  | 10 => "a" | 11 => "b" | 12 => "c" | 13 => "d" | 14 => "e" | 15 => "f"
  | _ => decimal n
  end.

Definition escape_char (c : ascii) : string :=
  let n := nat_of_ascii c in
  if Nat.eqb n 34 then bslash ++ dquote
  else if Nat.eqb n 92 then bslash ++ bslash
  else if Nat.eqb n 8 then bslash ++ "b"
  else if Nat.eqb n 9 then bslash ++ "t"
  else if Nat.eqb n 10 then bslash ++ "n"
  else if Nat.eqb n 12 then bslash ++ "f"
  else if Nat.eqb n 13 then bslash ++ "r"
  else if Nat.ltb n 32
       then bslash ++ "u00" ++ hex_digit (n / 16) ++ hex_digit (n mod 16)
  else String c EmptyString.

Fixpoint escape (s : string) : string :=
  match s with
  | EmptyString => EmptyString
  | String c s' => escape_char c ++ escape s'
  end.

Definition quote (s : string) : string := dquote ++ escape s ++ dquote.

Definition show_Z (z : Z) : string := NilZero.string_of_int (Z.to_int z).

(** What a call that may throw yields. *)
Inductive Exn : Type :=
| TypeError          (* raised by the runtime *)
| StorageError       (* a rejected storage request *)
| UserError.         (* raised by a callback of the application *)

Inductive Result (A : Type) : Type :=
| Ok (a : A)
| Thrown (e : Exn).
Arguments Ok {A} a.
Arguments Thrown {A} e.

(** The call [v.hasOwnProperty(k)] on an object [v].  The method is read
    from [v] like any property: an own property named "hasOwnProperty"
    hides the method every object inherits, and since no value here is a
    function the call then raises a TypeError. *)
Definition call_hasOwnProperty (k : string) (v : JVal) : Result bool :=
  match get_prop "hasOwnProperty" v with
  | Some _ => Thrown TypeError
  | None => Ok (hasOwnProperty k v)
  end.

(** What [JSON.stringify] returns: a string, or [undefined] for a value
    that has no JSON text. *)
Inductive Hash : Type :=
| HUndefined
| HString (s : string).

(** [JSON.stringify(v)]: [undefined] has no text, a property whose value
    has no text is left out, a BigInt raises a TypeError. *)
Fixpoint JSON_stringify (v : JVal) : Result Hash :=
  match v with
  | JUndefined => Ok HUndefined
  | JNull => Ok (HString "null")
  | JBool true => Ok (HString "true")
  | JBool false => Ok (HString "false")
  | JNum z => Ok (HString (show_Z z))
  | JStr s => Ok (HString (quote s))
  | JBigInt _ => Thrown TypeError
  | JObj fs =>
      match
        (fix members (l : list (string * JVal)) : Result (list string) :=
           match l with
           | [] => Ok []
           | (k, x) :: l' =>
               match JSON_stringify x with
               | Thrown e => Thrown e
               | Ok h =>
                   match members l' with
                   | Thrown e => Thrown e
                   | Ok ms =>
                       Ok (match h with
                           | HUndefined => ms
                           | HString s => (quote k ++ ":" ++ s) :: ms
                           end)
                   end
               end
           end) fs
      with
      | Thrown e => Thrown e
      | Ok ms => Ok (HString ("{" ++ String.concat "," ms ++ "}"))
      end
  end.

Definition Hash_eqb (a b : Hash) : bool :=
  match a, b with
  | HUndefined, HUndefined => true
  | HString s, HString t => String.eqb s t
  | _, _ => false
  end.

(** [h === last] where [last] is a stored hash or [null]. *)
Definition hash_is (h : Hash) (last : option Hash) : bool :=
  match last with
  | None => false
  | Some h' => Hash_eqb h h'
  end.

End JS.
Import JS.

(* ===================================================================== *)
(** ** The world of one store *)
(* ===================================================================== *)

Module Runtime.

(** A callback of the application ([onChange], a subscribed listener): the
    store sees of it that it is called with two states and that it returns
    or throws.  A callback that calls back into the store is outside this
    embedding. *)
Record Callback : Type := mkCallback {
  cb_throws : JVal -> JVal -> bool
}.

(** An updater passed to [set]: a value, or a function of the state. *)
Inductive Partial : Type :=
| PValue (v : JVal)
| PFun (f : JVal -> Result JVal).

Inductive StorageType : Type := localStorage | indexedDB.

(** [EchoOptions] *)
Record EchoOptions : Type := mkOptions {
  name : option string;
  storageType : option StorageType;
  onChange : option Callback;
  sync_opt : bool
}.

(** What a pending timer or continuation does when it runs. *)
Inductive Task : Type :=
| TBroadcast (newState : JVal) (hash : Hash)   (* body of the timer of broadcastState *)
| TSave (state : JVal)                         (* body of the timer of the middleware *)
| TSaveRetry (state : JVal) (retryCount : nat) (* body of the timer of saveStateWithRetry *)
| THydrate                                     (* initializeState, once the read is answered *)
| TInitSync                                    (* initializeSync as started by the constructor *)
| TInitSyncResume                              (* initializeSync after waitForStorage *)
| TInbound (data : JVal) (hash : Hash).        (* onmessage after its 50 ms wait *)

Record Timer : Type := mkTimer {
  t_id : nat;
  t_delay : Z;
  t_due : Z;
  t_task : Task
}.

Inductive Listener : Type :=
| LPersist                 (* the listener the middleware subscribes *)
| LUser (cb : Callback).   (* a listener given to subscribe *)

Inductive Message : Type :=
| MsgSendSyncFailed        (* "Echo: 发送同步消息失败" *)
| MsgCloseChannelFailed    (* "Echo: 关闭同步通道失败" *)
| MsgNeedName              (* "Echo: 无法初始化同步 - 需要提供 name 选项" *)
| MsgNoBroadcastChannel    (* "Echo: 当前环境不支持 BroadcastChannel" *)
| MsgHandleMessageFailed   (* "Echo: 处理同步消息时出错" *)
| MsgInitSyncFailed        (* "Echo: 初始化同步失败" *)
| MsgInitDBFailed          (* "Echo: 初始化数据库失败:" *)
| MsgLoadFailed            (* "Echo: 加载状态失败:" *)
| MsgSaveFailed            (* "Echo: 保存状态失败:" *)
| MsgSaveAttemptFailed (attempt : nat) (total : nat). (* "Echo: 保存状态失败 (尝试 a/b):" *)

(** What the outside can observe of a run. *)
Inductive Event : Type :=
| EvOnChange (newState oldState visible : JVal)
    (* onChange(newState, oldState); [visible] is what the state container
       holds at the moment of the call *)
| EvListener (id : nat) (newState oldState : JVal)
| EvPost (ch : nat) (msg : JVal)        (* channel.postMessage(msg) *)
| EvClose (ch : nat)                    (* channel.close() *)
| EvWrite (value : JVal) (ok : bool)    (* a put request of storage.setItem *)
| EvRehydrated (state : JVal)           (* config.onRehydrateStorage(state) *)
| EvWarn (m : Message)
| EvError (m : Message).

(** The object store behind [IndexedDBStorage]: the record under the key
    of the store, whether opening or reading fails, and for each coming
    put request whether it fails (an empty script: every request
    succeeds). *)
Record Backend : Type := mkBackend {
  be_record : option JVal;
  be_open_fails : bool;
  be_read_fails : bool;
  be_write_script : list bool
}.

(** The zustand store. *)
Record Store : Type := mkStore {
  state : JVal;
  listeners : list (nat * Listener);
  next_listener : nat
}.

(** The mutable fields of [createIndexedDBMiddleware]'s closure. *)
Record Middleware : Type := mkMiddleware {
  isInitialized : bool;
  isHydrating : bool;
  lastSavedState : option Hash;
  saveTimeout : option nat
}.

(** The fields of an [Echo] instance. *)
Record Instance : Type := mkInstance {
  defaultValue : JVal;
  options : EchoOptions;
  channel : option nat;
  lastSyncHash : option Hash;
  syncTimeout : option nat
}.

(** The runtime around the store. *)
Record Env : Type := mkEnv {
  timers : list Timer;
  next_timer : nat;
  now : Z;
  backend : Backend;
  has_BroadcastChannel : bool;
  next_channel : nat
}.

Record World : Type := mkWorld {
  store : Store;
  mw : Middleware;
  this : Instance;
  env : Env;
  trace : list Event
}.

Definition upd_store (f : Store -> Store) (w : World) : World :=
  mkWorld (f (store w)) (mw w) (this w) (env w) (trace w).
Definition upd_mw (f : Middleware -> Middleware) (w : World) : World :=
  mkWorld (store w) (f (mw w)) (this w) (env w) (trace w).
Definition upd_this (f : Instance -> Instance) (w : World) : World :=
  mkWorld (store w) (mw w) (f (this w)) (env w) (trace w).
Definition upd_env (f : Env -> Env) (w : World) : World :=
  mkWorld (store w) (mw w) (this w) (f (env w)) (trace w).
Definition emit (e : Event) (w : World) : World :=
  mkWorld (store w) (mw w) (this w) (env w) (trace w ++ [e]).

Definition with_state (s : JVal) (st : Store) : Store :=
  mkStore s (listeners st) (next_listener st).
Definition with_listeners (l : list (nat * Listener)) (n : nat) (st : Store) : Store :=
  mkStore (state st) l n.

Definition with_isInitialized (b : bool) (m : Middleware) : Middleware :=
  mkMiddleware b (isHydrating m) (lastSavedState m) (saveTimeout m).
Definition with_isHydrating (b : bool) (m : Middleware) : Middleware :=
  mkMiddleware (isInitialized m) b (lastSavedState m) (saveTimeout m).
Definition with_lastSavedState (h : option Hash) (m : Middleware) : Middleware :=
  mkMiddleware (isInitialized m) (isHydrating m) h (saveTimeout m).
Definition with_saveTimeout (t : option nat) (m : Middleware) : Middleware :=
  mkMiddleware (isInitialized m) (isHydrating m) (lastSavedState m) t.

Definition with_channel (c : option nat) (i : Instance) : Instance :=
  mkInstance (defaultValue i) (options i) c (lastSyncHash i) (syncTimeout i).
Definition with_lastSyncHash (h : option Hash) (i : Instance) : Instance :=
  mkInstance (defaultValue i) (options i) (channel i) h (syncTimeout i).
Definition with_syncTimeout (t : option nat) (i : Instance) : Instance :=
  mkInstance (defaultValue i) (options i) (channel i) (lastSyncHash i) t.

Definition with_timers (l : list Timer) (n : nat) (e : Env) : Env :=
  mkEnv l n (now e) (backend e) (has_BroadcastChannel e) (next_channel e).
Definition with_now (t : Z) (e : Env) : Env :=
  mkEnv (timers e) (next_timer e) t (backend e) (has_BroadcastChannel e) (next_channel e).
Definition with_backend (b : Backend) (e : Env) : Env :=
  mkEnv (timers e) (next_timer e) (now e) b (has_BroadcastChannel e) (next_channel e).
Definition with_next_channel (n : nat) (e : Env) : Env :=
  mkEnv (timers e) (next_timer e) (now e) (backend e) (has_BroadcastChannel e) n.

(** *** Computations: state passing with exceptions

    A computation runs in a world and ends normally with a value or
    abruptly with an exception; in both cases the effects it had stay. *)
Definition M (A : Type) : Type := World -> Result A * World.

Definition ret {A} (a : A) : M A := fun w => (Ok a, w).
Definition throw {A} (e : Exn) : M A := fun w => (Thrown e, w).
Definition bind {A B} (c : M A) (k : A -> M B) : M B :=
  fun w =>
    match c w with
    | (Ok a, w') => k a w'
    | (Thrown e, w') => (Thrown e, w')
    end.
(** [try { c } catch (error) { h }] *)
Definition try_catch {A} (c : M A) (h : Exn -> M A) : M A :=
  fun w =>
    match c w with
    | (Ok a, w') => (Ok a, w')
    | (Thrown e, w') => h e w'
    end.
Definition gets {A} (f : World -> A) : M A := fun w => (Ok (f w), w).
Definition modify (f : World -> World) : M unit := fun w => (Ok tt, f w).
Definition lift {A} (r : Result A) : M A := fun w => (r, w).
(** The call of an [async] function: what it throws rejects its promise
    and never reaches the caller. *)
Definition async (c : M unit) : M unit :=
  fun w => (Ok tt, snd (c w)).
Definition when (b : bool) (c : M unit) : M unit :=
  if b then c else ret tt.

Declare Scope js_scope.
Delimit Scope js_scope with js.
Notation "x <- c ;; k" := (bind c (fun x => k))
  (at level 61, c at next level, right associativity) : js_scope.
Notation "c ;; k" := (bind c (fun _ => k))
  (at level 61, right associativity) : js_scope.
Local Open Scope js_scope.

Definition exec {A} (c : M A) (w : World) : World := snd (c w).
Definition outcome {A} (c : M A) (w : World) : Result A := fst (c w).

Definition is_some {A} (o : option A) : bool :=
  match o with Some _ => true | None => false end.

(** *** Timers *)

(** [setTimeout(task, delay)] *)
Definition setTimeout (task : Task) (delay : Z) : M nat :=
  fun w =>
    let e := env w in
    let id := next_timer e in
    (Ok id,
     upd_env (with_timers (timers e ++ [mkTimer id delay (now e + delay) task])
                          (S id)) w).

(** [clearTimeout(id)] *)
Definition clearTimeout (id : nat) : M unit :=
  modify (upd_env (fun e =>
    with_timers (filter (fun t => negb (Nat.eqb (t_id t) id)) (timers e))
                (next_timer e) e)).

(** [if (slot) clearTimeout(slot)]: a slot holds [null] or a timer
    identifier, and an identifier is truthy unless it is 0. *)
Definition clear_slot (slot : option nat) : M unit :=
  match slot with
  | Some id => when (negb (Nat.eqb id 0)) (clearTimeout id)
  | None => ret tt
  end.

(** *** Calls into the application *)

Definition call_onChange (cb : Callback) (newState oldState : JVal) : M unit :=
  fun w =>
    let w' := emit (EvOnChange newState oldState (state (store w))) w in
    if cb_throws cb newState oldState then (Thrown UserError, w') else (Ok tt, w').

Definition call_user_listener (id : nat) (cb : Callback)
    (newState oldState : JVal) : M unit :=
  fun w =>
    let w' := emit (EvListener id newState oldState) w in
    if cb_throws cb newState oldState then (Thrown UserError, w') else (Ok tt, w').

End Runtime.
Import Runtime.
Local Open Scope js_scope.

(* ===================================================================== *)
(** ** IndexedDBStorage *)
(* ===================================================================== *)

Module IndexedDBStorage.

(** A request to the database is answered within the step that awaits
    it; the waits the code makes with [setTimeout] are the pending timers
    of the runtime. *)

(** [waitForDB]: rejects when the database cannot be opened. *)
Definition waitForDB : M unit :=
  fun w =>
    if be_open_fails (backend (env w)) then (Thrown StorageError, w) else (Ok tt, w).

(** [getItem(key)]: [null] when there is no record under the key. *)
Definition getItem : M JVal :=
  waitForDB ;;
  fun w =>
    let b := backend (env w) in
    if be_read_fails b then (Thrown StorageError, w)
    else (Ok (match be_record b with Some v => v | None => JNull end), w).

(** [setItem(key, value)]: one put request; it fails or succeeds as the
    script of the backend says. *)
Definition setItem (value : JVal) : M unit :=
  waitForDB ;;
  fun w =>
    let b := backend (env w) in
    match be_write_script b with
    | true :: rest =>
        (Thrown StorageError,
         emit (EvWrite value false)
           (upd_env (with_backend
              (mkBackend (be_record b) (be_open_fails b) (be_read_fails b) rest)) w))
    | false :: rest =>
        (Ok tt,
         emit (EvWrite value true)
           (upd_env (with_backend
              (mkBackend (Some value) (be_open_fails b) (be_read_fails b) rest)) w))
    | [] =>
        (Ok tt,
         emit (EvWrite value true)
           (upd_env (with_backend
              (mkBackend (Some value) (be_open_fails b) (be_read_fails b) [])) w))
    end.

End IndexedDBStorage.

(* ===================================================================== *)
(** ** The state container *)
(* ===================================================================== *)

Module Zustand.

(** [getState()] *)
Definition getState : M JVal := gets (fun w => state (store w)).

(** The listener [createIndexedDBMiddleware] subscribes:
    [if (saveTimeout) clearTimeout(saveTimeout);
     saveTimeout = setTimeout(() => saveState(state), 100)]. *)
Definition persist_listener (st : JVal) : M unit :=
  slot <- gets (fun w => saveTimeout (mw w)) ;;
  clear_slot slot ;;
  id <- setTimeout (TSave st) 100 ;;
  modify (upd_mw (with_saveTimeout (Some id))).

Definition call_listener (id : nat) (l : Listener) (st prev : JVal) : M unit :=
  match l with
  | LPersist => persist_listener st
  | LUser cb => call_user_listener id cb st prev
  end.

(** [listeners.forEach((listener) => listener(state, previousState))] *)
Fixpoint notify (ls : list (nat * Listener)) (st prev : JVal) : M unit :=
  match ls with
  | [] => ret tt
  | (id, l) :: rest => call_listener id l st prev ;; notify rest st prev
  end.

Definition eval_partial (partial : Partial) (st : JVal) : Result JVal :=
  match partial with
  | PValue v => Ok v
  | PFun f => f st
  end.

(** The value the container holds after an update whose result is
    [nextState]: see [setState]. *)
Definition next_state (replace : option bool) (previousState nextState : JVal) : JVal :=
  if match replace with
     | Some b => b
     | None => negb (is_object nextState)
     end
  then nextState
  else Object_assign previousState nextState.

(** Modelled from the spec: the state container is the store of the
    zustand package, which is not part of the sources.  As the spec has
    it (State Container): with [replace] the updater's result fully
    replaces the value, without it the result is shallow-merged into the
    existing value, and the subscribers are notified synchronously with
    (new, old).  As in the package, a result that is not an object
    replaces the value when [replace] is left out.  States are values
    here, not references: the package's short cut for an updater that
    yields the very object the store holds is not represented. *)
Definition setState (partial : Partial) (replace : option bool) : M unit :=
  previousState <- getState ;;
  nextState <- lift (eval_partial partial previousState) ;;
  let st := next_state replace previousState nextState in
  modify (upd_store (with_state st)) ;;
  ls <- gets (fun w => listeners (store w)) ;;
  notify ls st previousState.

(** [subscribe(listener)]: the listener is added; what is returned stands
    for the unsubscribe function. *)
Definition subscribe (l : Listener) : M nat :=
  fun w =>
    let s := store w in
    let id := next_listener s in
    (Ok id, upd_store (with_listeners (listeners s ++ [(id, l)]) (S id)) w).

Definition unsubscribe (id : nat) : M unit :=
  modify (upd_store (fun s =>
    with_listeners (filter (fun il => negb (Nat.eqb (fst il) id)) (listeners s))
                   (next_listener s) s)).

End Zustand.

(* ===================================================================== *)
(** ** createIndexedDBMiddleware *)
(* ===================================================================== *)

Module IndexedDBMiddleware.

Definition is_null (v : JVal) : bool :=
  match v with JNull => true | _ => false end.

(** [initializeState]: the hydration. *)
Definition initializeState : M unit :=
  async (
    init <- gets (fun w => isInitialized (mw w)) ;;
    if init then ret tt
    else
      try_catch
        (IndexedDBStorage.waitForDB ;;
         savedState <- IndexedDBStorage.getItem ;;
         if negb (is_null savedState) then
           modify (upd_mw (with_isHydrating true)) ;;
           Zustand.setState (PValue savedState) (Some true) ;;
           modify (upd_mw (with_isHydrating false)) ;;
           modify (emit (EvRehydrated savedState)) ;;
           modify (upd_mw (with_isInitialized true))
         else
           st <- Zustand.getState ;;
           IndexedDBStorage.setItem st ;;
           modify (emit (EvRehydrated JNull)) ;;
           modify (upd_mw (with_isInitialized true)))
        (fun _ =>
           modify (emit (EvError MsgLoadFailed)) ;;
           modify (emit (EvRehydrated JNull)))).

(** [saveState(state)] *)
Definition saveState (st : JVal) : M unit :=
  async (
    stateHash <- lift (JSON_stringify st) ;;
    m <- gets mw ;;
    if hash_is stateHash (lastSavedState m) || isHydrating m then ret tt
    else
      modify (upd_mw (with_lastSavedState (Some stateHash))) ;;
      try_catch
        (IndexedDBStorage.setItem st)
        (fun _ =>
           modify (emit (EvError MsgSaveFailed)) ;;
           modify (upd_mw (with_lastSavedState None)))).

End IndexedDBMiddleware.

(* ===================================================================== *)
(** ** The Echo class *)
(* ===================================================================== *)

Module Echo.

Definition MAX_RETRY_COUNT : nat := 3.
Definition RETRY_DELAY : Z := 500.
Definition SYNC_DELAY : Z := 50.
Definition SAVE_DELAY : Z := 100.

(** [options.name] as a condition: a name that is set and not empty. *)
Definition has_name (o : EchoOptions) : bool :=
  match name o with
  | Some s => negb (String.eqb s EmptyString)
  | None => false
  end.

Definition is_indexedDB (o : EchoOptions) : bool :=
  match storageType o with
  | Some indexedDB => true
  | _ => false
  end.


(** [get current()] *)
Definition current : M JVal := Zustand.getState.

(** [getStateHash(state)] *)
Definition getStateHash (st : JVal) : M Hash := lift (JSON_stringify st).

(** The message [broadcastState] posts. *)
Definition envelope (st : JVal) (timestamp : Z) : JVal :=
  JObj [("type", JStr "state-update"); ("state", st); ("timestamp", JNum timestamp)].

(** [broadcastState(newState)] *)
Definition broadcastState (newState : JVal) : M unit :=
  i <- gets this ;;
  if negb (is_some (channel i)) || negb (sync_opt (options i)) then ret tt
  else
    hash <- getStateHash newState ;;
    if hash_is hash (lastSyncHash i) then ret tt
    else
      try_catch
        (clear_slot (syncTimeout i) ;;
         id <- setTimeout (TBroadcast newState hash) SAVE_DELAY ;;
         modify (upd_this (with_syncTimeout (Some id))))
        (fun _ => modify (emit (EvError MsgSendSyncFailed))).

(** The body of the timer [broadcastState] sets. *)
Definition broadcast_timer (newState : JVal) (hash : Hash) : M unit :=
  ch <- gets (fun w => channel (this w)) ;;
  match ch with
  | Some c =>
      t <- gets (fun w => now (env w)) ;;
      modify (emit (EvPost c (envelope newState t)))
  | None => ret tt
  end ;;
  modify (upd_this (with_lastSyncHash (Some hash))).

(** [set(partial, replace = false)] *)
Definition set (partial : Partial) (replace : bool) : M unit :=
  oldState <- current ;;
  (if replace then Zustand.setState partial (Some true)
   else Zustand.setState partial None) ;;
  newState <- current ;;
  ch <- gets (fun w => channel (this w)) ;;
  when (is_some ch) (broadcastState newState) ;;
  cb <- gets (fun w => onChange (options (this w))) ;;
  match cb with
  | Some f => call_onChange f newState oldState
  | None => ret tt
  end.

(** [delete(key)] *)
Definition delete (key : string) : M unit :=
  Zustand.setState
    (PFun (fun st => Ok (JObj (remove key (own_props (spread st))))))
    (Some true).

(** [reset()] *)
Definition reset : M unit :=
  oldState <- current ;;
  dv <- gets (fun w => defaultValue (this w)) ;;
  Zustand.setState (PValue dv) (Some true) ;;
  cb <- gets (fun w => onChange (options (this w))) ;;
  match cb with
  | Some f => call_onChange f dv oldState
  | None => ret tt
  end.

(** [subscribe(listener)] *)
Definition subscribe (listener : Callback) : M nat :=
  Zustand.subscribe (LUser listener).

(** [validateStateUpdate(data)]: the operands of [&&] from left to right;
    the two calls of [data.hasOwnProperty] are reached only by an object
    whose [type] is "state-update", and they may throw. *)
Definition validateStateUpdate (data : JVal) : Result bool :=
  if truthy data
     && typeof_object data
     && strict_eq_str (member "type" data) "state-update"
  then
    match call_hasOwnProperty "state" data with
    | Ok true => call_hasOwnProperty "timestamp" data
    | Ok false => Ok false
    | Thrown e => Thrown e
    end
  else Ok false.

(** The part of the [onmessage] handler that applies a message. *)
Definition apply_inbound (data : JVal) (hash : Hash) : M unit :=
  modify (upd_this (with_lastSyncHash (Some hash))) ;;
  Zustand.setState (PValue (member "state" data)) (Some true) ;;
  cb <- gets (fun w => onChange (options (this w))) ;;
  match cb with
  | Some f =>
      oldState <- current ;;
      call_onChange f (member "state" data) oldState
  | None => ret tt
  end.

Definition handler_failed : Exn -> M unit :=
  fun _ => modify (emit (EvError MsgHandleMessageFailed)).

(** The body of [this.channel.onmessage], run with [event.data].  With
    an IndexedDB store the handler waits [SYNC_DELAY] before it applies
    the message: the rest runs as [TInbound]. *)
Definition onmessage_body (data : JVal) : M unit :=
  try_catch
    (valid <- lift (validateStateUpdate data) ;;
     if valid then
       hash <- getStateHash (member "state" data) ;;
       i <- gets this ;;
       if negb (hash_is hash (lastSyncHash i)) then
         if is_indexedDB (options i) then
           _ <- setTimeout (TInbound data hash) SYNC_DELAY ;; ret tt
         else apply_inbound data hash
       else ret tt
     else ret tt)
    handler_failed.

(** [this.channel.onmessage]: an async function. *)
Definition onmessage (data : JVal) : M unit := async (onmessage_body data).

Definition onmessage_resume_body (data : JVal) (hash : Hash) : M unit :=
  try_catch (apply_inbound data hash) handler_failed.

Definition onmessage_resume (data : JVal) (hash : Hash) : M unit :=
  async (onmessage_resume_body data hash).

(** [new BroadcastChannel(channelName)] *)
Definition new_BroadcastChannel : M nat :=
  fun w =>
    let c := next_channel (env w) in
    (Ok c, upd_env (with_next_channel (S c)) w).

(** [initializeSync] from its [try] on. *)
Definition initializeSync_resume : M unit :=
  async (
    try_catch
      (c <- new_BroadcastChannel ;;
       modify (upd_this (with_channel (Some c))) ;;
       st <- current ;;
       broadcastState st)
      (fun _ =>
         modify (emit (EvError MsgInitSyncFailed)) ;;
         modify (upd_this (with_channel None)))).

(** [initializeSync()]: with an IndexedDB store it first awaits
    [waitForStorage], and the rest runs as [TInitSyncResume]. *)
Definition initializeSync : M unit :=
  async (
    o <- gets (fun w => options (this w)) ;;
    bc <- gets (fun w => has_BroadcastChannel (env w)) ;;
    if negb (has_name o) then modify (emit (EvWarn MsgNeedName))
    else if negb bc then modify (emit (EvWarn MsgNoBroadcastChannel))
    else if is_indexedDB o then
      _ <- setTimeout TInitSyncResume 0 ;; ret tt
    else initializeSync_resume).

(** [sync(enabled = true)] *)
Definition sync (enabled : bool) : M unit :=
  ch <- gets (fun w => channel (this w)) ;;
  if Bool.eqb enabled (is_some ch) then ret tt
  else if enabled then initializeSync
  else
    match ch with
    | Some c =>
        try_catch
          (modify (emit (EvClose c)))
          (fun _ => modify (emit (EvError MsgCloseChannelFailed))) ;;
        modify (upd_this (with_channel None))
    | None => ret tt
    end ;;
    modify (upd_this (with_lastSyncHash None)).

(** [saveStateWithRetry(state, storage, name, retryCount = 0)] *)
Definition saveStateWithRetry (st : JVal) (retryCount : nat) : M unit :=
  async (
    try_catch
      (IndexedDBStorage.setItem st)
      (fun _ =>
         modify (emit (EvError (MsgSaveAttemptFailed (retryCount + 1) MAX_RETRY_COUNT))) ;;
         if Nat.ltb retryCount MAX_RETRY_COUNT then
           _ <- setTimeout (TSaveRetry st (retryCount + 1)) RETRY_DELAY ;; ret tt
         else ret tt)).

(** *** The constructor *)

Definition new_env (b : Backend) (bc : bool) : Env :=
  mkEnv [] 1 0 b bc 1.

(** [initialize()]: an unnamed store holds a copy of the default value; a
    named IndexedDB store holds the default value, starts the hydration
    and subscribes the saving listener.  A named store of the other kind
    ([uses_localStorage]) holds the default value; the source wraps its
    container in [persist(..., createJSONStorage(() => localStorage))],
    which belongs to the zustand package and reads and writes
    [localStorage] inside the constructor and inside [setState].  That
    middleware is not part of the sources and is not represented: of such
    a store the embedding has the container, the channel and the
    callbacks, and nothing of what its storage does. *)
Definition initialize : M unit :=
  i <- gets this ;;
  if negb (has_name (options i)) then
    modify (upd_store (with_state (spread (defaultValue i))))
  else if is_indexedDB (options i) then
    modify (upd_store (with_state (defaultValue i))) ;;
    _ <- setTimeout THydrate 0 ;;
    _ <- Zustand.subscribe LPersist ;;
    ret tt
  else
    modify (upd_store (with_state (defaultValue i))).

(** [this.storage] is set: the constructor makes an [IndexedDBStorage] of
    its own for a named store on IndexedDB. *)
Definition has_storage (o : EchoOptions) : bool :=
  is_indexedDB o && has_name o.

(** [this.storage.waitForDB().catch((error) => console.error(...))] *)
Definition await_storage : M unit :=
  async (try_catch IndexedDBStorage.waitForDB
           (fun _ => modify (emit (EvError MsgInitDBFailed)))).

(** [new Echo(defaultValue, options)] in a runtime [e].  The start of
    [initializeSync] is deferred by [SYNC_DELAY] (the branch without
    [requestIdleCallback]); the listener of [beforeunload] it adds is
    [beforeunload] below. *)
Definition new_Echo (dv : JVal) (o : EchoOptions) (e : Env) : World :=
  exec
    (when (has_storage o) await_storage ;;
     initialize ;;
     when (sync_opt o) (_ <- setTimeout TInitSync SYNC_DELAY ;; ret tt))
    (mkWorld (mkStore JUndefined [] 1)
             (mkMiddleware false false None None)
             (mkInstance dv o None None None)
             e []).

(** The listener of [beforeunload]: with a storage of its own the store
    asks it to write the current state; the promise is dropped. *)
Definition beforeunload : M unit :=
  o <- gets (fun w => options (this w)) ;;
  if has_storage o then
    st <- current ;;
    async (IndexedDBStorage.setItem st)
  else ret tt.

(** *** The event loop *)

Definition run_task (t : Task) : M unit :=
  match t with
  | TBroadcast newState hash => async (broadcast_timer newState hash)
  | TSave st => IndexedDBMiddleware.saveState st
  | TSaveRetry st n => saveStateWithRetry st n
  | THydrate => IndexedDBMiddleware.initializeState
  | TInitSync => initializeSync
  | TInitSyncResume => initializeSync_resume
  | TInbound data hash => onmessage_resume data hash
  end.

Definition find_timer (id : nat) (w : World) : option Timer :=
  find (fun t => Nat.eqb (t_id t) id) (timers (env w)).

(** The timer [id] expires: it leaves the table, the clock reaches its
    due time, its task runs. *)
Definition fire (id : nat) : M unit :=
  fun w =>
    match find_timer id w with
    | None => (Ok tt, w)
    | Some t =>
        (clearTimeout id ;;
         modify (upd_env (fun e => with_now (Z.max (now e) (t_due t)) e)) ;;
         run_task (t_task t)) w
    end.

(** The pending timer that expires first. *)
Fixpoint earliest (l : list Timer) : option Timer :=
  match l with
  | [] => None
  | t :: l' =>
      match earliest l' with
      | None => Some t
      | Some t' => if Z.leb (t_due t) (t_due t') then Some t else Some t'
      end
  end.

(** Let time pass until no timer is pending (at most [fuel] expiries). *)
Fixpoint run_timers (fuel : nat) (w : World) : World :=
  match fuel with
  | O => w
  | S fuel' =>
      match earliest (timers (env w)) with
      | None => w
      | Some t => run_timers fuel' (exec (fire (t_id t)) w)
      end
  end.

End Echo.


(* ===================================================================== *)
(** ** What a run leaves behind: observations and frames *)
(* ===================================================================== *)

Local Open Scope list_scope.

Module Obs.

(** The calls of [onChange] in a trace: (new, old, visible). *)
Fixpoint onChange_calls (tr : list Event) : list (JVal * JVal * JVal) :=
  match tr with
  | [] => []
  | EvOnChange n o v :: tr' => (n, o, v) :: onChange_calls tr'
  | _ :: tr' => onChange_calls tr'
  end.

(** The messages posted on the channel. *)
Fixpoint posts (tr : list Event) : list JVal :=
  match tr with
  | [] => []
  | EvPost _ m :: tr' => m :: posts tr'
  | _ :: tr' => posts tr'
  end.

(** The put requests sent to the storage backend. *)
Fixpoint writes (tr : list Event) : list (JVal * bool) :=
  match tr with
  | [] => []
  | EvWrite v ok :: tr' => (v, ok) :: writes tr'
  | _ :: tr' => writes tr'
  end.

(** The errors logged on the console. *)
Fixpoint errors (tr : list Event) : list Message :=
  match tr with
  | [] => []
  | EvError m :: tr' => m :: errors tr'
  | _ :: tr' => errors tr'
  end.

Definition is_broadcast (t : Timer) : bool :=
  match t_task t with TBroadcast _ _ => true | _ => false end.

(** The tasks from which a message can come to be posted: a pending
    broadcast, and the initialisation of the channel with its initial
    broadcast. *)
Definition is_sync_task (t : Timer) : bool :=
  match t_task t with
  | TBroadcast _ _ | TInitSync | TInitSyncResume => true
  | _ => false
  end.

Definition is_listener_event (e : Event) : Prop :=
  match e with EvListener _ _ _ => True | _ => False end.

Definition is_onChange_event (e : Event) : Prop :=
  match e with EvOnChange _ _ _ => True | _ => False end.

Definition is_callback_event (e : Event) : Prop :=
  is_listener_event e \/ is_onChange_event e.

(** Neither a message posted, nor a storage request, nor a channel closed. *)
Definition is_local_event (e : Event) : Prop :=
  match e with
  | EvPost _ _ | EvWrite _ _ | EvClose _ => False
  | _ => True
  end.

Definition not_post (e : Event) : Prop :=
  match e with EvPost _ _ => False | _ => True end.

Definition not_onChange (e : Event) : Prop :=
  match e with EvOnChange _ _ _ => False | _ => True end.

(** No subscribed listener of the application throws. *)
Definition listeners_return (w : World) : Prop :=
  forall id cb, In (id, LUser cb) (listeners (store w)) ->
  forall a b, cb_throws cb a b = false.


(** [broadcastState(st)] gets past its hash: no channel is open, or sync
    is off, or [st] has a JSON text. *)
Definition can_hash (w : World) (st : JVal) : Prop :=
  channel (this w) = None \/ sync_opt (options (this w)) = false
  \/ exists h, JSON_stringify st = Ok h.


(** The [replace] argument [set] hands to the container:
    [setState(partial, true)] or [setState(partial)]. *)
Definition replace_arg (replace : bool) : option bool :=
  if replace then Some true else None.

End Obs.
Import Obs.

Module Frame.

Class Preorder (R : World -> World -> Prop) : Prop := {
  pre_refl : forall w, R w w;
  pre_trans : forall a b c, R a b -> R b c -> R a c
}.

(** A projection of the world keeps its value. *)
Definition same {X} (f : World -> X) : World -> World -> Prop :=
  fun w w' => f w' = f w.

(** The trace grows by events that all satisfy [P]. *)
Definition grows (P : Event -> Prop) : World -> World -> Prop :=
  fun w w' => exists d, trace w' = trace w ++ d /\ Forall P d.

(** Every pending timer that satisfies [p] was pending before. *)
Definition no_new (p : Timer -> bool) : World -> World -> Prop :=
  fun w w' => forall t, In t (timers (env w')) -> p t = true -> In t (timers (env w)).

Definition both (R S : World -> World -> Prop) : World -> World -> Prop :=
  fun w w' => R w w' /\ S w w'.

(** [c] relates every world it starts in to the world it ends in, whether
    it returns or throws. *)
Definition preserves {A} (R : World -> World -> Prop) (c : M A) : Prop :=
  forall w, R w (snd (c w)).

End Frame.
Import Frame.

(* ===================================================================== *)
(** ** The words of the specification *)
(* ===================================================================== *)

Module Spec.

(** BroadcastEnvelope: [{ type: "state-update", state: T, timestamp:
    integer }]. *)
Definition envelope_shape (data : JVal) : bool :=
  is_object data
  && strict_eq_str (member "type" data) "state-update"
  && hasOwnProperty "state" data
  && match get_prop "timestamp" data with
     | Some (JNum _) => true
     | _ => false
     end.

(** [cur] is [v] shallow-merged into [old]: a field of [v] has the value
    [v] gives it, any other field the value it had in [old]. *)
Definition merged (old v cur : JVal) : Prop :=
  is_object cur = true /\
  forall k, get_prop k cur =
            match get_prop k v with
            | Some x => Some x
            | None => get_prop k old
            end.

(** What [validateStateUpdate] accepts, in words: an object whose [type]
    is "state-update", that has own properties [state] and [timestamp],
    and that has no own property named "hasOwnProperty". *)
Definition presence_shape (data : JVal) : Prop :=
  is_object data = true
  /\ get_prop "type" data = Some (JStr "state-update")
  /\ get_prop "state" data <> None
  /\ get_prop "timestamp" data <> None
  /\ get_prop "hasOwnProperty" data = None.

(** What makes [validateStateUpdate] throw: an object whose [type] is
    "state-update" and that has an own property named "hasOwnProperty". *)
Definition shadowed_shape (data : JVal) : Prop :=
  is_object data = true
  /\ get_prop "type" data = Some (JStr "state-update")
  /\ get_prop "hasOwnProperty" data <> None.

End Spec.

(* ===================================================================== *)
(** ** Stores and inputs used in the examples *)
(* ===================================================================== *)

Module Demo.

Definition quiet : Callback := mkCallback (fun _ _ => false).

Definition healthy : Backend := mkBackend None false false [].

Definition count (n : Z) : JVal := JObj [("count", JNum n)].

(** The JSON text of a value that has one. *)
Definition hash_of (v : JVal) : Hash :=
  match JSON_stringify v with
  | Ok h => h
  | Thrown _ => HUndefined
  end.
Definition ab : JVal := JObj [("a", JNum 1); ("b", JNum 2)].

(** [new Echo({count: 0}, { onChange })] *)
Definition counter : World :=
  Echo.new_Echo (count 0) (mkOptions None None (Some quiet) false)
    (Echo.new_env healthy true).

(** [new Echo({a: 1, b: 2}, { onChange })] *)
Definition ab_store : World :=
  Echo.new_Echo ab (mkOptions None None (Some quiet) false)
    (Echo.new_env healthy true).


(** [new Echo({count: 0}, { name: "c", sync: true, onChange })], once its
    channel is open and the initial broadcast is out. *)
Definition synced : World :=
  Echo.run_timers 2
    (Echo.new_Echo (count 0) (mkOptions (Some "c") None (Some quiet) true)
       (Echo.new_env healthy true)).


(** [new Echo({count: 0}, { name: "c", storageType: "indexedDB",
    sync: true, onChange })] over an empty database, once it is hydrated,
    its channel is open and the initial broadcast is out. *)
Definition synced_db : World :=
  Echo.run_timers 4
    (Echo.new_Echo (count 0) (mkOptions (Some "c") (Some indexedDB) (Some quiet) true)
       (Echo.new_env healthy true)).

(** [new Echo({a: 0, b: 2}, { name: "s", storageType: "indexedDB" })]
    over a database that holds the record [{a: 1}]. *)
Definition persisted : World :=
  Echo.new_Echo (JObj [("a", JNum 0); ("b", JNum 2)])
    (mkOptions (Some "s") (Some indexedDB) None false)
    (Echo.new_env (mkBackend (Some (JObj [("a", JNum 1)])) false false []) true).

(** The same store over a database whose first three put requests fail. *)
Definition flaky : World :=
  Echo.new_Echo (JObj [("a", JNum 0); ("b", JNum 2)])
    (mkOptions (Some "s") (Some indexedDB) None false)
    (Echo.new_env
       (mkBackend (Some (JObj [("a", JNum 1)])) false false [true; true; true])
       true).

(** An unnamed store next to a database whose put requests fail or
    succeed as [script] says: a storage to hand to [saveStateWithRetry]. *)
Definition scripted (script : list bool) : World :=
  Echo.new_Echo (count 0) (mkOptions None None None false)
    (Echo.new_env (mkBackend None false false script) true).

(** A message with a timestamp that is not a number. *)
Definition odd_message : JVal :=
  JObj [("type", JStr "state-update"); ("state", count 7);
        ("timestamp", JStr "soon")].

Definition good_message : JVal := Echo.envelope (count 7) 1700000000000.

(** An envelope that carries a property named "hasOwnProperty". *)
Definition shadowed_message : JVal :=
  JObj [("type", JStr "state-update"); ("state", count 7);
        ("timestamp", JNum 1700000000000); ("hasOwnProperty", JNum 1)].

End Demo.

(* ===================================================================== *)
(** ** A session: what can happen to a store, in any order *)
(* ===================================================================== *)

Module Session.

(** The channel [c] has been closed. *)
Fixpoint closed (c : nat) (tr : list Event) : bool :=
  match tr with
  | [] => false
  | EvClose c' :: tr' => Nat.eqb c c' || closed c tr'
  | _ :: tr' => closed c tr'
  end.

(** Some [BroadcastChannel] the store has made is still open: each one
    carries the [onmessage] handler from its creation to its [close()]. *)
Definition listening (w : World) : bool :=
  existsb (fun c => negb (closed c (trace w)))
          (seq 1 (next_channel (env w) - 1)).

Inductive Action : Type :=
| ASet (partial : Partial) (replace : bool)   (* store.set(partial, replace) *)
| ADelete (key : string)                       (* store.delete(key) *)
| AReset                                       (* store.reset() *)
| ASubscribe (listener : Callback)             (* store.subscribe(listener) *)
| AUnsubscribe (id : nat)                      (* the function subscribe returned *)
| ASync (enabled : bool)                       (* store.sync(enabled) *)
| AMessage (data : JVal)                       (* a message reaches the channel *)
| AFire (id : nat)                             (* a pending timer expires *)
| AUnload.                                     (* the window fires beforeunload *)

Definition step (a : Action) : M unit :=
  match a with
  | ASet partial replace => Echo.set partial replace
  | ADelete key => Echo.delete key
  | AReset => Echo.reset
  | ASubscribe listener => _ <- Echo.subscribe listener ;; ret tt
  | AUnsubscribe id => Zustand.unsubscribe id
  | ASync enabled => Echo.sync enabled
  | AMessage data =>
      fun w => if listening w then Echo.onmessage data w else (Ok tt, w)
  | AFire id => Echo.fire id
  | AUnload => Echo.beforeunload
  end.

(** The world after the actions, whatever each call returned or threw. *)
Definition run (actions : list Action) (w : World) : World :=
  fold_left (fun w a => exec (step a) w) actions w.

Definition is_save (t : Timer) : bool :=
  match t_task t with TSave _ => true | _ => false end.

Definition is_user (l : Listener) : bool :=
  match l with LUser _ => true | LPersist => false end.

(** The pending saves and the pending broadcasts. *)
Definition pending_saves (w : World) : list Timer :=
  filter is_save (timers (env w)).
Definition pending_broadcasts (w : World) : list Timer :=
  filter is_broadcast (timers (env w)).

(** The timer table and the two debounce slots agree: identifiers are
    positive, distinct and below the next one, and a pending timer is a
    save (a broadcast) exactly when [saveTimeout] ([syncTimeout]) names it. *)
Record slots (w : World) : Prop := {
  next_positive : 0 < next_timer (env w);
  ids_positive : forall t, In t (timers (env w)) -> 0 < t_id t;
  ids_below : forall t, In t (timers (env w)) -> t_id t < next_timer (env w);
  ids_distinct : NoDup (map t_id (timers (env w)));
  save_below : forall id, saveTimeout (mw w) = Some id -> id < next_timer (env w);
  sync_below : forall id, syncTimeout (this w) = Some id -> id < next_timer (env w);
  save_slot : forall t, In t (timers (env w)) ->
              (is_save t = true <-> saveTimeout (mw w) = Some (t_id t));
  sync_slot : forall t, In t (timers (env w)) ->
              (is_broadcast t = true <-> syncTimeout (this w) = Some (t_id t))
}.

(** What [slots] reads of a world. *)
Definition slot_view (w : World) :=
  (timers (env w), next_timer (env w), saveTimeout (mw w), syncTimeout (this w)).

(** A task that is neither a save nor a broadcast. *)
Definition plain (task : Task) : bool :=
  match task with
  | TSave _ | TBroadcast _ _ => false
  | _ => true
  end.

(** The timers [if (slot) clearTimeout(slot)] leaves. *)
Definition without_slot (slot : option nat) (l : list Timer) : list Timer :=
  match slot with
  | Some id => if Nat.eqb id 0 then l else filter (fun t => negb (Nat.eqb (t_id t) id)) l
  | None => l
  end.

(** The database takes the next put request. *)
Definition can_write (b : Backend) : Prop :=
  be_open_fails b = false
  /\ (be_write_script b = [] \/ exists rest, be_write_script b = false :: rest).

(** A store without a name that has stayed inert: no channel, no saving
    listener, nothing pending but the start of the sync it was asked for,
    no storage request made and no message posted. *)
Record inert (w : World) : Prop := {
  inert_name : Echo.has_name (options (this w)) = false;
  inert_channel : channel (this w) = None;
  inert_channels : next_channel (env w) = 1;
  inert_timers : forall t, In t (timers (env w)) -> t_task t = TInitSync;
  inert_listeners : forall il, In il (listeners (store w)) -> is_user (snd il) = true;
  inert_writes : writes (trace w) = [];
  inert_posts : posts (trace w) = []
}.

(** A store whose [sync] option is off and that has nothing to post. *)
Record silent (w : World) : Prop := {
  silent_option : sync_opt (options (this w)) = false;
  silent_timers : forall t, In t (timers (env w)) -> is_broadcast t = false;
  silent_posts : posts (trace w) = []
}.

(** A run keeps the invariant [I]. *)
Definition keeps (I : World -> Prop) : World -> World -> Prop :=
  fun w w' => I w -> I w'.

(** A run that leaves the options alone, schedules no broadcast and posts
    nothing. *)
Definition quietly : World -> World -> Prop :=
  both (same (fun w => options (this w)))
       (both (no_new is_broadcast) (grows not_post)).

(** A run that only calls into the application. *)
Definition calmly : World -> World -> Prop :=
  both (same this)
       (both (same env)
             (both (same (fun w => listeners (store w))) (grows is_callback_event))).

End Session.

(* ===================================================================== *)
(** ** Users of the store *)
(* ===================================================================== *)

Module Callers.

(** [{ ...prev, [key]: value }] *)
Definition with_field (key : string) (value : JVal) (prev : JVal) : JVal :=
  JObj (put key value (own_props (spread prev))).

(** [const newState = { ...prev }; delete newState[id]; return newState] *)
Definition without_field (id : string) (prev : JVal) : JVal :=
  JObj (remove id (own_props (spread prev))).

(** [KnowledgeStore.deleteKnowledge(id)]:
    [this.store.set((prev) => { ...; delete newState[id]; return newState })] *)
Definition deleteKnowledge (id : string) : M unit :=
  Echo.set (PFun (fun prev => Ok (without_field id prev))) false.

(** [HistoryMessage.deleteHistory(id)]: the same updater, with [true]. *)
Definition deleteHistory (id : string) : M unit :=
  Echo.set (PFun (fun prev => Ok (without_field id prev))) true.

(** [HistoryMessage.clearAll()]: [ChatHistory.set({}, true)] *)
Definition clearAll : M unit := Echo.set (PValue (JObj [])) true.

(** [KnowledgeStore.setThreshold], [setLimit], [setModel],
    [SettingsManager.setReactMaxIterations] and the last step of
    [addKnowledge]: [store.set((prev) => ({ ...prev, [key]: value }))];
    [SettingsManager.setTheme] is the same with [true]. *)
Definition setField (key : string) (value : JVal) (replace : bool) : M unit :=
  Echo.set (PFun (fun prev => Ok (with_field key value prev))) replace.

(** [HistoryMessage.create]: [ChatHistory.set({ [history.id]: history })] *)
Definition addEntry (id : string) (entry : JVal) : M unit :=
  Echo.set (PValue (JObj [(id, entry)])) false.

End Callers.

(* ===================================================================== *)
(** ** KnowledgeStore.splitTextIntoChunks *)
(* ===================================================================== *)

Module Chunks.

(** A text is its sequence of UTF-16 code units, which is what [length],
    [slice] and the character class of [split] count. *)
Definition Text := list N.

Definition CHUNK_SIZE : nat := 300.

(** The class [[.\u3002!?\uFF01\uFF1F\n]] of the regular expression. *)
Definition is_separator (c : N) : bool :=
  existsb (N.eqb c) [46; 12290; 33; 63; 65281; 65311; 10]%N.

(** What [trim] removes: white space and line terminators. *)
Definition is_blank (c : N) : bool :=
  existsb (N.eqb c)
    [9; 10; 11; 12; 13; 32; 160; 5760; 8232; 8233; 8239; 8287; 12288; 65279]%N
  || (N.leb 8192 c && N.leb c 8202).

(** [text.split(/[...]/)]: the pieces between separators; a text without
    separator is one piece. *)
Fixpoint split_from (piece : Text) (text : Text) : list Text :=
  match text with
  | [] => [rev piece]
  | c :: rest =>
      if is_separator c then rev piece :: split_from [] rest
      else split_from (c :: piece) rest
  end.

Definition split (text : Text) : list Text := split_from [] text.

Fixpoint trim_start (s : Text) : Text :=
  match s with
  | c :: rest => if is_blank c then trim_start rest else s
  | [] => []
  end.

(** [s.trim()] *)
Definition trim (s : Text) : Text := rev (trim_start (rev (trim_start s))).

(** [text.split(...).filter((s) => s.trim().length > 0).map((s) => s.trim())] *)
Definition sentences (text : Text) : list Text :=
  map trim (filter (fun s => Nat.ltb 0 (List.length (trim s))) (split text)).

(** [s.slice(i, j)] for [0 <= i <= j] *)
Definition slice (i j : nat) (s : Text) : Text := firstn (j - i) (skipn i s).

(** [for (let i = ...; i < sentence.length; i += CHUNK_SIZE)
       chunks.push(sentence.slice(i, i + CHUNK_SIZE))]:
    the pieces pushed from index [i] on; [fuel] bounds the turns. *)
Fixpoint slices_from (fuel i : nat) (sentence : Text) : list Text :=
  match fuel with
  | O => []
  | S fuel' =>
      if Nat.ltb i (List.length sentence)
      then slice i (i + CHUNK_SIZE) sentence
           :: slices_from fuel' (i + CHUNK_SIZE) sentence
      else []
  end.

Definition slices (sentence : Text) : list Text :=
  slices_from (List.length sentence) 0 sentence.

(** The variables of the loop. *)
Record Acc : Type := mkAcc {
  chunks : list Text;
  currentChunk : Text;
  currentLength : nat
}.

(** [if (currentChunk) chunks.push(currentChunk)] *)
Definition flush (cs : list Text) (cur : Text) : list Text :=
  match cur with
  | [] => cs
  | _ => cs ++ [cur]
  end.

(** One turn of [for (const sentence of sentences)]. *)
Definition turn (a : Acc) (sentence : Text) : Acc :=
  if Nat.leb CHUNK_SIZE (List.length sentence) then
    mkAcc (flush (chunks a) (currentChunk a) ++ slices sentence) [] 0
  else if Nat.ltb CHUNK_SIZE (currentLength a + List.length sentence + 1) then
    mkAcc (flush (chunks a) (currentChunk a)) sentence (List.length sentence)
  else
    match currentChunk a with
    | [] => mkAcc (chunks a) sentence (currentLength a + List.length sentence)
    | _ =>
        mkAcc (chunks a) (currentChunk a ++ [32%N] ++ sentence)
              (currentLength a + 1 + List.length sentence)
    end.

(** [splitTextIntoChunks(text)] *)
Definition splitTextIntoChunks (text : Text) : list Text :=
  let a := fold_left turn (sentences text) (mkAcc [] [] 0) in
  flush (chunks a) (currentChunk a).

(** The code units that are not the space. *)
Definition ink (s : Text) : Text := filter (fun c => negb (N.eqb c 32)) s.

(** A chunk is not empty and has at most [CHUNK_SIZE] code units. *)
Definition well_sized (c : Text) : Prop :=
  1 <= List.length c <= CHUNK_SIZE.

(** What the loop over the sentences keeps true of its variables, once
    the sentences [done] have been through it. *)
Record loop_inv (done : list Text) (a : Acc) : Prop := {
  inv_chunks : forall c, In c (chunks a) -> well_sized c;
  inv_length : currentLength a = List.length (currentChunk a);
  inv_current : List.length (currentChunk a) <= CHUNK_SIZE;
  inv_ink : List.concat (map ink (chunks a)) ++ ink (currentChunk a)
            = List.concat (map ink done)
}.

End Chunks.

(* ===================================================================== *)
(** * Properties *)
(* ===================================================================== *)

(** ** Frame reasoning *)

#[export] Instance same_pre {X} (f : World -> X) : Preorder (same f).
Proof. split; unfold same; congruence. Qed.

#[export] Instance grows_pre P : Preorder (grows P).
Proof.
  split.
  - intro w. exists []. rewrite app_nil_r. auto.
  - intros a b c [d1 [E1 F1]] [d2 [E2 F2]]. exists (d1 ++ d2).
    rewrite E2, E1, app_assoc. split; [reflexivity | apply Forall_app; auto].
Qed.

#[export] Instance no_new_pre p : Preorder (no_new p).
Proof. split; unfold no_new; auto. Qed.

#[export] Instance both_pre R S `{Preorder R} `{Preorder S} : Preorder (both R S).
Proof.
  split.
  - intro w. split; apply pre_refl.
  - intros a b c [] []. split; eapply pre_trans; eauto.
Qed.

Section Combinators.
Context (R : World -> World -> Prop) `{Preorder R}.

Lemma preserves_ret {A} (a : A) : preserves R (ret a).
Proof. intro w. apply pre_refl. Qed.

Lemma preserves_throw {A} e : preserves R (@throw A e).
Proof. intro w. apply pre_refl. Qed.

Lemma preserves_gets {A} (f : World -> A) : preserves R (gets f).
Proof. intro w. apply pre_refl. Qed.

Lemma preserves_lift {A} (r : Result A) : preserves R (lift r).
Proof. intro w. apply pre_refl. Qed.

Lemma preserves_bind {A B} (c : M A) (k : A -> M B) :
  preserves R c -> (forall a, preserves R (k a)) -> preserves R (bind c k).
Proof.
  intros Hc Hk w. unfold bind. specialize (Hc w).
  destruct (c w) as [[a | e] w1]; simpl in *; auto.
  eapply pre_trans; [exact Hc | apply Hk].
Qed.

Lemma preserves_try_catch {A} (c : M A) (h : Exn -> M A) :
  preserves R c -> (forall e, preserves R (h e)) -> preserves R (try_catch c h).
Proof.
  intros Hc Hh w. unfold try_catch. specialize (Hc w).
  destruct (c w) as [[a | e] w1]; simpl in *; auto.
  eapply pre_trans; [exact Hc | apply Hh].
Qed.

Lemma preserves_async (c : M unit) : preserves R c -> preserves R (async c).
Proof. intros Hc w. apply Hc. Qed.

Lemma preserves_when b (c : M unit) : preserves R c -> preserves R (when b c).
Proof. intros Hc. destruct b; simpl; auto. apply preserves_ret. Qed.

Lemma notify_preserves ls st prev :
  (forall id l, preserves R (Zustand.call_listener id l st prev)) ->
  preserves R (Zustand.notify ls st prev).
Proof.
  intros Hc. induction ls as [| [id l] rest IH]; simpl.
  - apply preserves_ret.
  - apply preserves_bind; auto.
Qed.
End Combinators.

Lemma grows_weaken (P Q : Event -> Prop) w w' :
  (forall e, P e -> Q e) -> grows P w w' -> grows Q w w'.
Proof.
  intros HPQ [d [E F]]. exists d. split; [exact E |].
  eapply Forall_impl; eauto.
Qed.

Lemma filter_In_sub {A} (f : A -> bool) l x : In x (filter f l) -> In x l.
Proof. intro H. apply filter_In in H. tauto. Qed.

(** One step through the structure of a computation. *)
Ltac frame_step :=
  lazymatch goal with
  | |- preserves ?R (ret _) => apply (@preserves_ret R _)
  | |- preserves ?R (gets _) => apply (@preserves_gets R _)
  | |- preserves ?R (lift _) => apply (@preserves_lift R _)
  | |- preserves ?R (throw _) => apply (@preserves_throw R _)
  | |- preserves ?R (bind _ _) => apply (@preserves_bind R _); [ | intro ]
  | |- preserves ?R (try_catch _ _) => apply (@preserves_try_catch R _); [ | intro ]
  | |- preserves ?R (async _) => apply (@preserves_async R _)
  | |- preserves ?R (when _ _) => apply (@preserves_when R _)
  | |- preserves ?R (Zustand.notify _ _ _) =>
      apply (@notify_preserves R _); intros;
      unfold Zustand.call_listener, Zustand.persist_listener
  | |- preserves _ (clear_slot _) => unfold clear_slot
  | |- preserves _ (match ?x with _ => _ end) => destruct x
  end.

Ltac unfold_atoms :=
  unfold call_user_listener, call_onChange, setTimeout, clearTimeout, modify,
    Echo.new_BroadcastChannel, IndexedDBStorage.waitForDB.

Ltac split_ifs :=
  repeat match goal with
         | |- context [if ?b then _ else _] => destruct b; simpl
         end.

(** The atoms of a computation, for each kind of frame relation. *)
Ltac atom_same :=
  let w := fresh "w" in
  intro w; unfold same; unfold_atoms; simpl; split_ifs; reflexivity.

Ltac atom_grows :=
  let w := fresh "w" in
  intro w; unfold grows; unfold_atoms; simpl; split_ifs;
  first [ exists []; rewrite app_nil_r; split; [reflexivity | constructor]
        | eexists [_]; split;
          [ reflexivity
          | apply Forall_cons;
            [ unfold is_callback_event; simpl; auto | apply Forall_nil ] ] ].

Ltac atom_no_new :=
  let w := fresh "w" in
  let t := fresh "t" in
  let Hin := fresh "Hin" in
  let Hp := fresh "Hp" in
  intro w; unfold no_new; unfold_atoms; simpl; split_ifs; intros t Hin Hp;
  first
    [ exact Hin
    | apply filter_In_sub in Hin; exact Hin
    | apply in_app_or in Hin; destruct Hin as [Hin | [Hin | []]];
      [exact Hin | subst t; discriminate Hp] ].

Ltac unfold_ops :=
  repeat progress
    unfold Echo.onmessage, Echo.onmessage_body, Echo.onmessage_resume,
      Echo.onmessage_resume_body, Echo.apply_inbound, Echo.handler_failed,
      Echo.set, Echo.delete, Echo.reset, Echo.subscribe, Echo.current,
      Echo.broadcastState, Echo.getStateHash,
      Zustand.setState, Zustand.getState.

Ltac frame_with atom := unfold_ops; repeat frame_step; try solve [atom].

(** ** The state container *)

Lemma setState_this p r : preserves (same this) (Zustand.setState p r).
Proof. frame_with atom_same. Qed.


Lemma setState_backend p r :
  preserves (same (fun w => backend (env w))) (Zustand.setState p r).
Proof. frame_with atom_same. Qed.

Lemma setState_trace p r :
  preserves (grows is_listener_event) (Zustand.setState p r).
Proof. frame_with atom_grows. Qed.

Lemma setState_no_sync_task p r :
  preserves (no_new is_sync_task) (Zustand.setState p r).
Proof. frame_with atom_no_new. Qed.

(** ** Running a computation step by step *)

Lemma bind_ok {A B} (c : M A) (k : A -> M B) w a :
  fst (c w) = Ok a -> bind c k w = k a (snd (c w)).
Proof. unfold bind. destruct (c w) as [[a' | e] w1]; simpl; congruence. Qed.

Lemma bind_thrown {A B} (c : M A) (k : A -> M B) w e :
  fst (c w) = Thrown e -> bind c k w = (Thrown e, snd (c w)).
Proof. unfold bind. destruct (c w) as [[a' | e'] w1]; simpl; congruence. Qed.

Lemma bind_post {A B} (c : M A) (k : A -> M B) (Q : World -> Prop) w :
  Q (snd (c w)) -> (forall a w1, Q w1 -> Q (snd (k a w1))) -> Q (snd (bind c k w)).
Proof. unfold bind. destruct (c w) as [[a | e] w1]; simpl; auto. Qed.

Lemma persist_listener_ok st w : fst (Zustand.persist_listener st w) = Ok tt.
Proof.
  unfold Zustand.persist_listener, clear_slot, bind, gets.
  destruct (saveTimeout (mw w)) as [id |]; simpl; [destruct (Nat.eqb id 0) |]; reflexivity.
Qed.

Lemma notify_ok ls st prev :
  (forall id cb, In (id, LUser cb) ls -> forall a b, cb_throws cb a b = false) ->
  forall w, fst (Zustand.notify ls st prev w) = Ok tt.
Proof.
  induction ls as [| [id l] rest IH]; intros Hq w; simpl; [reflexivity |].
  assert (Hl : fst (Zustand.call_listener id l st prev w) = Ok tt).
  { destruct l as [| cb]; simpl.
    - apply persist_listener_ok.
    - unfold call_user_listener. rewrite (Hq id cb); simpl; auto. }
  rewrite (bind_ok _ _ _ _ Hl). apply IH.
  intros id' cb' Hin. apply (Hq id' cb'). right. exact Hin.
Qed.

Lemma notify_state ls st prev :
  preserves (same (fun w => state (store w))) (Zustand.notify ls st prev).
Proof. frame_with atom_same. Qed.

Lemma notify_listeners ls st prev :
  preserves (same (fun w => listeners (store w))) (Zustand.notify ls st prev).
Proof. frame_with atom_same. Qed.

Lemma setState_run p r v w :
  Zustand.eval_partial p (state (store w)) = Ok v ->
  Zustand.setState p r w =
  Zustand.notify (listeners (store w))
    (Zustand.next_state r (state (store w)) v) (state (store w))
    (upd_store (with_state (Zustand.next_state r (state (store w)) v)) w).
Proof.
  intro Hv. unfold Zustand.setState, Zustand.getState, bind, gets, lift, modify.
  rewrite Hv. reflexivity.
Qed.

Lemma setState_state p r v w :
  Zustand.eval_partial p (state (store w)) = Ok v ->
  state (store (exec (Zustand.setState p r) w)) =
  Zustand.next_state r (state (store w)) v.
Proof.
  intro Hv. unfold exec. rewrite (setState_run _ _ _ _ Hv).
  etransitivity; [apply (notify_state _ _ _ _) | reflexivity].
Qed.

Lemma setState_ok p r v w :
  Zustand.eval_partial p (state (store w)) = Ok v ->
  listeners_return w ->
  outcome (Zustand.setState p r) w = Ok tt.
Proof.
  intros Hv Hq. unfold outcome. rewrite (setState_run _ _ _ _ Hv).
  apply notify_ok. intros id cb Hin. apply (Hq id cb). exact Hin.
Qed.

Lemma setState_thrown p r e w :
  Zustand.eval_partial p (state (store w)) = Thrown e ->
  Zustand.setState p r w = (Thrown e, w).
Proof.
  intro Hv. unfold Zustand.setState, Zustand.getState, bind, gets, lift.
  rewrite Hv. reflexivity.
Qed.

Lemma onChange_calls_app a b : onChange_calls (a ++ b) = onChange_calls a ++ onChange_calls b.
Proof. induction a as [| [] a IH]; simpl; rewrite ?IH; reflexivity. Qed.

Lemma posts_app a b : posts (a ++ b) = posts a ++ posts b.
Proof. induction a as [| [] a IH]; simpl; rewrite ?IH; reflexivity. Qed.

Lemma writes_app a b : writes (a ++ b) = writes a ++ writes b.
Proof. induction a as [| [] a IH]; simpl; rewrite ?IH; reflexivity. Qed.

Lemma onChange_calls_none d : Forall not_onChange d -> onChange_calls d = [].
Proof. induction 1 as [| [] d Hx Hd IH]; simpl in *; auto; contradiction. Qed.

Lemma posts_none d : Forall not_post d -> posts d = [].
Proof. induction 1 as [| [] d Hx Hd IH]; simpl in *; auto; contradiction. Qed.

Lemma writes_none d : Forall is_local_event d -> writes d = [].
Proof. induction 1 as [| [] d Hx Hd IH]; simpl in *; auto; contradiction. Qed.

Lemma grows_onChange_calls w w' :
  grows not_onChange w w' -> onChange_calls (trace w') = onChange_calls (trace w).
Proof.
  intros [d [E F]]. rewrite E, onChange_calls_app, (onChange_calls_none d F).
  apply app_nil_r.
Qed.

Lemma grows_posts w w' : grows not_post w w' -> posts (trace w') = posts (trace w).
Proof.
  intros [d [E F]]. rewrite E, posts_app, (posts_none d F). apply app_nil_r.
Qed.

Lemma grows_writes w w' : grows is_local_event w w' -> writes (trace w') = writes (trace w).
Proof.
  intros [d [E F]]. rewrite E, writes_app, (writes_none d F). apply app_nil_r.
Qed.

Lemma broadcastState_store st : preserves (same store) (Echo.broadcastState st).
Proof. frame_with atom_same. Qed.

Lemma broadcastState_trace st : preserves (grows (fun e => not_onChange e /\ is_local_event e)) (Echo.broadcastState st).
Proof. frame_with atom_grows. Qed.

Lemma broadcastState_ok st w : can_hash w st -> fst (Echo.broadcastState st w) = Ok tt.
Proof.
  intros Hc. unfold Echo.broadcastState, Echo.getStateHash, bind, gets, lift, try_catch.
  destruct (channel (this w)) as [c |] eqn:Ec; simpl; [| reflexivity].
  destruct (sync_opt (options (this w))) eqn:Es; simpl; [| reflexivity].
  destruct Hc as [Hc | [Hc | [h Hh]]]; try congruence.
  rewrite Hh. destruct (hash_is h (lastSyncHash (this w))); [reflexivity |].
  unfold clear_slot, when.
  destruct (syncTimeout (this w)) as [id |]; simpl; [destruct (Nat.eqb id 0) |]; reflexivity.
Qed.

Lemma set_unfold p r w :
  Echo.set p r w =
  bind (Zustand.setState p (replace_arg r))
    (fun _ =>
       newState <- Echo.current ;;
       ch <- gets (fun w => channel (this w)) ;;
       when (is_some ch) (Echo.broadcastState newState) ;;
       cb <- gets (fun w => onChange (options (this w))) ;;
       match cb with
       | Some f => call_onChange f newState (state (store w))
       | None => ret tt
       end) w.
Proof. unfold Echo.set, replace_arg. destruct r; reflexivity. Qed.

Lemma set_state p r v w :
  Zustand.eval_partial p (state (store w)) = Ok v ->
  state (store (exec (Echo.set p r) w)) = Zustand.next_state (replace_arg r) (state (store w)) v.
Proof.
  intro Hv. unfold exec. rewrite set_unfold.
  apply bind_post.
  - apply (setState_state _ _ _ _ Hv).
  - intros [] w1 H1. rewrite <- H1.
    assert (F : preserves (same (fun w => state (store w)))
      (newState <- Echo.current ;;
       ch <- gets (fun w => channel (this w)) ;;
       when (is_some ch) (Echo.broadcastState newState) ;;
       cb <- gets (fun w => onChange (options (this w))) ;;
       match cb with
       | Some f => call_onChange f newState (state (store w))
       | None => ret tt
       end)) by frame_with atom_same.
    apply F.
Qed.

Lemma broadcastState_options st :
  preserves (same (fun w => options (this w))) (Echo.broadcastState st).
Proof. frame_with atom_same. Qed.

Lemma can_hash_this w w' st : this w' = this w -> can_hash w st -> can_hash w' st.
Proof. unfold can_hash. intros ->. auto. Qed.

Lemma when_broadcast_ok b st w :
  can_hash w st -> fst (when b (Echo.broadcastState st) w) = Ok tt.
Proof. destruct b; simpl; auto using broadcastState_ok. Qed.

Lemma bind_gets {A B} (f : World -> A) (k : A -> M B) w :
  bind (gets f) k w = k (f w) w.
Proof. reflexivity. Qed.

Lemma set_normal p r v w :
  Zustand.eval_partial p (state (store w)) = Ok v ->
  listeners_return w ->
  can_hash w (Zustand.next_state (replace_arg r) (state (store w)) v) ->
  let new := Zustand.next_state (replace_arg r) (state (store w)) v in
  let w1 := exec (Zustand.setState p (replace_arg r)) w in
  let w2 := exec (when (is_some (channel (this w1))) (Echo.broadcastState new)) w1 in
  Echo.set p r w =
  match onChange (options (this w)) with
  | Some f => call_onChange f new (state (store w)) w2
  | None => (Ok tt, w2)
  end.
Proof.
  intros Hv Hq Hh. cbv zeta. unfold exec.
  set (new := Zustand.next_state (replace_arg r) (state (store w)) v) in *.
  set (w1 := snd (Zustand.setState p (replace_arg r) w)).
  assert (T1 : this w1 = this w) by apply (setState_this _ _ w).
  assert (S1 : state (store w1) = new) by apply (setState_state _ _ _ _ Hv).
  rewrite set_unfold.
  rewrite (bind_ok _ _ _ tt (setState_ok _ _ _ _ Hv Hq)). fold w1.
  unfold Echo.current, Zustand.getState.
  rewrite bind_gets, S1, bind_gets.
  rewrite (bind_ok _ _ _ tt (when_broadcast_ok _ _ _ (can_hash_this _ _ _ T1 Hh))).
  set (w2 := snd (when (is_some (channel (this w1))) (Echo.broadcastState new) w1)).
  rewrite bind_gets.
  assert (O2 : options (this w2) = options (this w)).
  { transitivity (options (this w1)); [| rewrite T1; reflexivity].
    unfold w2. destruct (is_some (channel (this w1))); simpl; [| reflexivity].
    apply (broadcastState_options _ _). }
  rewrite O2. destruct (onChange (options (this w))); reflexivity.
Qed.

(** ** set, reset and delete *)

Lemma broadcastState_this_fixed st :
  preserves (same (fun w => (channel (this w), lastSyncHash (this w),
                             options (this w), defaultValue (this w))))
            (Echo.broadcastState st).
Proof. frame_with atom_same. Qed.

Lemma when_preserves R `{Preorder R} b (c : M unit) w :
  preserves R c -> R w (snd (when b c w)).
Proof. intro Hc. apply (preserves_when R b c Hc). Qed.

(** The world in which [set] calls [onChange]: the new value is committed
    and the trace has no call of [onChange] more than before. *)
Lemma set_before_onChange p r v w :
  Zustand.eval_partial p (state (store w)) = Ok v ->
  let new := Zustand.next_state (replace_arg r) (state (store w)) v in
  let w1 := exec (Zustand.setState p (replace_arg r)) w in
  let w2 := exec (when (is_some (channel (this w1))) (Echo.broadcastState new)) w1 in
  state (store w2) = new /\ grows not_onChange w w2.
Proof.
  intros Hv new w1 w2. split.
  - transitivity (state (store w1)); [| apply (setState_state _ _ _ _ Hv)].
    unfold w2, exec.
    assert (E : store (snd (when (is_some (channel (this w1))) (Echo.broadcastState new) w1))
                = store w1).
    { apply (when_preserves (same store)). apply broadcastState_store. }
    rewrite E. reflexivity.
  - apply (pre_trans w w1 w2).
    + apply (grows_weaken is_listener_event); [intros [] H; simpl in *; tauto |].
      apply setState_trace.
    + apply (grows_weaken (fun e => not_onChange e /\ is_local_event e)); [tauto |].
      unfold w2, exec. apply when_preserves; [typeclasses eauto |].
      apply broadcastState_trace.
Qed.

(** [set] calls [onChange] once, with the committed value and the value
    read before the update, after the commit. *)
Lemma set_calls_onChange_once p r v cb w :
  Zustand.eval_partial p (state (store w)) = Ok v ->
  listeners_return w ->
  can_hash w (Zustand.next_state (replace_arg r) (state (store w)) v) ->
  onChange (options (this w)) = Some cb ->
  let new := Zustand.next_state (replace_arg r) (state (store w)) v in
  onChange_calls (trace (exec (Echo.set p r) w))
  = onChange_calls (trace w) ++ [(new, state (store w), new)].
Proof.
  intros Hv Hq Hh Hcb new. unfold exec.
  rewrite (set_normal _ _ _ _ Hv Hq Hh), Hcb.
  destruct (set_before_onChange p r v w Hv) as [S2 G2].
  unfold call_onChange.
  match goal with
  | |- context [if ?b then _ else _] => destruct b
  end; simpl; rewrite onChange_calls_app, (grows_onChange_calls _ _ G2), S2;
    reflexivity.
Qed.


Lemma reset_normal w :
  listeners_return w ->
  let dv := defaultValue (this w) in
  let w1 := exec (Zustand.setState (PValue dv) (Some true)) w in
  Echo.reset w =
  match onChange (options (this w)) with
  | Some f => call_onChange f dv (state (store w)) w1
  | None => (Ok tt, w1)
  end.
Proof.
  intros Hq. cbv zeta. unfold exec, Echo.reset, Echo.current, Zustand.getState.
  rewrite !bind_gets.
  rewrite (bind_ok _ _ _ tt
             (setState_ok (PValue (defaultValue (this w))) (Some true) _ w eq_refl Hq)).
  set (w1 := snd (Zustand.setState (PValue (defaultValue (this w))) (Some true) w)).
  rewrite bind_gets.
  assert (T1 : this w1 = this w) by apply (setState_this _ _ w).
  rewrite T1. destruct (onChange (options (this w))); reflexivity.
Qed.

Lemma reset_state w :
  state (store (exec Echo.reset w)) = defaultValue (this w).
Proof.
  unfold exec, Echo.reset, Echo.current, Zustand.getState. rewrite !bind_gets.
  apply bind_post.
  - apply (setState_state (PValue (defaultValue (this w))) (Some true) _ w eq_refl).
  - intros [] w1 H1.
    assert (F : preserves (same (fun w => state (store w)))
      (cb <- gets (fun w => onChange (options (this w))) ;;
       match cb with
       | Some f => call_onChange f (defaultValue (this w)) (state (store w))
       | None => ret tt
       end)) by frame_with atom_same.
    etransitivity; [apply F | exact H1].
Qed.

(** [reset] calls [onChange] once, with the default value and the value
    read before, after the commit. *)
Lemma reset_calls_onChange_once cb w :
  listeners_return w ->
  onChange (options (this w)) = Some cb ->
  onChange_calls (trace (exec Echo.reset w))
  = onChange_calls (trace w)
    ++ [(defaultValue (this w), state (store w), defaultValue (this w))].
Proof.
  intros Hq Hcb. unfold exec. rewrite (reset_normal _ Hq), Hcb.
  set (w1 := exec (Zustand.setState (PValue (defaultValue (this w))) (Some true)) w).
  assert (S1 : state (store w1) = defaultValue (this w))
    by apply (setState_state (PValue (defaultValue (this w))) (Some true) _ w eq_refl).
  assert (G1 : grows not_onChange w w1).
  { apply (grows_weaken is_listener_event); [intros [] H; simpl in *; tauto |].
    apply setState_trace. }
  unfold call_onChange.
  match goal with
  | |- context [if ?b then _ else _] => destruct b
  end; simpl; rewrite onChange_calls_app, (grows_onChange_calls _ _ G1), S1;
    reflexivity.
Qed.


Lemma delete_trace key : preserves (grows is_listener_event) (Echo.delete key).
Proof. frame_with atom_grows. Qed.

Lemma delete_state key w :
  state (store (exec (Echo.delete key) w))
  = JObj (remove key (own_props (spread (state (store w))))).
Proof.
  unfold Echo.delete.
  rewrite (setState_state _ (Some true)
             (JObj (remove key (own_props (spread (state (store w))))))); reflexivity.
Qed.

(** ** Objects: reading what Object.assign wrote *)

Lemma lookup_app k l1 l2 :
  lookup k (l1 ++ l2) =
  match lookup k l1 with Some x => Some x | None => lookup k l2 end.
Proof.
  induction l1 as [| [k' y] l1 IH]; simpl; [reflexivity |].
  destruct (String.eqb k k'); auto.
Qed.

Lemma lookup_None k l : lookup k l = None <-> ~ In k (keys l).
Proof.
  induction l as [| [k' y] l IH]; simpl; [tauto |].
  destruct (String.eqb_spec k k') as [-> | Hne].
  - split; [discriminate | intro H; exfalso; apply H; auto].
  - rewrite IH. split; [intros H [E | I]; [congruence | tauto] | tauto].
Qed.

Lemma lookup_put_same k x l : lookup k (put k x l) = Some x.
Proof.
  induction l as [| [k' y] l IH]; simpl.
  - rewrite String.eqb_refl. reflexivity.
  - destruct (String.eqb k k') eqn:E; simpl; rewrite ?String.eqb_refl, ?E; auto.
Qed.

Lemma lookup_put_other k k' x l : k <> k' -> lookup k (put k' x l) = lookup k l.
Proof.
  intro Hne. induction l as [| [k0 y] l IH]; simpl.
  - destruct (String.eqb_spec k k'); [contradiction | reflexivity].
  - destruct (String.eqb_spec k' k0) as [-> | Hne0]; simpl.
    + destruct (String.eqb_spec k k0); [contradiction | reflexivity].
    + destruct (String.eqb k k0); auto.
Qed.

Lemma lookup_assign_into k src : forall target,
  lookup k (assign_into target src) =
  match lookup k (rev src) with Some x => Some x | None => lookup k target end.
Proof.
  unfold assign_into.
  induction src as [| [k' x] src IH]; intro target; simpl; [reflexivity |].
  rewrite IH, lookup_app. destruct (lookup k (rev src)); [reflexivity |].
  simpl. destruct (String.eqb_spec k k') as [-> | Hne].
  - apply lookup_put_same.
  - apply lookup_put_other. exact Hne.
Qed.

Lemma keys_put k x l :
  keys (put k x l) = if existsb (String.eqb k) (keys l) then keys l else keys l ++ [k].
Proof.
  induction l as [| [k' y] l IH]; simpl; [reflexivity |].
  destruct (String.eqb k k') eqn:E; simpl.
  - apply String.eqb_eq in E. subst. reflexivity.
  - rewrite IH. destruct (existsb (String.eqb k) (keys l)); reflexivity.
Qed.

Lemma NoDup_put k x l : NoDup (keys l) -> NoDup (keys (put k x l)).
Proof.
  intro H. rewrite keys_put.
  destruct (existsb (String.eqb k) (keys l)) eqn:E; [exact H |].
  apply NoDup_app; [exact H | repeat constructor; simpl; tauto |].
  intros a Ha [Ea | []]. subst a.
  assert (existsb (String.eqb k) (keys l) = true); [| congruence].
  apply existsb_exists. exists k. split; [exact Ha | apply String.eqb_refl].
Qed.

Lemma NoDup_assign_into src : forall target,
  NoDup (keys target) -> NoDup (keys (assign_into target src)).
Proof.
  unfold assign_into. induction src as [| [k x] src IH]; intros target H; simpl; auto.
  apply IH. apply NoDup_put. exact H.
Qed.

Lemma lookup_rev k l : NoDup (keys l) -> lookup k (rev l) = lookup k l.
Proof.
  induction l as [| [k' y] l IH]; intro H; simpl; [reflexivity |].
  inversion H as [| ? ? Hn Hd]; subst.
  rewrite lookup_app, (IH Hd). simpl.
  destruct (String.eqb_spec k k') as [-> | Hne].
  - apply lookup_None in Hn. rewrite Hn. reflexivity.
  - destruct (lookup k l); reflexivity.
Qed.

Lemma get_prop_Object_assign k a b :
  get_prop k (Object_assign a b) =
  match get_prop k b with Some x => Some x | None => get_prop k a end.
Proof.
  unfold get_prop, Object_assign. simpl.
  rewrite lookup_rev.
  - rewrite !lookup_assign_into. simpl.
    destruct (lookup k (rev (own_props b))); [reflexivity |].
    destruct (lookup k (rev (own_props a))); reflexivity.
  - apply NoDup_assign_into, NoDup_assign_into. constructor.
Qed.

(** The hash of [{count: 7}] is its JSON text. *)
Example stringify_count :
  JSON_stringify (Demo.count 7)
  = Ok (HString ("{" ++ dquote ++ "count" ++ dquote ++ ":7}")%string).
Proof. reflexivity. Qed.

(** A property without JSON text is left out, a BigInt is refused. *)
Example stringify_edge_cases :
  JSON_stringify (JObj [("x", JNum 1); ("y", JUndefined)])
  = JSON_stringify (JObj [("x", JNum 1)])
  /\ JSON_stringify (JObj [("x", JObj [("n", JBigInt 1)])]) = Thrown TypeError
  /\ JSON_stringify JUndefined = Ok HUndefined.
Proof. repeat split; reflexivity. Qed.

(** ** Frames of the public methods *)

Lemma set_trace p r : preserves (grows is_local_event) (Echo.set p r).
Proof. frame_with atom_grows. Qed.

Lemma set_backend p r : preserves (same (fun w => backend (env w))) (Echo.set p r).
Proof. frame_with atom_same. Qed.






Lemma local_not_post e : is_local_event e -> not_post e.
Proof. destruct e; simpl; tauto. Qed.

Lemma callback_not_post e : is_callback_event e -> not_post e.
Proof. destruct e; unfold is_callback_event; simpl; tauto. Qed.

Lemma callback_local e : is_callback_event e -> is_local_event e.
Proof. destruct e; unfold is_callback_event; simpl; tauto. Qed.



Lemma listener_not_onChange e : is_listener_event e -> not_onChange e.
Proof. destruct e; simpl; tauto. Qed.

(** ** The storage adapter and the event loop *)

Lemma pure_preserves {A} R `{Preorder R} (c : M A) :
  (forall w, snd (c w) = w) -> preserves R c.
Proof. intros Hc w. rewrite Hc. apply pre_refl. Qed.

Lemma waitForDB_pure w : snd (IndexedDBStorage.waitForDB w) = w.
Proof. unfold IndexedDBStorage.waitForDB. destruct (be_open_fails _); reflexivity. Qed.

Lemma getItem_pure w : snd (IndexedDBStorage.getItem w) = w.
Proof.
  unfold IndexedDBStorage.getItem, IndexedDBStorage.waitForDB, bind.
  destruct (be_open_fails _); simpl; [reflexivity |].
  destruct (be_read_fails _); reflexivity.
Qed.

Lemma setItem_cases v w :
  snd (IndexedDBStorage.setItem v w) = w
  \/ exists ok b, snd (IndexedDBStorage.setItem v w)
                  = emit (EvWrite v ok) (upd_env (with_backend b) w).
Proof.
  unfold IndexedDBStorage.setItem, IndexedDBStorage.waitForDB, bind.
  destruct (be_open_fails _); simpl; [left; reflexivity |].
  right. destruct (be_write_script _) as [| [] rest]; simpl; eauto.
Qed.

Lemma setItem_grows P v :
  (forall ok, P (EvWrite v ok)) -> preserves (grows P) (IndexedDBStorage.setItem v).
Proof.
  intros HP w. destruct (setItem_cases v w) as [-> | [ok [b ->]]].
  - apply pre_refl.
  - exists [EvWrite v ok]. split; [reflexivity | auto].
Qed.

Lemma setItem_no_new p v : preserves (no_new p) (IndexedDBStorage.setItem v).
Proof.
  intros w. destruct (setItem_cases v w) as [-> | [ok [b ->]]].
  - apply pre_refl.
  - intros t Hin _. exact Hin.
Qed.





Lemma find_timer_In id w t : Echo.find_timer id w = Some t -> In t (timers (env w)).
Proof. unfold Echo.find_timer. intro H. apply find_some in H. tauto. Qed.




(** ** The sync channel *)

Lemma Hash_eqb_refl h : Hash_eqb h h = true.
Proof. destruct h; simpl; [reflexivity | apply String.eqb_refl]. Qed.

Lemma broadcastState_skips st h w :
  JSON_stringify st = Ok h ->
  lastSyncHash (this w) = Some h ->
  Echo.broadcastState st w = (Ok tt, w).
Proof.
  intros Hh Hl.
  unfold Echo.broadcastState, Echo.getStateHash, bind, gets, lift.
  destruct (negb (is_some (channel (this w))) || negb (sync_opt (options (this w))));
    [reflexivity |].
  rewrite Hh, Hl. simpl. rewrite Hash_eqb_refl. reflexivity.
Qed.

Lemma broadcast_timer_hash st h w :
  lastSyncHash (this (exec (Echo.broadcast_timer st h) w)) = Some h.
Proof.
  unfold exec, Echo.broadcast_timer, bind, gets, modify.
  destruct (channel (this w)); reflexivity.
Qed.

Lemma apply_inbound_unfold data h w :
  Echo.apply_inbound data h w =
  bind (Zustand.setState (PValue (member "state" data)) (Some true))
    (fun _ =>
       cb <- gets (fun w => onChange (options (this w))) ;;
       match cb with
       | Some f =>
           oldState <- Echo.current ;;
           call_onChange f (member "state" data) oldState
       | None => ret tt
       end)
    (upd_this (with_lastSyncHash (Some h)) w).
Proof. reflexivity. Qed.

Lemma apply_inbound_this data h :
  preserves (same (fun w => (channel (this w), options (this w),
                             defaultValue (this w), syncTimeout (this w))))
            (Echo.apply_inbound data h).
Proof. frame_with atom_same. Qed.

Lemma apply_inbound_commits data h w :
  let w' := exec (Echo.apply_inbound data h) w in
  lastSyncHash (this w') = Some h /\ state (store w') = member "state" data.
Proof.
  cbv zeta. unfold exec. rewrite apply_inbound_unfold.
  set (w0 := upd_this (with_lastSyncHash (Some h)) w).
  apply (bind_post _ _
    (fun w' => lastSyncHash (this w') = Some h /\ state (store w') = member "state" data)).
  - split.
    + rewrite (setState_this _ _ w0). reflexivity.
    + apply (setState_state (PValue (member "state" data)) (Some true) _ w0 eq_refl).
  - intros [] w1 [H1 H2].
    assert (F : preserves (same (fun w => (lastSyncHash (this w), state (store w))))
      (cb <- gets (fun w => onChange (options (this w))) ;;
       match cb with
       | Some f =>
           oldState <- Echo.current ;;
           call_onChange f (member "state" data) oldState
       | None => ret tt
       end)) by frame_with atom_same.
    specialize (F w1). unfold same in F. injection F as F1 F2.
    rewrite F1, F2. auto.
Qed.

Lemma try_catch_handler_ok (c : M unit) w :
  fst (try_catch c Echo.handler_failed w) = Ok tt.
Proof.
  unfold try_catch, Echo.handler_failed, modify.
  destruct (c w) as [[[] | e] w1]; reflexivity.
Qed.

(** What the handler does with a message it accepts, in a store that is
    not backed by IndexedDB. *)
Lemma onmessage_applies data h w :
  Echo.validateStateUpdate data = Ok true ->
  JSON_stringify (member "state" data) = Ok h ->
  hash_is h (lastSyncHash (this w)) = false ->
  Echo.is_indexedDB (options (this w)) = false ->
  Echo.onmessage data w = Echo.onmessage_resume data h w.
Proof.
  intros Hv Hh Hl Hi.
  unfold Echo.onmessage, Echo.onmessage_resume, Echo.onmessage_body,
    Echo.onmessage_resume_body, async, try_catch, Echo.getStateHash, lift.
  unfold bind at 1. rewrite Hv.
  unfold bind at 1. rewrite Hh. rewrite bind_gets, Hl, Hi. reflexivity.
Qed.

Lemma onmessage_ignores data w :
  Echo.validateStateUpdate data = Ok false -> Echo.onmessage data w = (Ok tt, w).
Proof.
  intro Hv. unfold Echo.onmessage, Echo.onmessage_body, async, try_catch, lift.
  unfold bind at 1. rewrite Hv. reflexivity.
Qed.

(** A message on which the check itself throws: the handler logs the
    failure and that is all. *)
Lemma onmessage_check_throws data e w :
  Echo.validateStateUpdate data = Thrown e ->
  Echo.onmessage data w = (Ok tt, emit (EvError MsgHandleMessageFailed) w).
Proof.
  intro Hv. unfold Echo.onmessage, Echo.onmessage_body, async, try_catch, lift.
  unfold bind at 1. rewrite Hv. reflexivity.
Qed.

Lemma onmessage_trace data : preserves (grows not_post) (Echo.onmessage data).
Proof. frame_with atom_grows. Qed.

Lemma onmessage_no_sync_task data :
  preserves (no_new is_sync_task) (Echo.onmessage data).
Proof. frame_with atom_no_new. Qed.

Lemma onmessage_resume_trace data h :
  preserves (grows not_post) (Echo.onmessage_resume data h).
Proof. frame_with atom_grows. Qed.

Lemma onmessage_resume_no_sync_task data h :
  preserves (no_new is_sync_task) (Echo.onmessage_resume data h).
Proof. frame_with atom_no_new. Qed.

Lemma onmessage_resume_commits data h w :
  let w' := exec (Echo.onmessage_resume data h) w in
  lastSyncHash (this w') = Some h /\ state (store w') = member "state" data.
Proof.
  cbv zeta. unfold exec, Echo.onmessage_resume, Echo.onmessage_resume_body, async, try_catch.
  pose proof (apply_inbound_commits data h w) as H. cbv zeta in H. unfold exec in H.
  destruct (Echo.apply_inbound data h w) as [[[] | e] w1]; simpl in *; exact H.
Qed.

Lemma validateStateUpdate_shape data :
  Echo.validateStateUpdate data = Ok true <-> Spec.presence_shape data.
Proof.
  unfold Echo.validateStateUpdate, Spec.presence_shape, call_hasOwnProperty,
    hasOwnProperty, member, strict_eq_str.
  destruct data; simpl; try (split; [discriminate | intros [H _]; discriminate H]).
  - destruct b; simpl; (split; [discriminate | intros [H _]; discriminate H]).
  - destruct (negb (z =? 0)%Z); simpl; (split; [discriminate | intros [H _]; discriminate H]).
  - destruct (negb (s =? EmptyString)); simpl; (split; [discriminate | intros [H _]; discriminate H]).
  - destruct (negb (z =? 0)%Z); simpl; (split; [discriminate | intros [H _]; discriminate H]).
  - destruct (get_prop "type" (JObj fields)) as [[] |] eqn:Et; simpl;
      try (split; [discriminate | intros [_ [H _]]; discriminate H]).
    destruct (String.eqb_spec s "state-update") as [-> | Hne]; simpl.
    + destruct (get_prop "hasOwnProperty" (JObj fields)),
        (get_prop "state" (JObj fields)), (get_prop "timestamp" (JObj fields));
        simpl; split; try discriminate;
        try (intros [_ [_ [H1 [H2 H3]]]]; congruence);
        intros _; repeat split; congruence.
    + split; [discriminate | intros [_ [H _]]; congruence].
Qed.

Lemma validateStateUpdate_throws data :
  (exists e, Echo.validateStateUpdate data = Thrown e) <-> Spec.shadowed_shape data.
Proof.
  unfold Echo.validateStateUpdate, Spec.shadowed_shape, call_hasOwnProperty,
    hasOwnProperty, member, strict_eq_str.
  destruct data; simpl;
    try (split; [intros [e H]; discriminate H | intros [H _]; discriminate H]).
  - destruct b; simpl;
      (split; [intros [e H]; discriminate H | intros [H _]; discriminate H]).
  - destruct (negb (z =? 0)%Z); simpl;
      (split; [intros [e H]; discriminate H | intros [H _]; discriminate H]).
  - destruct (negb (s =? EmptyString)); simpl;
      (split; [intros [e H]; discriminate H | intros [H _]; discriminate H]).
  - destruct (negb (z =? 0)%Z); simpl;
      (split; [intros [e H]; discriminate H | intros [H _]; discriminate H]).
  - destruct (get_prop "type" (JObj fields)) as [[] |] eqn:Et; simpl;
      try (split; [intros [e H]; discriminate H | intros [_ [H _]]; discriminate H]).
    destruct (String.eqb_spec s "state-update") as [-> | Hne]; simpl.
    + destruct (get_prop "hasOwnProperty" (JObj fields)),
        (get_prop "state" (JObj fields)), (get_prop "timestamp" (JObj fields));
        simpl; split;
        try (intros [e H]; discriminate H);
        try (intros [_ [_ H]]; congruence);
        intros _; repeat split; try congruence; try discriminate;
        exists TypeError; reflexivity.
    + split; [intros [e H]; discriminate H | intros [_ [H _]]; congruence].
Qed.


Lemma sync_true_enabled c w :
  channel (this w) = Some c -> Echo.sync true w = (Ok tt, w).
Proof. intro Hc. unfold Echo.sync. rewrite bind_gets, Hc. reflexivity. Qed.

Lemma sync_false_disabled w :
  channel (this w) = None -> Echo.sync false w = (Ok tt, w).
Proof. intro Hc. unfold Echo.sync. rewrite bind_gets, Hc. reflexivity. Qed.

Lemma sync_false_run c w :
  channel (this w) = Some c ->
  Echo.sync false w =
  (Ok tt,
   upd_this (with_lastSyncHash None)
     (upd_this (with_channel None) (emit (EvClose c) w))).
Proof. intro Hc. unfold Echo.sync. rewrite bind_gets, Hc. reflexivity. Qed.

Lemma sync_true_closed w :
  channel (this w) = None -> Echo.sync true w = Echo.initializeSync w.
Proof. intro Hc. unfold Echo.sync. rewrite bind_gets, Hc. reflexivity. Qed.

Lemma initializeSync_opens w :
  Echo.has_name (options (this w)) = true ->
  has_BroadcastChannel (env w) = true ->
  Echo.is_indexedDB (options (this w)) = false ->
  Echo.initializeSync w =
  (Ok tt,
   snd (try_catch
          (Echo.broadcastState (state (store w)))
          (fun _ =>
             modify (emit (EvError MsgInitSyncFailed)) ;;
             modify (upd_this (with_channel None)))
          (upd_this (with_channel (Some (next_channel (env w))))
             (upd_env (with_next_channel (S (next_channel (env w)))) w)))).
Proof.
  intros Hn Hb Hi. unfold Echo.initializeSync, async.
  rewrite !bind_gets, Hn, Hb, Hi. cbn [negb].
  unfold Echo.initializeSync_resume, async, try_catch, Echo.new_BroadcastChannel.
  unfold bind at 1. unfold bind at 1, modify at 1.
  unfold Echo.current, Zustand.getState. rewrite bind_gets. reflexivity.
Qed.

Lemma initializeSync_resume_skips h w :
  sync_opt (options (this w)) = true ->
  JSON_stringify (state (store w)) = Ok h ->
  lastSyncHash (this w) = Some h ->
  Echo.initializeSync_resume w
  = (Ok tt,
     upd_this (with_channel (Some (next_channel (env w))))
       (upd_env (with_next_channel (S (next_channel (env w)))) w)).
Proof.
  intros Hs Hh Hl.
  unfold Echo.initializeSync_resume, async, try_catch, Echo.new_BroadcastChannel.
  unfold bind at 1. unfold bind at 1, modify at 1.
  unfold Echo.current, Zustand.getState. rewrite bind_gets.
  rewrite (broadcastState_skips _ h); [reflexivity | exact Hh | exact Hl].
Qed.

(** A broadcast timer that expires when no channel is open posts nothing
    and stores its hash. *)
Lemma fire_broadcast_closed t st h w :
  Echo.find_timer (t_id t) w = Some t ->
  t_task t = TBroadcast st h ->
  channel (this w) = None ->
  Echo.fire (t_id t) w
  = (Ok tt,
     upd_this (with_lastSyncHash (Some h))
       (upd_env (fun e => with_now (Z.max (now e) (t_due t)) e)
          (upd_env (fun e =>
             with_timers (filter (fun t' => negb (Nat.eqb (t_id t') (t_id t))) (timers e))
                         (next_timer e) e) w))).
Proof.
  intros Ef Et Hc. unfold Echo.fire. rewrite Ef, Et.
  unfold clearTimeout. cbn [Echo.run_task].
  unfold async, Echo.broadcast_timer, bind, modify, gets. cbn. rewrite Hc. reflexivity.
Qed.

Lemma initializeSync_lastSyncHash :
  preserves (same (fun w => lastSyncHash (this w))) Echo.initializeSync.
Proof.
  unfold Echo.initializeSync, Echo.initializeSync_resume. frame_with atom_same.
Qed.


Lemma apply_inbound_normal data h w :
  listeners_return w ->
  let s := member "state" data in
  let w1 := exec (Zustand.setState (PValue s) (Some true))
                 (upd_this (with_lastSyncHash (Some h)) w) in
  Echo.apply_inbound data h w =
  match onChange (options (this w)) with
  | Some f => call_onChange f s s w1
  | None => (Ok tt, w1)
  end.
Proof.
  intros Hq. cbv zeta. unfold exec. rewrite apply_inbound_unfold.
  set (w0 := upd_this (with_lastSyncHash (Some h)) w).
  assert (Hq0 : listeners_return w0) by exact Hq.
  rewrite (bind_ok _ _ _ tt
             (setState_ok (PValue (member "state" data)) (Some true) _ w0 eq_refl Hq0)).
  set (w1 := snd (Zustand.setState (PValue (member "state" data)) (Some true) w0)).
  assert (T1 : this w1 = this w0) by apply (setState_this _ _ w0).
  assert (S1 : state (store w1) = member "state" data)
    by apply (setState_state (PValue (member "state" data)) (Some true) _ w0 eq_refl).
  rewrite bind_gets, T1. simpl.
  destruct (onChange (options (this w))); [| reflexivity].
  unfold Echo.current, Zustand.getState. rewrite bind_gets, S1. reflexivity.
Qed.

Lemma errors_not_onChange (c : M unit) w :
  onChange_calls (trace (snd (try_catch c Echo.handler_failed w)))
  = onChange_calls (trace (snd (c w))).
Proof.
  unfold try_catch, Echo.handler_failed, modify.
  destruct (c w) as [[[] | e] w1]; simpl; [reflexivity |].
  rewrite onChange_calls_app. simpl. apply app_nil_r.
Qed.



(** ** The persistence middleware *)

Lemma errors_app a b : errors (a ++ b) = errors a ++ errors b.
Proof. induction a as [| [] a IH]; simpl; rewrite ?IH; reflexivity. Qed.

Lemma setItem_fails v rest w :
  be_open_fails (backend (env w)) = false ->
  be_write_script (backend (env w)) = true :: rest ->
  IndexedDBStorage.setItem v w =
  (Thrown StorageError,
   emit (EvWrite v false)
     (upd_env (with_backend
        (mkBackend (be_record (backend (env w))) false
           (be_read_fails (backend (env w))) rest)) w)).
Proof.
  intros Ho Hs.
  unfold IndexedDBStorage.setItem, IndexedDBStorage.waitForDB, bind.
  rewrite Ho, Hs, Ho. reflexivity.
Qed.

Lemma setItem_succeeds v w :
  be_open_fails (backend (env w)) = false ->
  (be_write_script (backend (env w)) = []
   \/ exists rest, be_write_script (backend (env w)) = false :: rest) ->
  IndexedDBStorage.setItem v w =
  (Ok tt,
   emit (EvWrite v true)
     (upd_env (with_backend
        (mkBackend (Some v) false (be_read_fails (backend (env w)))
           (tl (be_write_script (backend (env w)))))) w)).
Proof.
  intros Ho Hs.
  unfold IndexedDBStorage.setItem, IndexedDBStorage.waitForDB, bind.
  rewrite Ho. destruct Hs as [Hs | [rest Hs]]; rewrite Hs, Ho; reflexivity.
Qed.

Lemma saveState_run_failure st h rest w :
  JSON_stringify st = Ok h ->
  hash_is h (lastSavedState (mw w)) = false ->
  isHydrating (mw w) = false ->
  be_open_fails (backend (env w)) = false ->
  be_write_script (backend (env w)) = true :: rest ->
  IndexedDBMiddleware.saveState st w =
  (Ok tt,
   upd_mw (with_lastSavedState None)
     (emit (EvError MsgSaveFailed)
        (emit (EvWrite st false)
           (upd_env (with_backend
              (mkBackend (be_record (backend (env w))) false
                 (be_read_fails (backend (env w))) rest))
              (upd_mw (with_lastSavedState (Some h)) w))))).
Proof.
  intros Hh Hl Hy Ho Hs.
  unfold IndexedDBMiddleware.saveState, async, lift.
  unfold bind at 1. rewrite Hh. rewrite bind_gets, Hl, Hy. cbn [orb].
  unfold bind at 1, modify at 1, try_catch.
  rewrite (setItem_fails st rest); [reflexivity | exact Ho | exact Hs].
Qed.

Lemma saveState_failure_is_final st h rest w :
  JSON_stringify st = Ok h ->
  hash_is h (lastSavedState (mw w)) = false ->
  isHydrating (mw w) = false ->
  be_open_fails (backend (env w)) = false ->
  be_write_script (backend (env w)) = true :: rest ->
  let w' := exec (IndexedDBMiddleware.saveState st) w in
  writes (trace w') = writes (trace w) ++ [(st, false)]
  /\ errors (trace w') = errors (trace w) ++ [MsgSaveFailed]
  /\ timers (env w') = timers (env w)
  /\ lastSavedState (mw w') = None
  /\ be_record (backend (env w')) = be_record (backend (env w))
  /\ be_write_script (backend (env w')) = rest.
Proof.
  intros Hh Hl Hy Ho Hs. cbv zeta. unfold exec.
  rewrite (saveState_run_failure _ _ _ _ Hh Hl Hy Ho Hs). cbn.
  rewrite !writes_app, !errors_app. cbn. rewrite !app_nil_r.
  repeat split.
Qed.

(* ===================================================================== *)
(** * The claims of the specification *)
(* ===================================================================== *)

(** ** State container: onChange, read-your-write, the hot path *)

(** C1.  The specification asks every [set], [delete] and [reset] to call
    [onChange] exactly once.  [delete] commits the state without the key
    and calls [onChange] not at all: the calls of [onChange] in the trace
    are the same before and after, in every store and for every key.
    ([set] and [reset] do call it once: [set_calls_onChange_once],
    [reset_calls_onChange_once].) *)
Theorem delete_never_calls_onChange (w : World) (key : string) :
  let w' := exec (Echo.delete key) w in
  state (store w') = JObj (remove key (own_props (spread (state (store w)))))
  /\ onChange_calls (trace w') = onChange_calls (trace w).
Proof.
  split.
  - apply delete_state.
  - apply grows_onChange_calls.
    apply (grows_weaken is_listener_event); [apply listener_not_onChange |].
    apply delete_trace.
Qed.

(** [delete("a")] on a store [{a: 1, b: 2}] with an [onChange]: the state
    becomes [{b: 2}], [onChange] has not been called; [set] and [reset] on
    the same store each call it once. *)
Example delete_on_ab_store :
  state (store (exec (Echo.delete "a") Demo.ab_store)) = JObj [("b", JNum 2)]
  /\ onChange_calls (trace (exec (Echo.delete "a") Demo.ab_store)) = []
  /\ onChange_calls (trace (exec (Echo.set (PValue (JObj [("a", JNum 5)])) false)
                                  Demo.ab_store))
     = [(JObj [("a", JNum 5); ("b", JNum 2)], Demo.ab,
         JObj [("a", JNum 5); ("b", JNum 2)])]
  /\ onChange_calls (trace (exec Echo.reset
                             (exec (Echo.delete "a") Demo.ab_store)))
     = [(Demo.ab, JObj [("b", JNum 2)], Demo.ab)].
Proof. repeat split; reflexivity. Qed.

(** C2.  Read-your-write: when the updater yields the object [v], then
    right after [set] the value [current] returns is [v] itself with
    [replace], and [v] shallow-merged into the previous state without;
    [current] changes nothing, and [set] has sent no request to the
    storage backend and posted no message. *)
Theorem set_read_your_write (w : World) (partial : Partial) (replace : bool) (v : JVal) :
  Zustand.eval_partial partial (state (store w)) = Ok v ->
  is_object v = true ->
  let w' := exec (Echo.set partial replace) w in
  Echo.current w'
  = (Ok (if replace then v else Object_assign (state (store w)) v), w')
  /\ (replace = false -> Spec.merged (state (store w)) v (state (store w')))
  /\ (replace = true -> state (store w') = v)
  /\ writes (trace w') = writes (trace w)
  /\ posts (trace w') = posts (trace w)
  /\ backend (env w') = backend (env w).
Proof.
  intros Hv Hobj w'.
  assert (S : state (store w')
              = if replace then v else Object_assign (state (store w)) v).
  { unfold w'. rewrite (set_state _ _ _ _ Hv).
    unfold Zustand.next_state, replace_arg. destruct replace; [reflexivity |].
    rewrite Hobj. reflexivity. }
  assert (G : grows is_local_event w w') by apply set_trace.
  split; [| split; [| split; [| split; [| split]]]].
  - unfold Echo.current, Zustand.getState, gets. rewrite S. reflexivity.
  - intros ->. rewrite S. split; [reflexivity |].
    intro k. apply get_prop_Object_assign.
  - intros ->. exact S.
  - apply grows_writes, G.
  - apply grows_posts. apply (grows_weaken is_local_event); [apply local_not_post | exact G].
  - apply (set_backend partial replace w).
Qed.

Lemma set_read_your_write_witness :
  Spec.merged Demo.ab (JObj [("a", JNum 5); ("c", JNull)])
    (state (store (exec (Echo.set (PValue (JObj [("a", JNum 5); ("c", JNull)])) false)
                        Demo.ab_store)))
  /\ state (store (exec (Echo.set (PValue (JObj [("a", JNum 5); ("c", JNull)])) false)
                        Demo.ab_store))
     = JObj [("a", JNum 5); ("b", JNum 2); ("c", JNull)].
Proof.
  split.
  - apply (set_read_your_write Demo.ab_store
             (PValue (JObj [("a", JNum 5); ("c", JNull)])) false
             (JObj [("a", JNum 5); ("c", JNull)])); reflexivity.
  - reflexivity.
Defined.




(** With a channel open, a state that has no JSON text makes [set]
    throw as well: [getStateHash] is called before the [try] of
    [broadcastState]. *)
Example set_throws_on_state_without_json :
  outcome (Echo.set (PValue (JObj [("n", JBigInt 1)])) false) Demo.synced_db
  = Thrown TypeError.
Proof. vm_compute. reflexivity. Qed.

(** ** Sync channel: loop suppression, validation, toggling *)

(** C5.  Loop suppression.  [broadcastState] does nothing at all when the
    hash of the value it is asked to send is the stored last hash; the
    stored hash is set when the broadcast timer sends and when an inbound
    message is applied; and the handler of inbound messages posts nothing
    and schedules no broadcast, and once it has applied a message a
    broadcast of the state it left is skipped. *)
Theorem broadcast_loop_suppression (w : World) :
  (forall st h,
      JSON_stringify st = Ok h ->
      lastSyncHash (this w) = Some h ->
      Echo.broadcastState st w = (Ok tt, w))
  /\ (forall st h, lastSyncHash (this (exec (Echo.broadcast_timer st h) w)) = Some h)
  /\ (forall data h,
        let w' := exec (Echo.onmessage_resume data h) w in
        lastSyncHash (this w') = Some h
        /\ state (store w') = member "state" data
        /\ posts (trace w') = posts (trace w)
        /\ no_new is_sync_task w w'
        /\ (JSON_stringify (member "state" data) = Ok h ->
            Echo.broadcastState (state (store w')) w' = (Ok tt, w')))
  /\ (forall data,
        let w' := exec (Echo.onmessage data) w in
        posts (trace w') = posts (trace w) /\ no_new is_sync_task w w')
  /\ (forall data h,
        Echo.validateStateUpdate data = Ok true ->
        JSON_stringify (member "state" data) = Ok h ->
        hash_is h (lastSyncHash (this w)) = false ->
        Echo.is_indexedDB (options (this w)) = false ->
        Echo.onmessage data w = Echo.onmessage_resume data h w).
Proof.
  split; [| split; [| split; [| split]]].
  - intros st h. apply broadcastState_skips.
  - intros st h. apply broadcast_timer_hash.
  - intros data h w'.
    destruct (onmessage_resume_commits data h w) as [Hl Hs]. fold w' in Hl, Hs.
    split; [exact Hl | split; [exact Hs | split; [| split]]].
    + apply grows_posts, onmessage_resume_trace.
    + apply onmessage_resume_no_sync_task.
    + intro Hh. apply (broadcastState_skips _ h); [rewrite Hs; exact Hh | exact Hl].
  - intros data w'. split.
    + apply grows_posts, onmessage_trace.
    + apply onmessage_no_sync_task.
  - intros data h. apply onmessage_applies.
Qed.


Lemma broadcast_loop_suppression_witness :
  let w' := exec (Echo.onmessage Demo.good_message) Demo.synced in
  state (store w') = Demo.count 7
  /\ Echo.broadcastState (Demo.count 7) w' = (Ok tt, w')
  /\ posts (trace w') = posts (trace Demo.synced).
Proof.
  destruct (broadcast_loop_suppression Demo.synced) as [_ [_ [Hr [Hm Ha]]]].
  cbv zeta.
  assert (E : Echo.onmessage Demo.good_message Demo.synced
              = Echo.onmessage_resume Demo.good_message
                  (Demo.hash_of (Demo.count 7))
                  Demo.synced)
    by (apply Ha; reflexivity).
  unfold exec. rewrite E.
  destruct (Hr Demo.good_message
              (Demo.hash_of (Demo.count 7)))
    as [_ [Hs [Hp [_ Hb]]]].
  split; [exact Hs | split; [| exact Hp]].
  unfold exec in Hs, Hb. rewrite Hs in Hb. apply Hb. reflexivity.
Defined.

(** C7, as the code has it.  [validateStateUpdate] accepts exactly the
    objects whose [type] is "state-update", that have own properties
    [state] and [timestamp], whatever their values, and that have no own
    property named "hasOwnProperty"; on an object whose [type] is
    "state-update" and that has such a property the check itself throws,
    and on every other value it answers no.  A message that is not
    accepted leaves the store, the instance, the middleware and the
    timers as they are: nothing happens, or the thrown check is logged.
    The handler never ends abruptly, neither at once nor when it resumes
    after its wait. *)
Theorem inbound_validation (w : World) (data : JVal) :
  (Echo.validateStateUpdate data = Ok true <-> Spec.presence_shape data)
  /\ ((exists e, Echo.validateStateUpdate data = Thrown e)
      <-> Spec.shadowed_shape data)
  /\ (Echo.validateStateUpdate data = Ok false -> Echo.onmessage data w = (Ok tt, w))
  /\ (Spec.shadowed_shape data ->
      Echo.onmessage data w = (Ok tt, emit (EvError MsgHandleMessageFailed) w))
  /\ (~ Spec.presence_shape data ->
      let w' := exec (Echo.onmessage data) w in
      store w' = store w /\ this w' = this w /\ mw w' = mw w /\ env w' = env w)
  /\ outcome (Echo.onmessage_body data) w = Ok tt
  /\ (forall h, outcome (Echo.onmessage_resume_body data h) w = Ok tt).
Proof.
  split; [apply validateStateUpdate_shape |
          split; [apply validateStateUpdate_throws |
                  split; [apply onmessage_ignores | split; [| split; [| split]]]]].
  - intro Hs. apply validateStateUpdate_throws in Hs. destruct Hs as [e He].
    apply (onmessage_check_throws data e w He).
  - intros Hn w'. unfold w', exec.
    destruct (Echo.validateStateUpdate data) as [[] | e] eqn:Ev.
    + exfalso. apply Hn, validateStateUpdate_shape, Ev.
    + rewrite (onmessage_ignores _ _ Ev). repeat split.
    + rewrite (onmessage_check_throws _ e _ Ev). repeat split.
  - apply try_catch_handler_ok.
  - intro h. apply try_catch_handler_ok.
Qed.

Lemma inbound_validation_witness :
  Echo.onmessage (JStr "hello") Demo.synced = (Ok tt, Demo.synced)
  /\ Echo.onmessage Demo.shadowed_message Demo.synced
     = (Ok tt, emit (EvError MsgHandleMessageFailed) Demo.synced)
  /\ state (store (exec (Echo.onmessage Demo.shadowed_message) Demo.synced))
     = Demo.count 0.
Proof.
  destruct (inbound_validation Demo.synced (JStr "hello")) as [_ [_ [Hi _]]].
  destruct (inbound_validation Demo.synced Demo.shadowed_message)
    as [_ [_ [_ [Ht [Hf _]]]]].
  split; [apply Hi; reflexivity | split].
  - apply Ht. repeat split; discriminate.
  - assert (Hn : ~ Spec.presence_shape Demo.shadowed_message).
    { intros [_ [_ [_ [_ H]]]]. discriminate H. }
    destruct (Hf Hn) as [Hs _]. cbv zeta in Hs. rewrite Hs. reflexivity.
Defined.

(** C7, as the specification states it, fails: a message whose timestamp
    is the string "soon" does not have the shape of the envelope, and the
    receiver applies it. *)
Lemma odd_message_is_applied :
  Spec.envelope_shape Demo.odd_message = false
  /\ state (store Demo.synced) = Demo.count 0
  /\ state (store (exec (Echo.onmessage Demo.odd_message) Demo.synced)) = Demo.count 7.
Proof. repeat split; reflexivity. Qed.

(** The toggle, as far as the specification is right about it.
    [sync(true)] with a channel open and [sync(false)] with none are
    no-ops; [sync(false)] twice is [sync(false)] once; [sync(false)] with
    a channel open closes it, forgets it and clears the last hash, and a
    [sync(true)] made at once starts with no last hash. *)
Lemma sync_toggle (w : World) :
  (forall c, channel (this w) = Some c -> Echo.sync true w = (Ok tt, w))
  /\ (channel (this w) = None -> Echo.sync false w = (Ok tt, w))
  /\ exec (Echo.sync false) (exec (Echo.sync false) w) = exec (Echo.sync false) w
  /\ (forall c,
        channel (this w) = Some c ->
        let w' := exec (Echo.sync false) w in
        channel (this w') = None
        /\ lastSyncHash (this w') = None
        /\ trace w' = trace w ++ [EvClose c]
        /\ lastSyncHash (this (exec (Echo.sync true) w')) = None).
Proof.
  split; [| split; [| split]].
  - intros c. apply sync_true_enabled.
  - apply sync_false_disabled.
  - unfold exec. destruct (channel (this w)) as [c |] eqn:Ec.
    + rewrite (sync_false_run c w Ec). cbn [snd].
      rewrite sync_false_disabled; reflexivity.
    + rewrite (sync_false_disabled w Ec). cbn [snd].
      rewrite sync_false_disabled; auto.
  - intros c Ec w'. unfold w', exec. rewrite (sync_false_run c w Ec). cbn [snd].
    split; [reflexivity | split; [reflexivity | split; [reflexivity |]]].
    unfold Echo.sync. rewrite bind_gets. cbn [is_some channel this upd_this
      with_lastSyncHash with_channel emit Bool.eqb].
    etransitivity; [apply (initializeSync_lastSyncHash _) | reflexivity].
Qed.

(** On the store with its channel open: before [sync(false)] the last
    hash is that of the initial broadcast, and after [sync(false)] and
    [sync(true)] at once a new channel is open and the initial state is
    scheduled to be broadcast again. *)
Example toggle_on_synced :
  lastSyncHash (this Demo.synced)
  = Some (Demo.hash_of (Demo.count 0))
  /\ channel (this (exec (Echo.sync true) (exec (Echo.sync false) Demo.synced)))
     = Some 2%nat
  /\ map t_task (timers (env (exec (Echo.sync true)
                                   (exec (Echo.sync false) Demo.synced))))
     = [TBroadcast (Demo.count 0)
          (Demo.hash_of (Demo.count 0))].
Proof. repeat split; reflexivity. Qed.

(** C8.  The specification has [sync(false)] clear the last hash so that
    re-enabling starts clean.  [sync(false)] does set [lastSyncHash] to
    null, but it leaves the timer of [broadcastState] pending.  For every
    store with its channel open and the broadcast of its state pending:
    after [sync(false)] the channel is closed and the hash cleared, and
    the timer is still there; when it expires it posts nothing (there is
    no channel) and stores its hash; and the start of the sync that
    follows ([initializeSync] from its [try] on, which is all of
    [sync(true)] on a store that is not on IndexedDB) opens a channel with
    that hash remembered, finds the hash of its state equal to it, and
    schedules and posts nothing: the state is never sent. *)
Theorem pending_broadcast_defeats_the_clean_start
    (w : World) (t : Timer) (c : nat) (h : Hash) :
  channel (this w) = Some c ->
  sync_opt (options (this w)) = true ->
  Echo.find_timer (t_id t) w = Some t ->
  t_task t = TBroadcast (state (store w)) h ->
  JSON_stringify (state (store w)) = Ok h ->
  let w1 := exec (Echo.sync false) w in
  let w2 := exec (Echo.fire (t_id t)) w1 in
  let w3 := exec Echo.initializeSync_resume w2 in
  (channel (this w1) = None /\ lastSyncHash (this w1) = None
   /\ trace w1 = trace w ++ [EvClose c]
   /\ timers (env w1) = timers (env w))
  /\ (state (store w2) = state (store w)
      /\ posts (trace w2) = posts (trace w)
      /\ channel (this w2) = None
      /\ lastSyncHash (this w2) = Some h)
  /\ (channel (this w3) = Some (next_channel (env w))
      /\ lastSyncHash (this w3) = Some h
      /\ timers (env w3) = timers (env w2)
      /\ posts (trace w3) = posts (trace w))
  /\ (Echo.has_name (options (this w)) = true ->
      has_BroadcastChannel (env w) = true ->
      Echo.is_indexedDB (options (this w)) = false ->
      Echo.sync true w2 = (Ok tt, w3)).
Proof.
  intros Hc Hs Ef Et Hh. cbv zeta. unfold exec.
  rewrite (sync_false_run c w Hc). cbn [snd].
  set (w1 := upd_this (with_lastSyncHash None)
               (upd_this (with_channel None) (emit (EvClose c) w))).
  assert (F : Echo.fire (t_id t) w1 = _)
    by (apply (fire_broadcast_closed t (state (store w)) h w1);
        [exact Ef | exact Et | reflexivity]).
  rewrite F. cbn [snd].
  match goal with
  | |- context [Echo.initializeSync_resume ?u] => set (w2 := u)
  end.
  assert (R : Echo.initializeSync_resume w2 = _)
    by (apply (initializeSync_resume_skips h w2); [exact Hs | exact Hh | reflexivity]).
  rewrite R. cbn [snd].
  split; [repeat split | split; [| split]].
  - split; [reflexivity | split; [| split; reflexivity]].
    unfold w2, w1. cbn. rewrite posts_app. cbn. apply app_nil_r.
  - split; [reflexivity | split; [reflexivity | split; [reflexivity |]]].
    unfold w2, w1. cbn. rewrite posts_app. cbn. apply app_nil_r.
  - intros Hn Hb Hi.
    rewrite (sync_true_closed w2) by reflexivity.
    rewrite (initializeSync_opens w2 Hn Hb Hi).
    unfold try_catch.
    rewrite (broadcastState_skips _ h); [reflexivity | exact Hh | reflexivity].
Qed.

Lemma pending_broadcast_defeats_the_clean_start_witness :
  let w := exec (Echo.set (PValue (Demo.count 5)) false) Demo.synced in
  let w3 := exec (Echo.sync true)
              (exec (Echo.fire 3) (exec (Echo.sync false) w)) in
  map t_task (timers (env w))
  = [TBroadcast (Demo.count 5) (Demo.hash_of (Demo.count 5))]
  /\ state (store w3) = Demo.count 5
  /\ channel (this w3) = Some 2%nat
  /\ lastSyncHash (this w3) = Some (Demo.hash_of (Demo.count 5))
  /\ timers (env w3) = []
  /\ posts (trace w3) = [Echo.envelope (Demo.count 0) 150].
Proof.
  cbv zeta.
  destruct (pending_broadcast_defeats_the_clean_start
              (exec (Echo.set (PValue (Demo.count 5)) false) Demo.synced)
              (mkTimer 3 100 250
                 (TBroadcast (Demo.count 5) (Demo.hash_of (Demo.count 5))))
              1 (Demo.hash_of (Demo.count 5))
              eq_refl eq_refl eq_refl eq_refl eq_refl)
    as [_ [_ [[Hch [Hl [Ht Hp]]] He]]].
  cbv zeta in Hch, Hl, Ht, Hp, He. cbn [t_id] in Hch, Hl, Ht, Hp, He.
  specialize (He eq_refl eq_refl eq_refl).
  set (w2 := exec (Echo.fire 3)
               (exec (Echo.sync false)
                  (exec (Echo.set (PValue (Demo.count 5)) false) Demo.synced))) in *.
  assert (E : exec (Echo.sync true) w2 = exec Echo.initializeSync_resume w2)
    by (unfold exec at 1; rewrite He; reflexivity).
  rewrite E.
  split; [reflexivity | split; [reflexivity | split; [exact Hch | split; [exact Hl |]]]].
  split; [rewrite Ht; reflexivity | rewrite Hp; reflexivity].
Defined.

(** The same on an IndexedDB store, where [sync(true)] first waits for
    the storage: after [set], [sync(false)], 100 ms and [sync(true)], and
    however long one waits then, the state that was set has not been
    posted and nothing is pending. *)
Example clean_start_fails_on_indexedDB :
  let w := Echo.run_timers 10
             (exec (Echo.sync true)
                (Echo.run_timers 10
                   (exec (Echo.sync false)
                      (exec (Echo.set (PValue (Demo.count 5)) false)
                            Demo.synced_db)))) in
  state (store w) = Demo.count 5
  /\ channel (this w) = Some 2%nat
  /\ posts (trace w) = [Echo.envelope (Demo.count 0) 150]
  /\ timers (env w) = [].
Proof. cbv zeta. split; [| split; [| split]]; vm_compute; reflexivity. Qed.

(** [initializeSync] does not look at the channel it replaces.  When
    [sync(true)] is called before the start the constructor deferred, the
    store makes two channels; [sync(false)] closes the second one only,
    and the first still hands its messages to the store. *)
Example sync_false_leaves_a_channel_open :
  let w := Session.run [Session.ASync true; Session.AFire 1; Session.ASync false]
             (Echo.new_Echo (Demo.count 0)
                (mkOptions (Some "c") None (Some Demo.quiet) true)
                (Echo.new_env Demo.healthy true)) in
  next_channel (env w) = 3%nat
  /\ trace w = [EvClose 2]
  /\ channel (this w) = None
  /\ Session.listening w = true
  /\ state (store (Session.run [Session.AMessage Demo.good_message] w))
     = Demo.count 7.
Proof. cbv zeta. repeat split; vm_compute; reflexivity. Qed.

(** C9.  On the inbound path [onChange] is called once, and its new
    state, its old state and the state the store holds at the call are all
    the state of the message: the value the store held before is not
    passed. *)
Theorem inbound_onChange_gets_new_state_twice
    (w : World) (data : JVal) (h : Hash) (cb : Callback) :
  onChange (options (this w)) = Some cb ->
  listeners_return w ->
  let s := member "state" data in
  onChange_calls (trace (exec (Echo.onmessage_resume data h) w))
  = onChange_calls (trace w) ++ [(s, s, s)]
  /\ (Echo.validateStateUpdate data = Ok true ->
      JSON_stringify s = Ok h ->
      hash_is h (lastSyncHash (this w)) = false ->
      Echo.is_indexedDB (options (this w)) = false ->
      onChange_calls (trace (exec (Echo.onmessage data) w))
      = onChange_calls (trace w) ++ [(s, s, s)]).
Proof.
  intros Hcb Hq s.
  assert (R : onChange_calls (trace (exec (Echo.onmessage_resume data h) w))
              = onChange_calls (trace w) ++ [(s, s, s)]).
  { unfold exec, Echo.onmessage_resume, Echo.onmessage_resume_body, async.
    change (snd (Ok tt, snd (try_catch (Echo.apply_inbound data h) Echo.handler_failed w)))
      with (snd (try_catch (Echo.apply_inbound data h) Echo.handler_failed w)).
    rewrite errors_not_onChange, (apply_inbound_normal _ _ _ Hq), Hcb.
    set (w0 := upd_this (with_lastSyncHash (Some h)) w).
    set (w1 := exec (Zustand.setState (PValue (member "state" data)) (Some true)) w0).
    assert (S1 : state (store w1) = s)
      by apply (setState_state (PValue (member "state" data)) (Some true) _ w0 eq_refl).
    assert (G1 : grows not_onChange w0 w1).
    { apply (grows_weaken is_listener_event); [apply listener_not_onChange |].
      apply setState_trace. }
    unfold call_onChange.
    match goal with
    | |- context [if ?b then _ else _] => destruct b
    end; simpl; rewrite onChange_calls_app, (grows_onChange_calls _ _ G1), S1;
      reflexivity. }
  split; [exact R |].
  intros Hv Hh Hl Hi. unfold exec. rewrite (onmessage_applies _ h); auto.
Qed.

Lemma inbound_onChange_gets_new_state_twice_witness :
  onChange_calls (trace (exec (Echo.onmessage Demo.good_message) Demo.synced))
  = [(Demo.count 7, Demo.count 7, Demo.count 7)]
  /\ state (store Demo.synced) = Demo.count 0.
Proof.
  split; [| reflexivity].
  assert (Hq : listeners_return Demo.synced).
  { intros id cb [] a b. }
  apply (inbound_onChange_gets_new_state_twice Demo.synced Demo.good_message
           (Demo.hash_of (Demo.count 7))
           Demo.quiet eq_refl Hq); reflexivity.
Defined.

(** ** Persistence: hydration and failed writes *)

(** C3.  The specification has the hydration's own commit never cause a
    write.  In the code the flag [isHydrating] is up only while [set]
    runs, and the write is debounced: when the timer expires 100 ms later
    the flag is down again, and the state just read from the database is
    written back to it.  For every default value, every stored record with
    a JSON text and every name: after the hydration the store holds the
    record, the flag is down, nothing is written yet and the save is
    pending; when its timer expires the record is written. *)
Theorem hydration_commit_is_written_back
    (dv saved : JVal) (h : Hash) (nm : string) (onC : option Callback) :
  nm <> EmptyString ->
  saved <> JNull ->
  JSON_stringify saved = Ok h ->
  let w0 := Echo.new_Echo dv (mkOptions (Some nm) (Some indexedDB) onC false)
              (Echo.new_env (mkBackend (Some saved) false false []) true) in
  let w1 := Echo.run_timers 1 w0 in
  let w2 := Echo.run_timers 1 w1 in
  state (store w1) = saved
  /\ isHydrating (mw w1) = false
  /\ writes (trace w1) = []
  /\ map t_task (timers (env w1)) = [TSave saved]
  /\ writes (trace w2) = [(saved, true)].
Proof.
  intros Hn Hs Hh.
  assert (En : Echo.has_name (mkOptions (Some nm) (Some indexedDB) onC false) = true).
  { unfold Echo.has_name. simpl. destruct (String.eqb_spec nm EmptyString); [contradiction | reflexivity]. }
  assert (Ei : IndexedDBMiddleware.is_null saved = false).
  { destruct saved; try reflexivity. contradiction. }
  cbv zeta.
  assert (E0 : Echo.new_Echo dv (mkOptions (Some nm) (Some indexedDB) onC false)
              (Echo.new_env (mkBackend (Some saved) false false []) true)
         = mkWorld (mkStore dv [(1%nat, LPersist)] 2)
             (mkMiddleware false false None None)
             (mkInstance dv (mkOptions (Some nm) (Some indexedDB) onC false) None None None)
             (mkEnv [mkTimer 1 0 0 THydrate] 2 0 (mkBackend (Some saved) false false []) true 1)
             []).
  { assert (Eb : String.eqb nm EmptyString = false)
      by (destruct (String.eqb_spec nm EmptyString); [contradiction | reflexivity]).
    unfold Echo.new_Echo, Echo.initialize, Echo.has_storage, Echo.await_storage,
      Echo.has_name, exec.
    cbn. rewrite Eb. cbn. unfold bind, gets. cbn. rewrite Eb. reflexivity. }
  rewrite E0. clear E0.
  assert (E1 : Echo.run_timers 1
     (mkWorld (mkStore dv [(1%nat, LPersist)] 2)
             (mkMiddleware false false None None)
             (mkInstance dv (mkOptions (Some nm) (Some indexedDB) onC false) None None None)
             (mkEnv [mkTimer 1 0 0 THydrate] 2 0 (mkBackend (Some saved) false false []) true 1)
             [])
     = mkWorld (mkStore saved [(1%nat, LPersist)] 2)
             (mkMiddleware true false None (Some 2%nat))
             (mkInstance dv (mkOptions (Some nm) (Some indexedDB) onC false) None None None)
             (mkEnv [mkTimer 2 100 100 (TSave saved)] 3 0 (mkBackend (Some saved) false false []) true 1)
             [EvRehydrated saved]).
  { unfold Echo.run_timers, Echo.earliest. cbn [timers env t_id].
    unfold exec, Echo.fire, Echo.find_timer. cbn [timers env find t_id Nat.eqb t_task t_due].
    unfold Echo.run_task, IndexedDBMiddleware.initializeState, async, try_catch, bind at 1.
    cbn. rewrite Ei. reflexivity. }
  rewrite E1. clear E1.
  split; [reflexivity | split; [reflexivity | split; [reflexivity | split; [reflexivity |]]]].
  unfold Echo.run_timers, Echo.earliest. cbn [timers env t_id].
  unfold exec, Echo.fire, Echo.find_timer. cbn [timers env find t_id Nat.eqb t_task t_due].
  unfold Echo.run_task, IndexedDBMiddleware.saveState, async, bind at 1.
  cbn. rewrite Hh. reflexivity.
Qed.

Lemma hydration_commit_is_written_back_witness :
  writes (trace (Echo.run_timers 1 (Echo.run_timers 1 Demo.persisted)))
  = [(JObj [("a", JNum 1)], true)].
Proof.
  apply (hydration_commit_is_written_back
           (JObj [("a", JNum 0); ("b", JNum 2)]) (JObj [("a", JNum 1)])
           (Demo.hash_of (JObj [("a", JNum 1)]))
           "s" None);
    [discriminate | discriminate | reflexivity].
Defined.

(** C4.  The specification has a failed write retried up to 3 times with
    a fixed delay.  In the code the write the middleware makes is tried
    once: when the put request of [saveState] fails, the call still ends
    normally, the failure is logged, the saved hash is reset, the timers
    are what they were (no retry is scheduled), the record in the database
    is what it was, and the failures the database had in store after this
    one are not met. *)
Theorem failed_write_is_not_retried
    (st : JVal) (h : Hash) (rest : list bool) (w : World) :
  JSON_stringify st = Ok h ->
  hash_is h (lastSavedState (mw w)) = false ->
  isHydrating (mw w) = false ->
  be_open_fails (backend (env w)) = false ->
  be_write_script (backend (env w)) = true :: rest ->
  let w' := exec (IndexedDBMiddleware.saveState st) w in
  outcome (IndexedDBMiddleware.saveState st) w = Ok tt
  /\ writes (trace w') = writes (trace w) ++ [(st, false)]
  /\ errors (trace w') = errors (trace w) ++ [MsgSaveFailed]
  /\ timers (env w') = timers (env w)
  /\ lastSavedState (mw w') = None
  /\ be_record (backend (env w')) = be_record (backend (env w))
  /\ be_write_script (backend (env w')) = rest.
Proof.
  intros Hh Hl Hy Ho Hs w'. split.
  - unfold outcome. rewrite (saveState_run_failure _ _ _ _ Hh Hl Hy Ho Hs).
    reflexivity.
  - apply (saveState_failure_is_final st h rest w Hh Hl Hy Ho Hs).
Qed.

Lemma failed_write_is_not_retried_witness :
  let st := JObj [("a", JNum 5)] in
  let w := exec (Echo.set (PValue st) false) (Echo.run_timers 1 Demo.flaky) in
  writes (trace (exec (IndexedDBMiddleware.saveState st) w)) = [(st, false)]
  /\ timers (env (exec (IndexedDBMiddleware.saveState st) w)) = timers (env w)
  /\ be_write_script (backend (env (exec (IndexedDBMiddleware.saveState st) w)))
     = [true; true].
Proof.
  cbv zeta.
  destruct (failed_write_is_not_retried
              (JObj [("a", JNum 5)]) (Demo.hash_of (JObj [("a", JNum 5)]))
              [true; true]
              (exec (Echo.set (PValue (JObj [("a", JNum 5)])) false)
                    (Echo.run_timers 1 Demo.flaky))
              eq_refl eq_refl eq_refl eq_refl eq_refl)
    as [_ [Hw [_ [Ht [_ [_ Hs]]]]]].
  split; [exact Hw | split; [exact Ht | exact Hs]].
Defined.

(** Over a database whose first three put requests fail: [set({a: 5})]
    returns, its write fails once and is logged, no timer is left, the
    record is the old one and two of the failures are never met. *)
Example set_then_failed_write :
  let st := JObj [("a", JNum 5)] in
  let w := Echo.run_timers 1 Demo.flaky in
  let w' := Echo.run_timers 10 (exec (Echo.set (PValue st) false) w) in
  outcome (Echo.set (PValue st) false) w = Ok tt
  /\ state (store w') = st
  /\ writes (trace w') = [(st, false)]
  /\ errors (trace w') = [MsgSaveFailed]
  /\ timers (env w') = []
  /\ be_record (backend (env w')) = Some (JObj [("a", JNum 1)])
  /\ be_write_script (backend (env w')) = [true; true].
Proof. cbv zeta. repeat split; vm_compute; reflexivity. Qed.

(** [saveStateWithRetry], which nothing calls: a failed request at
    [retryCount] is logged as attempt [retryCount + 1] of 3, and below 3
    the next request is scheduled [RETRY_DELAY] later. *)
Lemma saveStateWithRetry_failure (st : JVal) (n : nat) (rest : list bool) (w : World) :
  be_open_fails (backend (env w)) = false ->
  be_write_script (backend (env w)) = true :: rest ->
  let w' := exec (Echo.saveStateWithRetry st n) w in
  writes (trace w') = writes (trace w) ++ [(st, false)]
  /\ errors (trace w')
     = errors (trace w) ++ [MsgSaveAttemptFailed (n + 1) Echo.MAX_RETRY_COUNT]
  /\ timers (env w')
     = timers (env w)
       ++ (if Nat.ltb n Echo.MAX_RETRY_COUNT
           then [mkTimer (next_timer (env w)) Echo.RETRY_DELAY
                   (now (env w) + Echo.RETRY_DELAY) (TSaveRetry st (n + 1))]
           else []).
Proof.
  intros Ho Hs. cbv zeta.
  unfold exec, Echo.saveStateWithRetry, async, try_catch.
  rewrite (setItem_fails st rest w Ho Hs).
  destruct (Nat.ltb n Echo.MAX_RETRY_COUNT); cbn;
    rewrite !writes_app, !errors_app; cbn; rewrite ?app_nil_r; repeat split.
Qed.

(** So it makes up to four requests: with three failures the fourth
    request stores the state, and with five failures it stops after the
    fourth, logged as attempt 4 of 3. *)
Example saveStateWithRetry_makes_four_requests :
  let st := JObj [("a", JNum 5)] in
  (let r := Echo.run_timers 10
              (exec (Echo.saveStateWithRetry st 0) (Demo.scripted [true; true; true])) in
   writes (trace r) = [(st, false); (st, false); (st, false); (st, true)]
   /\ be_record (backend (env r)) = Some st)
  /\ (let r := Echo.run_timers 10
                 (exec (Echo.saveStateWithRetry st 0)
                       (Demo.scripted [true; true; true; true; true])) in
      writes (trace r) = [(st, false); (st, false); (st, false); (st, false)]
      /\ errors (trace r)
         = [MsgSaveAttemptFailed 1 3; MsgSaveAttemptFailed 2 3;
            MsgSaveAttemptFailed 3 3; MsgSaveAttemptFailed 4 3]
      /\ timers (env r) = []
      /\ be_write_script (backend (env r)) = [true]).
Proof. cbv zeta. repeat split; vm_compute; reflexivity. Qed.

(* ===================================================================== *)
(** * Further properties of the code *)
(* ===================================================================== *)

Import Session.

(** ** Sessions: what holds after any sequence of calls *)

Lemma fire_preserves R `{Preorder R} id :
  (forall t : Timer,
      preserves R
        (clearTimeout id ;;
         modify (upd_env (fun e => with_now (Z.max (now e) (t_due t)) e)) ;;
         Echo.run_task (t_task t))) ->
  preserves R (Echo.fire id).
Proof.
  intros Hf w. unfold Echo.fire.
  destruct (Echo.find_timer id w) as [t |]; [apply Hf | apply pre_refl].
Qed.

Lemma message_preserves R `{Preorder R} data :
  preserves R (Echo.onmessage data) -> preserves R (step (AMessage data)).
Proof.
  intros Hm w. simpl. destruct (listening w); [apply Hm | apply pre_refl].
Qed.

Lemma setItem_same {X} (f : World -> X) v :
  (forall e b w, f (emit e (upd_env (with_backend b) w)) = f w) ->
  preserves (same f) (IndexedDBStorage.setItem v).
Proof.
  intros Hf w. destruct (setItem_cases v w) as [-> | [ok [b ->]]].
  - reflexivity.
  - apply Hf.
Qed.

Ltac unfold_all :=
  unfold_ops;
  repeat progress
    unfold Echo.sync, Echo.initializeSync, Echo.initializeSync_resume,
      Echo.run_task, Echo.saveStateWithRetry, Echo.broadcast_timer,
      Echo.beforeunload, Echo.await_storage,
      IndexedDBMiddleware.saveState, IndexedDBMiddleware.initializeState,
      Zustand.unsubscribe, Zustand.subscribe;
  unfold_ops.

Ltac storage_atom :=
  lazymatch goal with
  | |- preserves ?R IndexedDBStorage.getItem =>
      apply (@pure_preserves _ R _ _ getItem_pure)
  | |- preserves ?R IndexedDBStorage.waitForDB =>
      apply (@pure_preserves _ R _ _ waitForDB_pure)
  end.

Ltac deep_frame atom :=
  repeat first [ frame_step | storage_atom | progress unfold_all ];
  try solve [atom].

Ltac step_frame atom :=
  lazymatch goal with
  | |- preserves ?R (step ?a) =>
      destruct a; cbn [step];
      [ | | | | | | apply (@message_preserves R _)
      | apply (@fire_preserves R _); intro | ];
      deep_frame atom
  end.

Lemma step_config a :
  preserves (same (fun w => (defaultValue (this w), options (this w)))) (step a).
Proof.
  step_frame atom_same.
  all: try (apply setItem_same; intros; reflexivity).
Qed.

Lemma run_app l1 l2 w : run (l1 ++ l2) w = run l2 (run l1 w).
Proof. unfold run. apply fold_left_app. Qed.

Lemma run_preserves R `{Preorder R} :
  (forall a, preserves R (step a)) -> forall actions w, R w (run actions w).
Proof.
  intros Hs actions. induction actions as [| a actions IH]; intro w; simpl.
  - apply pre_refl.
  - eapply pre_trans; [apply (Hs a w) | apply IH].
Qed.

Lemma new_Echo_config dv o e :
  defaultValue (this (Echo.new_Echo dv o e)) = dv
  /\ options (this (Echo.new_Echo dv o e)) = o.
Proof.
  unfold Echo.new_Echo.
  assert (F : preserves (same (fun w => (defaultValue (this w), options (this w))))
    (when (Echo.has_storage o) Echo.await_storage ;;
     Echo.initialize ;;
     when (sync_opt o) (_ <- setTimeout TInitSync Echo.SYNC_DELAY ;; ret tt))).
  { unfold Echo.initialize, Echo.await_storage. deep_frame atom_same. }
  specialize (F (mkWorld (mkStore JUndefined [] 1)
             (mkMiddleware false false None None)
             (mkInstance dv o None None None)
             e [])).
  unfold same in F. simpl in F. injection F as F1 F2. split; assumption.
Qed.

(** [reset] is independent of the history: whatever was done to a store
    since [new Echo(defaultValue, options)], [reset()] leaves it holding
    [defaultValue]; nothing ever assigns [defaultValue] or [options]. *)
Theorem reset_restores_the_default
    (dv : JVal) (o : EchoOptions) (e : Env) (actions : list Action) :
  let w := run actions (Echo.new_Echo dv o e) in
  state (store (exec Echo.reset w)) = dv
  /\ defaultValue (this w) = dv
  /\ options (this w) = o.
Proof.
  intro w.
  assert (C : (defaultValue (this w), options (this w)) = (dv, o)).
  { unfold w.
    rewrite (run_preserves (same (fun w => (defaultValue (this w), options (this w))))
               step_config actions (Echo.new_Echo dv o e)).
    destruct (new_Echo_config dv o e) as [-> ->]. reflexivity. }
  injection C as C1 C2.
  split; [rewrite reset_state; exact C1 | split; assumption].
Qed.

(** For instance, after [set], [delete] and an expired timer. *)
Example reset_after_a_session :
  state (store (exec Echo.reset
    (run [ASet (PValue (Demo.count 5)) false; ADelete "count"; AFire 1]
         Demo.counter)))
  = Demo.count 0.
Proof. vm_compute. reflexivity. Qed.

#[export] Instance keeps_pre I : Preorder (keeps I).
Proof. split; unfold keeps; auto. Qed.

(** *** A store with sync off posts nothing *)

Lemma preserves_both {A} R S (c : M A) :
  preserves R c -> preserves S c -> preserves (both R S) c.
Proof. intros HR HS w. split; [apply HR | apply HS]. Qed.

Lemma quietly_silent w w' : quietly w w' -> keeps silent w w'.
Proof.
  intros [Ho [Hn Hg]] [So St Sp]. split.
  - unfold same in Ho. rewrite Ho. exact So.
  - intros t Hin. destruct (is_broadcast t) eqn:E; [| reflexivity].
    rewrite (St t (Hn t Hin E)) in E. discriminate E.
  - rewrite (grows_posts _ _ Hg). exact Sp.
Qed.

Lemma quietly_keeps {A} (c : M A) :
  preserves quietly c -> preserves (keeps silent) c.
Proof. intros Hc w. apply quietly_silent, Hc. Qed.

Lemma broadcastState_off st w :
  sync_opt (options (this w)) = false -> Echo.broadcastState st w = (Ok tt, w).
Proof.
  intro Hs. unfold Echo.broadcastState. rewrite bind_gets, Hs, orb_true_r.
  reflexivity.
Qed.

Lemma broadcastState_silent st : preserves (keeps silent) (Echo.broadcastState st).
Proof.
  intros w Hs. rewrite (broadcastState_off st w (silent_option w Hs)). exact Hs.
Qed.

Ltac unfold_but_broadcast :=
  repeat progress
    unfold Echo.onmessage, Echo.onmessage_body, Echo.onmessage_resume,
      Echo.onmessage_resume_body, Echo.apply_inbound, Echo.handler_failed,
      Echo.set, Echo.delete, Echo.reset, Echo.subscribe, Echo.current,
      Echo.getStateHash, Zustand.setState, Zustand.getState,
      Echo.sync, Echo.initializeSync, Echo.initializeSync_resume,
      Echo.saveStateWithRetry, Echo.beforeunload, Echo.await_storage,
      IndexedDBMiddleware.saveState, IndexedDBMiddleware.initializeState,
      Zustand.unsubscribe, Zustand.subscribe.

Ltac quiet_atom :=
  apply quietly_keeps; unfold quietly;
  apply preserves_both; [| apply preserves_both];
  [ first [ solve [atom_same]
          | apply setItem_same; intros; reflexivity ]
  | first [ solve [atom_no_new] | apply setItem_no_new ]
  | first [ solve [atom_grows] | apply setItem_grows; intros; exact I ] ].

Ltac silent_frame :=
  repeat first
    [ lazymatch goal with
      | |- preserves _ (Echo.broadcastState _) => apply broadcastState_silent
      end
    | frame_step | storage_atom | progress unfold_but_broadcast ];
  try solve [quiet_atom].

Lemma run_task_silent t :
  is_broadcast t = false -> preserves (keeps silent) (Echo.run_task (t_task t)).
Proof.
  unfold is_broadcast. intro Hb.
  destruct (t_task t); try discriminate Hb; cbn [Echo.run_task]; silent_frame.
Qed.

Lemma fire_silent id : preserves (keeps silent) (Echo.fire id).
Proof.
  intros w Hs. unfold Echo.fire.
  destruct (Echo.find_timer id w) as [t |] eqn:Ef; [| exact Hs].
  assert (Hb : is_broadcast t = false)
    by (apply (silent_timers w Hs), (find_timer_In _ _ _ Ef)).
  assert (F : preserves (keeps silent)
    (clearTimeout id ;;
     modify (upd_env (fun e => with_now (Z.max (now e) (t_due t)) e)) ;;
     Echo.run_task (t_task t))).
  { repeat frame_step; try solve [quiet_atom]. apply run_task_silent, Hb. }
  apply F, Hs.
Qed.

Lemma step_silent a : preserves (keeps silent) (step a).
Proof.
  destruct a; cbn [step];
    [ | | | | | | apply (@message_preserves (keeps silent) _) | apply fire_silent | ];
    silent_frame.
Qed.

Lemma new_Echo_silent dv o b bc :
  sync_opt o = false -> silent (Echo.new_Echo dv o (Echo.new_env b bc)).
Proof.
  intro Hs. unfold Echo.new_Echo. rewrite Hs.
  assert (F : preserves (keeps silent)
    (when (Echo.has_storage o) Echo.await_storage ;;
     Echo.initialize ;; when false (_ <- setTimeout TInitSync Echo.SYNC_DELAY ;; ret tt))).
  { unfold Echo.initialize, Echo.await_storage. silent_frame. }
  apply F. split; simpl; [exact Hs | contradiction | reflexivity].
Qed.

(** A store made with the [sync] option off never posts: whatever is done
    to it, [sync(true)] and inbound messages included, no message has been
    posted and no broadcast is pending; [broadcastState] returns at its
    first test. *)
Theorem sync_off_never_posts
    (dv : JVal) (o : EchoOptions) (b : Backend) (bc : bool) (actions : list Action) :
  sync_opt o = false ->
  let w := run actions (Echo.new_Echo dv o (Echo.new_env b bc)) in
  posts (trace w) = [] /\ pending_broadcasts w = [].
Proof.
  intros Hs w.
  assert (S : silent w).
  { apply (run_preserves (keeps silent) step_silent actions), new_Echo_silent, Hs. }
  destruct S as [_ St Sp]. split; [exact Sp |].
  unfold pending_broadcasts.
  induction (timers (env w)) as [| t l IH]; simpl; [reflexivity |].
  rewrite (St t (or_introl eq_refl)). apply IH.
  intros t' Hin. apply St. right. exact Hin.
Qed.

Lemma sync_off_never_posts_witness :
  let w := run [ASync true; ASet (PValue (Demo.count 5)) false; AFire 1;
                AMessage Demo.good_message; AFire 2]
             (Echo.new_Echo (Demo.count 0)
                (mkOptions (Some "c") None (Some Demo.quiet) false)
                (Echo.new_env Demo.healthy true)) in
  channel (this w) = Some 1%nat
  /\ state (store w) = Demo.count 7
  /\ posts (trace w) = []
  /\ pending_broadcasts w = [].
Proof.
  cbv zeta. split; [vm_compute; reflexivity | split; [vm_compute; reflexivity |]].
  apply (sync_off_never_posts (Demo.count 0)
           (mkOptions (Some "c") None (Some Demo.quiet) false)
           Demo.healthy true
           [ASync true; ASet (PValue (Demo.count 5)) false; AFire 1;
            AMessage Demo.good_message; AFire 2]).
  reflexivity.
Defined.

(** *** A store without a name stays inert *)

Lemma calmly_inert w w' : calmly w w' -> keeps inert w w'.
Proof.
  intros [Ht [He [Hl Hg]]] [I1 I2 I3 I4 I5 I6 I7].
  unfold same in Ht, He, Hl. split; rewrite ?Ht, ?He, ?Hl; auto.
  - rewrite (grows_writes w w'); [exact I6 |].
    apply (grows_weaken is_callback_event); [apply callback_local | exact Hg].
  - rewrite (grows_posts w w'); [exact I7 |].
    apply (grows_weaken is_callback_event); [apply callback_not_post | exact Hg].
Qed.

Lemma calmly_keeps {A} (c : M A) : preserves calmly c -> preserves (keeps inert) c.
Proof. intros Hc w. apply calmly_inert, Hc. Qed.

Ltac calm_atom :=
  apply calmly_keeps; unfold calmly;
  apply preserves_both; [| apply preserves_both; [| apply preserves_both]];
  [ solve [atom_same] | solve [atom_same] | solve [atom_same] | solve [atom_grows] ].

Lemma notify_users R `{Preorder R} st prev ls :
  (forall id cb, preserves R (call_user_listener id cb st prev)) ->
  (forall il, In il ls -> is_user (snd il) = true) ->
  preserves R (Zustand.notify ls st prev).
Proof.
  intros Hc. induction ls as [| [id l] rest IH]; intro Hu; simpl.
  - apply (@preserves_ret R _).
  - apply (@preserves_bind R _).
    + destruct l as [| cb]; [specialize (Hu (id, LPersist) (or_introl eq_refl)); discriminate |].
      apply Hc.
    + intros _. apply IH. intros il Hin. apply Hu. right. exact Hin.
Qed.

Lemma inert_with_state st w : inert w -> inert (upd_store (with_state st) w).
Proof. intros [I1 I2 I3 I4 I5 I6 I7]. split; auto. Qed.

Lemma setState_inert p r : preserves (keeps inert) (Zustand.setState p r).
Proof.
  intros w Hi.
  destruct (Zustand.eval_partial p (state (store w))) as [v | e] eqn:Ev.
  - rewrite (setState_run _ _ _ _ Ev).
    assert (F : preserves (keeps inert)
      (Zustand.notify (listeners (store w))
         (Zustand.next_state r (state (store w)) v) (state (store w)))).
    { apply (@notify_users (keeps inert) _); [| apply (inert_listeners w Hi)].
      intros id cb. calm_atom. }
    apply F, inert_with_state, Hi.
  - rewrite (setState_thrown _ _ _ _ Ev). exact Hi.
Qed.

Lemma broadcastState_closed st w :
  channel (this w) = None -> Echo.broadcastState st w = (Ok tt, w).
Proof.
  intro Hc. unfold Echo.broadcastState. rewrite bind_gets, Hc. reflexivity.
Qed.

Lemma broadcastState_inert st : preserves (keeps inert) (Echo.broadcastState st).
Proof.
  intros w Hi. rewrite (broadcastState_closed st w (inert_channel w Hi)). exact Hi.
Qed.

Lemma initializeSync_unnamed w :
  Echo.has_name (options (this w)) = false ->
  Echo.initializeSync w = (Ok tt, emit (EvWarn MsgNeedName) w).
Proof.
  intro Hn. unfold Echo.initializeSync, async. rewrite !bind_gets, Hn. reflexivity.
Qed.

Lemma inert_emit_warn m w : inert w -> inert (emit (EvWarn m) w).
Proof.
  intros [I1 I2 I3 I4 I5 I6 I7]. split; auto; simpl.
  - rewrite writes_app, I6. reflexivity.
  - rewrite posts_app, I7. reflexivity.
Qed.

Lemma initializeSync_inert : preserves (keeps inert) Echo.initializeSync.
Proof.
  intros w Hi. rewrite (initializeSync_unnamed w (inert_name w Hi)).
  apply inert_emit_warn, Hi.
Qed.

Lemma sync_inert b : preserves (keeps inert) (Echo.sync b).
Proof.
  intros w Hi. unfold Echo.sync. rewrite bind_gets, (inert_channel w Hi).
  destruct b; cbn [Bool.eqb is_some].
  - apply initializeSync_inert, Hi.
  - exact Hi.
Qed.

Lemma listening_none w : next_channel (env w) = 1 -> listening w = false.
Proof. intro Hn. unfold listening. rewrite Hn. reflexivity. Qed.

Lemma inert_timers_filter f w :
  inert w ->
  inert (upd_env (fun e => with_timers (filter f (timers e)) (next_timer e) e) w).
Proof.
  intros [I1 I2 I3 I4 I5 I6 I7]. split; auto. simpl.
  intros t Hin. apply I4. eapply filter_In_sub, Hin.
Qed.

Lemma inert_with_now z w :
  inert w -> inert (upd_env (fun e => with_now (Z.max (now e) z) e) w).
Proof. intros [I1 I2 I3 I4 I5 I6 I7]. split; auto. Qed.

Lemma fire_inert id : preserves (keeps inert) (Echo.fire id).
Proof.
  intros w Hi. unfold Echo.fire.
  destruct (Echo.find_timer id w) as [t |] eqn:Ef; [| exact Hi].
  rewrite (inert_timers w Hi t (find_timer_In _ _ _ Ef)).
  unfold clearTimeout, modify, bind. cbn [Echo.run_task].
  apply initializeSync_inert, inert_with_now, inert_timers_filter, Hi.
Qed.

Lemma subscribe_inert cb : preserves (keeps inert) (Echo.subscribe cb).
Proof.
  intros w [I1 I2 I3 I4 I5 I6 I7]. split; auto. simpl.
  intros il Hin. apply in_app_or in Hin. destruct Hin as [Hin | [<- | []]]; auto.
Qed.

Lemma unsubscribe_inert id : preserves (keeps inert) (Zustand.unsubscribe id).
Proof.
  intros w [I1 I2 I3 I4 I5 I6 I7]. split; auto. simpl.
  intros il Hin. apply I5. eapply filter_In_sub, Hin.
Qed.

Ltac inert_frame :=
  repeat first
    [ lazymatch goal with
      | |- preserves _ (Echo.broadcastState _) => apply broadcastState_inert
      | |- preserves _ (Zustand.setState _ _) => apply setState_inert
      | |- preserves _ (Echo.subscribe _) => apply subscribe_inert
      end
    | frame_step
    | progress unfold Echo.set, Echo.delete, Echo.reset, Echo.current, Zustand.getState ];
  try solve [calm_atom].

Lemma step_inert a : preserves (keeps inert) (step a).
Proof.
  destruct a; cbn [step].
  - inert_frame.
  - inert_frame.
  - inert_frame.
  - inert_frame.
  - apply unsubscribe_inert.
  - apply sync_inert.
  - intros w Hi. rewrite (listening_none w (inert_channels w Hi)). exact Hi.
  - apply fire_inert.
  - intros w Hi. unfold Echo.beforeunload, Echo.has_storage.
    rewrite bind_gets, (inert_name w Hi), andb_false_r. exact Hi.
Qed.

Lemma new_Echo_inert dv o b bc :
  Echo.has_name o = false -> inert (Echo.new_Echo dv o (Echo.new_env b bc)).
Proof.
  intro Hn. unfold Echo.new_Echo, Echo.has_storage. rewrite Hn, andb_false_r.
  unfold Echo.initialize, when, exec, bind, gets, ret.
  cbn [this options]. rewrite Hn. cbn [negb].
  destruct (sync_opt o); split; simpl; auto; try contradiction.
  intros t [<- | []]. reflexivity.
Qed.

(** A store made without a [name] stays local: whatever is done to it, no
    storage request has been made, no message posted, no channel opened
    and no save is pending.  [sync(true)] only logs a warning. *)
Theorem nameless_store_stays_local
    (dv : JVal) (o : EchoOptions) (b : Backend) (bc : bool) (actions : list Action) :
  Echo.has_name o = false ->
  let w := run actions (Echo.new_Echo dv o (Echo.new_env b bc)) in
  writes (trace w) = []
  /\ posts (trace w) = []
  /\ channel (this w) = None
  /\ pending_saves w = [].
Proof.
  intros Hn w.
  assert (Hi : inert w).
  { apply (run_preserves (keeps inert) step_inert actions), new_Echo_inert, Hn. }
  destruct Hi as [I1 I2 I3 I4 I5 I6 I7].
  split; [exact I6 | split; [exact I7 | split; [exact I2 |]]].
  unfold pending_saves.
  induction (timers (env w)) as [| t l IH]; simpl; [reflexivity |].
  unfold is_save at 1. rewrite (I4 t (or_introl eq_refl)). apply IH.
  intros t' Hin. apply I4. right. exact Hin.
Qed.

Lemma nameless_store_stays_local_witness :
  let w := run [ASet (PValue (Demo.count 5)) false; ASync true; AFire 1; AReset]
             (Echo.new_Echo (Demo.count 0)
                (mkOptions None (Some indexedDB) None true)
                (Echo.new_env Demo.healthy true)) in
  writes (trace w) = []
  /\ posts (trace w) = []
  /\ channel (this w) = None
  /\ pending_saves w = [].
Proof.
  apply (nameless_store_stays_local (Demo.count 0)
           (mkOptions None (Some indexedDB) None true)
           Demo.healthy true
           [ASet (PValue (Demo.count 5)) false; ASync true; AFire 1; AReset]).
  reflexivity.
Defined.

(** ** Opening the channel *)

Lemma initializeSync_no_channel w :
  Echo.has_name (options (this w)) = true ->
  has_BroadcastChannel (env w) = false ->
  Echo.initializeSync w = (Ok tt, emit (EvWarn MsgNoBroadcastChannel) w).
Proof.
  intros Hn Hb. unfold Echo.initializeSync, async. rewrite !bind_gets, Hn, Hb.
  reflexivity.
Qed.

(** [sync(true)] on a store with no channel.  Without a [name], or where
    [BroadcastChannel] is missing, it logs a warning and changes nothing
    else.  Otherwise (on a store that is not on IndexedDB, where the rest
    waits for the hydration) it makes a channel and posts nothing yet; the
    channel stays open unless the [sync] option is on and the current state
    has no JSON text, in which case the failure is logged and the channel
    dropped. *)
Theorem sync_needs_a_name_and_a_channel (w : World) :
  channel (this w) = None ->
  (Echo.has_name (options (this w)) = false ->
   Echo.sync true w = (Ok tt, emit (EvWarn MsgNeedName) w))
  /\ (Echo.has_name (options (this w)) = true ->
      has_BroadcastChannel (env w) = false ->
      Echo.sync true w = (Ok tt, emit (EvWarn MsgNoBroadcastChannel) w))
  /\ (Echo.has_name (options (this w)) = true ->
      has_BroadcastChannel (env w) = true ->
      Echo.is_indexedDB (options (this w)) = false ->
      let w' := exec (Echo.sync true) w in
      next_channel (env w') = S (next_channel (env w))
      /\ state (store w') = state (store w)
      /\ posts (trace w') = posts (trace w)
      /\ (sync_opt (options (this w)) = false
          \/ (exists h, JSON_stringify (state (store w)) = Ok h) ->
          channel (this w') = Some (next_channel (env w)))
      /\ (sync_opt (options (this w)) = true ->
          (exists e, JSON_stringify (state (store w)) = Thrown e) ->
          channel (this w') = None
          /\ errors (trace w') = errors (trace w) ++ [MsgInitSyncFailed])).
Proof.
  intro Hc. split; [| split].
  - intro Hn. rewrite (sync_true_closed w Hc). apply initializeSync_unnamed, Hn.
  - intros Hn Hb. rewrite (sync_true_closed w Hc). apply initializeSync_no_channel; assumption.
  - intros Hn Hb Hi. cbv zeta. unfold exec.
    rewrite (sync_true_closed w Hc), (initializeSync_opens w Hn Hb Hi). cbn [snd].
    set (w0 := upd_this (with_channel (Some (next_channel (env w))))
                 (upd_env (with_next_channel (S (next_channel (env w)))) w)).
    assert (F : preserves
      (both (same (fun w => next_channel (env w)))
         (both (same (fun w => state (store w))) (grows not_post)))
      (try_catch
          (Echo.broadcastState (state (store w)))
          (fun _ =>
             modify (emit (EvError MsgInitSyncFailed)) ;;
             modify (upd_this (with_channel None))))).
    { apply preserves_both; [| apply preserves_both].
      - frame_with atom_same.
      - frame_with atom_same.
      - frame_with atom_grows. }
    destruct (F w0) as [F1 [F2 F3]].
    split; [exact F1 | split; [exact F2 | split; [apply (grows_posts w0), F3 | split]]].
    + intro Hh. unfold try_catch.
      assert (Hh0 : can_hash w0 (state (store w))).
      { right. exact Hh. }
      pose proof (broadcastState_ok _ _ Hh0) as Ok0.
      pose proof (broadcastState_this_fixed (state (store w)) w0) as T0.
      destruct (Echo.broadcastState (state (store w)) w0) as [[[] | e] w1];
        [| discriminate Ok0].
      unfold same in T0. simpl in T0. injection T0 as T0 _ _ _. exact T0.
    + intros Hs [e He]. unfold try_catch.
      assert (B : Echo.broadcastState (state (store w)) w0 = (Thrown e, w0)).
      { unfold Echo.broadcastState, Echo.getStateHash, lift. rewrite bind_gets.
        cbn [this w0 upd_this upd_env channel with_channel is_some negb options orb].
        rewrite Hs. cbn [negb]. unfold bind. rewrite He. reflexivity. }
      rewrite B. cbn. rewrite errors_app. split; reflexivity.
Qed.

Lemma sync_needs_a_name_and_a_channel_witness :
  Echo.sync true Demo.counter = (Ok tt, emit (EvWarn MsgNeedName) Demo.counter)
  /\ (let w := Echo.new_Echo (Demo.count 0) (mkOptions (Some "c") None None false)
                 (Echo.new_env Demo.healthy true) in
      channel (this (exec (Echo.sync true) w)) = Some 1%nat).
Proof.
  split.
  - apply (sync_needs_a_name_and_a_channel Demo.counter); reflexivity.
  - cbv zeta.
    destruct (sync_needs_a_name_and_a_channel
                (Echo.new_Echo (Demo.count 0) (mkOptions (Some "c") None None false)
                   (Echo.new_env Demo.healthy true)) eq_refl)
      as [_ [_ H]].
    destruct (H eq_refl eq_refl eq_refl) as [_ [_ [_ [C _]]]].
    apply C. left. reflexivity.
Defined.

(** ** Debouncing: the timer table and the two slots *)

Lemma slots_same w w' : same slot_view w w' -> keeps slots w w'.
Proof.
  unfold same, slot_view. intros E [A B C D F G H I].
  injection E as E1 E2 E3 E4.
  split; rewrite ?E1, ?E2, ?E3, ?E4; assumption.
Qed.

Lemma slots_same_keeps {A} (c : M A) :
  preserves (same slot_view) c -> preserves (keeps slots) c.
Proof. intros Hc w. apply slots_same, Hc. Qed.

Lemma NoDup_map_filter {A B} (f : A -> B) (p : A -> bool) l :
  NoDup (map f l) -> NoDup (map f (filter p l)).
Proof.
  induction l as [| a l IH]; simpl; intro H; [constructor |].
  inversion H as [| ? ? Hn Hd]; subst.
  destruct (p a); simpl; [| auto].
  constructor; [| auto]. intro Hin. apply Hn.
  apply in_map_iff in Hin. destruct Hin as [x [Ex Hx]].
  apply in_map_iff. exists x. split; [exact Ex | eapply filter_In_sub, Hx].
Qed.

(** [clearTimeout] keeps the table and the slots in agreement. *)
Lemma clearTimeout_slots id : preserves (keeps slots) (clearTimeout id).
Proof.
  intros w [A B C D F G H I]. split; cbn; auto.
  - intros t Hin. apply B. eapply filter_In_sub, Hin.
  - intros t Hin. apply C. eapply filter_In_sub, Hin.
  - apply NoDup_map_filter, D.
  - intros t Hin. apply H. eapply filter_In_sub, Hin.
  - intros t Hin. apply I. eapply filter_In_sub, Hin.
Qed.

Lemma fresh_not_in w n :
  (forall t, In t (timers (env w)) -> t_id t < n) ->
  ~ In n (map t_id (timers (env w))).
Proof.
  intros Hb Hin. apply in_map_iff in Hin. destruct Hin as [t [E Ht]].
  specialize (Hb t Ht). lia.
Qed.

Lemma NoDup_snoc {A} (l : list A) x : NoDup l -> ~ In x l -> NoDup (l ++ [x]).
Proof.
  intros Hl Hx. apply NoDup_app; [exact Hl | repeat constructor; simpl; tauto |].
  intros a Ha [<- | []]. exact (Hx Ha).
Qed.

Lemma setTimeout_slots task d :
  plain task = true -> preserves (keeps slots) (setTimeout task d).
Proof.
  intros Hp w [A B C D F G H I]. split; cbn.
  - lia.
  - intros t Hin. apply in_app_or in Hin. destruct Hin as [Hin | [<- | []]]; [auto | simpl; lia].
  - intros t Hin. apply in_app_or in Hin. destruct Hin as [Hin | [<- | []]].
    + specialize (C t Hin). lia.
    + simpl. lia.
  - rewrite map_app. simpl. apply NoDup_snoc; [exact D | apply fresh_not_in, C].
  - intros id E. specialize (F id E). lia.
  - intros id E. specialize (G id E). lia.
  - intros t Hin. apply in_app_or in Hin. destruct Hin as [Hin | [<- | []]]; [auto |].
    unfold is_save. simpl. split.
    + destruct task; try discriminate.
    + intro E. specialize (F _ E). lia.
  - intros t Hin. apply in_app_or in Hin. destruct Hin as [Hin | [<- | []]]; [auto |].
    unfold is_broadcast. simpl. split.
    + destruct task; try discriminate.
    + intro E. specialize (G _ E). lia.
Qed.

Lemma clear_slot_run slot w :
  clear_slot slot w =
  (Ok tt, upd_env (fun e => with_timers (without_slot slot (timers e)) (next_timer e) e) w).
Proof.
  unfold clear_slot, without_slot. destruct slot as [id |].
  - destruct (Nat.eqb id 0); simpl; [destruct w as [? ? ? [] ?] |]; reflexivity.
  - destruct w as [? ? ? [] ?]; reflexivity.
Qed.

Lemma without_slot_In slot l t : In t (without_slot slot l) -> In t l.
Proof.
  unfold without_slot. destruct slot as [id |]; [| auto].
  destruct (Nat.eqb id 0); [auto | apply filter_In_sub].
Qed.

Lemma without_slot_drops id l t :
  0 < t_id t -> In t (without_slot (Some id) l) -> t_id t <> id.
Proof.
  unfold without_slot. intros Hp Hin.
  destruct (Nat.eqb_spec id 0) as [-> | Hne]; [lia |].
  apply filter_In in Hin. destruct Hin as [_ Hin].
  destruct (Nat.eqb_spec (t_id t) id); [discriminate | assumption].
Qed.

Lemma without_slot_keeps slot l t :
  In t l -> Some (t_id t) <> slot -> In t (without_slot slot l).
Proof.
  unfold without_slot. intros Hin Hne. destruct slot as [id |]; [| exact Hin].
  destruct (Nat.eqb id 0); [exact Hin |].
  apply filter_In. split; [exact Hin |].
  destruct (Nat.eqb_spec (t_id t) id); [congruence | reflexivity].
Qed.

Lemma NoDup_without_slot slot l :
  NoDup (map t_id l) -> NoDup (map t_id (without_slot slot l)).
Proof.
  unfold without_slot. intro H. destruct slot as [id |]; [| exact H].
  destruct (Nat.eqb id 0); [exact H | apply NoDup_map_filter, H].
Qed.

Lemma persist_listener_run st w :
  Zustand.persist_listener st w =
  (Ok tt,
   upd_mw (with_saveTimeout (Some (next_timer (env w))))
     (upd_env
        (with_timers
           (without_slot (saveTimeout (mw w)) (timers (env w))
            ++ [mkTimer (next_timer (env w)) 100 (now (env w) + 100) (TSave st)])
           (S (next_timer (env w))))
        w)).
Proof.
  unfold Zustand.persist_listener. rewrite bind_gets.
  unfold bind at 1. rewrite clear_slot_run.
  destruct w as [s m i [] tr]. reflexivity.
Qed.

Lemma filter_none {A} (p : A -> bool) l :
  (forall x, In x l -> p x = false) -> filter p l = [].
Proof.
  induction l as [| a l IH]; simpl; intro H; [reflexivity |].
  rewrite (H a (or_introl eq_refl)). apply IH. intros x Hx. apply H. right. exact Hx.
Qed.

(** After the saving listener: one pending save, for the state it was
    called with, due 100 ms later. *)
Lemma persist_listener_slots st w :
  slots w ->
  let w' := exec (Zustand.persist_listener st) w in
  slots w'
  /\ pending_saves w'
     = [mkTimer (next_timer (env w)) 100 (now (env w) + 100) (TSave st)]
  /\ now (env w') = now (env w).
Proof.
  intros [A B C D F G H I]. cbv zeta. unfold exec.
  rewrite persist_listener_run. cbn [snd].
  assert (NS : forall t, In t (without_slot (saveTimeout (mw w)) (timers (env w))) ->
                         is_save t = false).
  { intros t Hin. pose proof (without_slot_In _ _ _ Hin) as Hin0.
    destruct (is_save t) eqn:Es; [| reflexivity].
    apply (H t Hin0) in Es. rewrite Es in Hin.
    exfalso. exact (without_slot_drops _ _ _ (B t Hin0) Hin eq_refl). }
  split; [| split; [| reflexivity]].
  - split; cbn.
    + lia.
    + intros t Hin. apply in_app_or in Hin. destruct Hin as [Hin | [<- | []]].
      * apply B. eapply without_slot_In, Hin.
      * simpl. lia.
    + intros t Hin. apply in_app_or in Hin. destruct Hin as [Hin | [<- | []]].
      * apply without_slot_In in Hin. specialize (C t Hin). lia.
      * simpl. lia.
    + rewrite map_app. simpl. apply NoDup_snoc; [apply NoDup_without_slot, D |].
      intro Hin. apply in_map_iff in Hin. destruct Hin as [t [E Ht]].
      apply without_slot_In in Ht. specialize (C t Ht). lia.
    + intros id E. injection E as <-. lia.
    + intros id E. specialize (G id E). lia.
    + intros t Hin. apply in_app_or in Hin. destruct Hin as [Hin | [<- | []]].
      * rewrite (NS t Hin). split; [discriminate |].
        intro E. injection E as E. apply without_slot_In in Hin.
        specialize (C t Hin). lia.
      * simpl. split; reflexivity.
    + intros t Hin. apply in_app_or in Hin. destruct Hin as [Hin | [<- | []]].
      * apply I. eapply without_slot_In, Hin.
      * unfold is_broadcast. simpl. split; [discriminate |].
        intro E. specialize (G _ E). lia.
  - unfold pending_saves. cbn. rewrite filter_app, (filter_none _ _ NS). reflexivity.
Qed.

Lemma broadcastState_cases st w :
  snd (Echo.broadcastState st w) = w
  \/ exists h,
       channel (this w) <> None
       /\ sync_opt (options (this w)) = true
       /\ JSON_stringify st = Ok h
       /\ hash_is h (lastSyncHash (this w)) = false
       /\ Echo.broadcastState st w =
          (Ok tt,
           upd_this (with_syncTimeout (Some (next_timer (env w))))
             (upd_env
                (with_timers
                   (without_slot (syncTimeout (this w)) (timers (env w))
                    ++ [mkTimer (next_timer (env w)) Echo.SAVE_DELAY
                          (now (env w) + Echo.SAVE_DELAY) (TBroadcast st h)])
                   (S (next_timer (env w))))
                w)).
Proof.
  unfold Echo.broadcastState, Echo.getStateHash, lift. rewrite bind_gets.
  destruct (channel (this w)) as [c |] eqn:Ec; [| left; reflexivity].
  destruct (sync_opt (options (this w))) eqn:Es; [| left; reflexivity].
  cbn [is_some negb orb]. unfold bind at 1.
  destruct (JSON_stringify st) as [h | e] eqn:Eh; [| left; reflexivity].
  destruct (hash_is h (lastSyncHash (this w))) eqn:El; [left; reflexivity |].
  right. exists h. repeat split; try assumption; try discriminate.
  unfold try_catch. unfold bind at 1. rewrite El.
  unfold bind at 1. rewrite clear_slot_run.
  destruct w as [s m i [] tr]. reflexivity.
Qed.

Lemma filter_without_slot (p : Timer -> bool) slot l :
  (forall t, In t l -> Some (t_id t) = slot -> p t = false) ->
  filter p (without_slot slot l) = filter p l.
Proof.
  unfold without_slot. intro H. destruct slot as [id |]; [| reflexivity].
  destruct (Nat.eqb id 0); [reflexivity |].
  induction l as [| t l IH]; simpl; [reflexivity |].
  destruct (Nat.eqb_spec (t_id t) id) as [E | Hne]; simpl.
  - rewrite (H t (or_introl eq_refl)) by (rewrite E; reflexivity).
    apply IH. intros t' Hin. apply H. right. exact Hin.
  - destruct (p t); [f_equal |]; apply IH; intros t' Hin; apply H; right; exact Hin.
Qed.

Lemma broadcastState_slots st w :
  slots w ->
  let w' := exec (Echo.broadcastState st) w in
  slots w' /\ pending_saves w' = pending_saves w.
Proof.
  intros Hs. cbv zeta. unfold exec.
  destruct (broadcastState_cases st w) as [-> | [h [_ [_ [_ [_ ->]]]]]]; [auto |].
  destruct Hs as [A B C D F G H I]. cbn [snd].
  assert (NB : forall t, In t (without_slot (syncTimeout (this w)) (timers (env w))) ->
                         is_broadcast t = false).
  { intros t Hin. pose proof (without_slot_In _ _ _ Hin) as Hin0.
    destruct (is_broadcast t) eqn:Es; [| reflexivity].
    apply (I t Hin0) in Es. rewrite Es in Hin.
    exfalso. exact (without_slot_drops _ _ _ (B t Hin0) Hin eq_refl). }
  split.
  - split; cbn.
    + lia.
    + intros t Hin. apply in_app_or in Hin. destruct Hin as [Hin | [<- | []]].
      * apply B. eapply without_slot_In, Hin.
      * simpl. lia.
    + intros t Hin. apply in_app_or in Hin. destruct Hin as [Hin | [<- | []]].
      * apply without_slot_In in Hin. specialize (C t Hin). lia.
      * simpl. lia.
    + rewrite map_app. simpl. apply NoDup_snoc; [apply NoDup_without_slot, D |].
      intro Hin. apply in_map_iff in Hin. destruct Hin as [t [E Ht]].
      apply without_slot_In in Ht. specialize (C t Ht). lia.
    + intros id E. specialize (F id E). lia.
    + intros id E. injection E as <-. lia.
    + intros t Hin. apply in_app_or in Hin. destruct Hin as [Hin | [<- | []]].
      * apply H. eapply without_slot_In, Hin.
      * unfold is_save. simpl. split; [discriminate |].
        intro E. specialize (F _ E). lia.
    + intros t Hin. apply in_app_or in Hin. destruct Hin as [Hin | [<- | []]].
      * rewrite (NB t Hin). split; [discriminate |].
        intro E. injection E as E. apply without_slot_In in Hin.
        specialize (C t Hin). lia.
      * simpl. split; reflexivity.
  - unfold pending_saves. cbn. rewrite filter_app. cbn. rewrite app_nil_r.
    apply filter_without_slot. intros t Hin E.
    destruct (is_save t) eqn:Es; [| reflexivity].
    assert (Hb : is_broadcast t = true) by (apply (I t Hin); symmetry; exact E).
    unfold is_save in Es. unfold is_broadcast in Hb.
    destruct (t_task t); discriminate.
Qed.

Lemma broadcastState_keeps_slots st : preserves (keeps slots) (Echo.broadcastState st).
Proof. intros w Hs. apply (broadcastState_slots st w Hs). Qed.

Lemma persist_listener_keeps_slots st :
  preserves (keeps slots) (Zustand.persist_listener st).
Proof. intros w Hs. apply (persist_listener_slots st w Hs). Qed.

Ltac slots_atom :=
  first
    [ apply clearTimeout_slots
    | apply setTimeout_slots; reflexivity
    | apply slots_same_keeps;
      first [ solve [atom_same]
            | apply setItem_same; intros; reflexivity ] ].

Ltac slots_frame :=
  repeat first
    [ lazymatch goal with
      | |- preserves _ (Echo.broadcastState _) => apply broadcastState_keeps_slots
      | |- preserves _ (Zustand.persist_listener _) => apply persist_listener_keeps_slots
      | |- preserves ?R (Zustand.notify _ _ _) =>
          apply (@notify_preserves R _); intros; unfold Zustand.call_listener
      | |- preserves _ (clearTimeout _) => apply clearTimeout_slots
      end
    | frame_step | storage_atom | progress unfold_but_broadcast ];
  try solve [slots_atom].

Lemma step_slots a : preserves (keeps slots) (step a).
Proof.
  destruct a; cbn [step];
    [ | | | | | | apply (@message_preserves (keeps slots) _)
    | apply (@fire_preserves (keeps slots) _); intro | ];
    slots_frame.
  all: try (destruct (t_task t); cbn [Echo.run_task]; slots_frame).
  all: unfold Echo.broadcast_timer; slots_frame.
Qed.

(** ** Hydration and saving *)

Lemma getItem_run w :
  be_open_fails (backend (env w)) = false ->
  be_read_fails (backend (env w)) = false ->
  IndexedDBStorage.getItem w
  = (Ok (match be_record (backend (env w)) with Some v => v | None => JNull end), w).
Proof.
  intros Ho Hr. unfold IndexedDBStorage.getItem, IndexedDBStorage.waitForDB, bind.
  rewrite Ho, Hr. reflexivity.
Qed.

Lemma waitForDB_run w :
  be_open_fails (backend (env w)) = false -> IndexedDBStorage.waitForDB w = (Ok tt, w).
Proof. intro Ho. unfold IndexedDBStorage.waitForDB. rewrite Ho. reflexivity. Qed.

Lemma initializeState_unfold w :
  isInitialized (mw w) = false ->
  be_open_fails (backend (env w)) = false ->
  be_read_fails (backend (env w)) = false ->
  IndexedDBMiddleware.initializeState w =
  async
    (try_catch
       (let savedState :=
          match be_record (backend (env w)) with Some v => v | None => JNull end in
        if negb (IndexedDBMiddleware.is_null savedState) then
          modify (upd_mw (with_isHydrating true)) ;;
          Zustand.setState (PValue savedState) (Some true) ;;
          modify (upd_mw (with_isHydrating false)) ;;
          modify (emit (EvRehydrated savedState)) ;;
          modify (upd_mw (with_isInitialized true))
        else
          st <- Zustand.getState ;;
          IndexedDBStorage.setItem st ;;
          modify (emit (EvRehydrated JNull)) ;;
          modify (upd_mw (with_isInitialized true)))
       (fun _ =>
          modify (emit (EvError MsgLoadFailed)) ;;
          modify (emit (EvRehydrated JNull)))) w.
Proof.
  intros Hi Ho Hr.
  unfold IndexedDBMiddleware.initializeState, async. rewrite bind_gets, Hi.
  unfold try_catch. unfold bind at 1. rewrite (waitForDB_run w Ho).
  unfold bind at 1. rewrite (getItem_run w Ho Hr). reflexivity.
Qed.

Lemma initializeState_seed_run w :
  isInitialized (mw w) = false ->
  be_read_fails (backend (env w)) = false ->
  be_record (backend (env w)) = None ->
  can_write (backend (env w)) ->
  IndexedDBMiddleware.initializeState w =
  (Ok tt,
   upd_mw (with_isInitialized true)
     (emit (EvRehydrated JNull)
        (emit (EvWrite (state (store w)) true)
           (upd_env (with_backend
              (mkBackend (Some (state (store w))) false
                 (be_read_fails (backend (env w)))
                 (tl (be_write_script (backend (env w)))))) w)))).
Proof.
  intros Hi Hr Hrec [Ho Hs].
  rewrite (initializeState_unfold w Hi Ho Hr), Hrec. cbn [IndexedDBMiddleware.is_null negb].
  unfold async, try_catch, Zustand.getState. rewrite bind_gets.
  unfold bind at 1. rewrite (setItem_succeeds _ w Ho Hs). reflexivity.
Qed.

Lemma initializeState_seed_failure_run w rest :
  isInitialized (mw w) = false ->
  be_open_fails (backend (env w)) = false ->
  be_read_fails (backend (env w)) = false ->
  be_record (backend (env w)) = None ->
  be_write_script (backend (env w)) = true :: rest ->
  IndexedDBMiddleware.initializeState w =
  (Ok tt,
   emit (EvRehydrated JNull)
     (emit (EvError MsgLoadFailed)
        (emit (EvWrite (state (store w)) false)
           (upd_env (with_backend
              (mkBackend (be_record (backend (env w))) false
                 (be_read_fails (backend (env w))) rest)) w)))).
Proof.
  intros Hi Ho Hr Hrec Hs.
  rewrite (initializeState_unfold w Hi Ho Hr), Hrec. cbn [IndexedDBMiddleware.is_null negb].
  unfold async, try_catch, Zustand.getState. rewrite bind_gets.
  unfold bind at 1. rewrite (setItem_fails _ rest w Ho Hs), Hrec. reflexivity.
Qed.

(** With no record in the database the hydration writes the current state
    as the first record. *)
Theorem hydration_seeds_the_database (w : World) :
  isInitialized (mw w) = false ->
  be_read_fails (backend (env w)) = false ->
  be_record (backend (env w)) = None ->
  can_write (backend (env w)) ->
  let w' := exec IndexedDBMiddleware.initializeState w in
  be_record (backend (env w')) = Some (state (store w))
  /\ state (store w') = state (store w)
  /\ isInitialized (mw w') = true
  /\ trace w' = trace w ++ [EvWrite (state (store w)) true; EvRehydrated JNull]
  /\ timers (env w') = timers (env w).
Proof.
  intros Hi Hr Hrec Hw. cbv zeta. unfold exec.
  rewrite (initializeState_seed_run w Hi Hr Hrec Hw). cbn.
  rewrite <- app_assoc. repeat split.
Qed.

Lemma hydration_seeds_the_database_witness :
  let w := Echo.new_Echo (Demo.count 0)
             (mkOptions (Some "s") (Some indexedDB) None false)
             (Echo.new_env Demo.healthy true) in
  be_record (backend (env (exec IndexedDBMiddleware.initializeState w)))
  = Some (Demo.count 0).
Proof.
  cbv zeta.
  apply (hydration_seeds_the_database
           (Echo.new_Echo (Demo.count 0)
              (mkOptions (Some "s") (Some indexedDB) None false)
              (Echo.new_env Demo.healthy true)));
    [reflexivity | reflexivity | reflexivity | split; [reflexivity | left; reflexivity]].
Defined.

(** When that first write fails the store goes on with its state and is
    not marked as initialised. *)
Theorem hydration_seed_failure (w : World) (rest : list bool) :
  isInitialized (mw w) = false ->
  be_open_fails (backend (env w)) = false ->
  be_read_fails (backend (env w)) = false ->
  be_record (backend (env w)) = None ->
  be_write_script (backend (env w)) = true :: rest ->
  let w' := exec IndexedDBMiddleware.initializeState w in
  be_record (backend (env w')) = None
  /\ state (store w') = state (store w)
  /\ isInitialized (mw w') = false
  /\ errors (trace w') = errors (trace w) ++ [MsgLoadFailed].
Proof.
  intros Hi Ho Hr Hrec Hs. cbv zeta. unfold exec.
  rewrite (initializeState_seed_failure_run w rest Hi Ho Hr Hrec Hs). cbn.
  rewrite !errors_app. cbn. rewrite !app_nil_r.
  split; [exact Hrec | split; [reflexivity | split; [exact Hi | reflexivity]]].
Qed.

Lemma hydration_seed_failure_witness :
  let w := Echo.new_Echo (Demo.count 0)
             (mkOptions (Some "s") (Some indexedDB) None false)
             (Echo.new_env (mkBackend None false false [true]) true) in
  let w' := exec IndexedDBMiddleware.initializeState w in
  be_record (backend (env w')) = None
  /\ state (store w') = Demo.count 0
  /\ isInitialized (mw w') = false
  /\ errors (trace w') = [MsgLoadFailed].
Proof.
  apply (hydration_seed_failure
           (Echo.new_Echo (Demo.count 0)
              (mkOptions (Some "s") (Some indexedDB) None false)
              (Echo.new_env (mkBackend None false false [true]) true))
           []); reflexivity.
Defined.

Lemma is_null_false v : v <> JNull -> IndexedDBMiddleware.is_null v = false.
Proof. destruct v; try reflexivity. contradiction. Qed.

(** The world in which the hydration commits the record. *)
Lemma initializeState_load_run w saved :
  isInitialized (mw w) = false ->
  be_open_fails (backend (env w)) = false ->
  be_read_fails (backend (env w)) = false ->
  be_record (backend (env w)) = Some saved ->
  saved <> JNull ->
  let w0 := upd_mw (with_isHydrating true) w in
  let w1 := exec (Zustand.setState (PValue saved) (Some true)) w0 in
  IndexedDBMiddleware.initializeState w =
  (Ok tt,
   match outcome (Zustand.setState (PValue saved) (Some true)) w0 with
   | Ok _ =>
       upd_mw (with_isInitialized true)
         (emit (EvRehydrated saved) (upd_mw (with_isHydrating false) w1))
   | Thrown _ =>
       emit (EvRehydrated JNull) (emit (EvError MsgLoadFailed) w1)
   end).
Proof.
  intros Hi Ho Hr Hrec Hn. cbv zeta. unfold exec, outcome.
  rewrite (initializeState_unfold w Hi Ho Hr), Hrec. cbv zeta.
  rewrite (is_null_false _ Hn).
  cbn [negb]. unfold async, try_catch.
  unfold bind at 1, modify at 1. unfold bind at 1.
  destruct (Zustand.setState (PValue saved) (Some true)
              (upd_mw (with_isHydrating true) w)) as [[[] | e] w1]; reflexivity.
Qed.

(** With a record in the database the hydration replaces the state by it,
    whatever the state was; if a subscriber throws meanwhile the store is
    left hydrating for good. *)
Theorem hydration_replaces_the_state (w : World) (saved : JVal) :
  isInitialized (mw w) = false ->
  be_open_fails (backend (env w)) = false ->
  be_read_fails (backend (env w)) = false ->
  be_record (backend (env w)) = Some saved ->
  saved <> JNull ->
  let w' := exec IndexedDBMiddleware.initializeState w in
  state (store w') = saved
  /\ writes (trace w') = writes (trace w)
  /\ (listeners_return w ->
      isInitialized (mw w') = true /\ isHydrating (mw w') = false)
  /\ (forall e,
        outcome (Zustand.setState (PValue saved) (Some true))
                (upd_mw (with_isHydrating true) w) = Thrown e ->
        isInitialized (mw w') = false /\ isHydrating (mw w') = true).
Proof.
  intros Hi Ho Hr Hrec Hn. cbv zeta. unfold exec.
  rewrite (initializeState_load_run w saved Hi Ho Hr Hrec Hn). cbn [snd].
  set (w0 := upd_mw (with_isHydrating true) w).
  set (w1 := exec (Zustand.setState (PValue saved) (Some true)) w0).
  assert (S1 : state (store w1) = saved)
    by apply (setState_state (PValue saved) (Some true) saved w0 eq_refl).
  assert (W1 : writes (trace w1) = writes (trace w)).
  { change (trace w) with (trace w0). apply grows_writes.
    apply (grows_weaken is_listener_event); [intros [] H; simpl in *; tauto |].
    apply setState_trace. }
  assert (M1 : (isInitialized (mw w1), isHydrating (mw w1)) = (false, true)).
  { assert (F : preserves (same (fun w => (isInitialized (mw w), isHydrating (mw w))))
                  (Zustand.setState (PValue saved) (Some true)))
      by frame_with atom_same.
    etransitivity; [apply (F w0) |]. simpl. rewrite Hi. reflexivity. }
  injection M1 as M1 M2.
  split; [| split; [| split]].
  - destruct (outcome _ w0); simpl; exact S1.
  - destruct (outcome _ w0); simpl; rewrite ?writes_app; simpl;
      rewrite ?app_nil_r; exact W1.
  - intro Hq.
    rewrite (setState_ok (PValue saved) (Some true) saved w0 eq_refl Hq).
    split; reflexivity.
  - intros e He. rewrite He. simpl. split; assumption.
Qed.

Lemma hydration_replaces_the_state_witness :
  state (store (exec IndexedDBMiddleware.initializeState Demo.persisted))
  = JObj [("a", JNum 1)].
Proof.
  apply (hydration_replaces_the_state Demo.persisted (JObj [("a", JNum 1)]));
    [reflexivity | reflexivity | reflexivity | reflexivity | discriminate].
Defined.

(** When the database cannot be opened or read, the hydration leaves the
    state, the timers and the database alone and logs the failure; once
    the store is initialised it does nothing at all. *)
Theorem hydration_failure_keeps_the_state (w : World) :
  (isInitialized (mw w) = true ->
   IndexedDBMiddleware.initializeState w = (Ok tt, w))
  /\ (isInitialized (mw w) = false ->
      be_open_fails (backend (env w)) = true
      \/ be_read_fails (backend (env w)) = true ->
      IndexedDBMiddleware.initializeState w
      = (Ok tt, emit (EvRehydrated JNull) (emit (EvError MsgLoadFailed) w))).
Proof.
  split.
  - intro Hi. unfold IndexedDBMiddleware.initializeState, async.
    rewrite bind_gets, Hi. reflexivity.
  - intros Hi Hf. unfold IndexedDBMiddleware.initializeState, async.
    rewrite bind_gets, Hi. unfold try_catch. unfold bind at 1.
    unfold IndexedDBStorage.waitForDB at 1.
    destruct (be_open_fails (backend (env w))) eqn:Ho; [reflexivity |].
    destruct Hf as [Hf | Hf]; [discriminate Hf |].
    unfold bind at 1, IndexedDBStorage.getItem, IndexedDBStorage.waitForDB.
    unfold bind at 1. rewrite Ho, Hf. reflexivity.
Qed.

Lemma hydration_failure_keeps_the_state_witness :
  let w := Echo.new_Echo (Demo.count 0)
             (mkOptions (Some "s") (Some indexedDB) None false)
             (Echo.new_env (mkBackend (Some (Demo.count 9)) true false []) true) in
  IndexedDBMiddleware.initializeState w
  = (Ok tt, emit (EvRehydrated JNull) (emit (EvError MsgLoadFailed) w)).
Proof.
  cbv zeta.
  apply (proj2 (hydration_failure_keeps_the_state
           (Echo.new_Echo (Demo.count 0)
              (mkOptions (Some "s") (Some indexedDB) None false)
              (Echo.new_env (mkBackend (Some (Demo.count 9)) true false []) true))));
    [reflexivity | left; reflexivity].
Defined.

Lemma saveState_skip st w :
  (exists h, JSON_stringify st = Ok h /\ lastSavedState (mw w) = Some h)
  \/ isHydrating (mw w) = true
  \/ (exists e, JSON_stringify st = Thrown e) ->
  IndexedDBMiddleware.saveState st w = (Ok tt, w).
Proof.
  intros H. unfold IndexedDBMiddleware.saveState, async, lift. unfold bind at 1.
  destruct (JSON_stringify st) as [h | e] eqn:Eh; [| reflexivity].
  rewrite bind_gets.
  destruct H as [[h' [Hh Hl]] | [Hy | [e He]]].
  - injection Hh as <-. rewrite Hl. cbn [hash_is]. rewrite Hash_eqb_refl. reflexivity.
  - rewrite Hy, orb_true_r. reflexivity.
  - discriminate He.
Qed.

Lemma saveState_run_success st h w :
  JSON_stringify st = Ok h ->
  hash_is h (lastSavedState (mw w)) = false ->
  isHydrating (mw w) = false ->
  can_write (backend (env w)) ->
  IndexedDBMiddleware.saveState st w =
  (Ok tt,
   emit (EvWrite st true)
     (upd_env (with_backend
        (mkBackend (Some st) false (be_read_fails (backend (env w)))
           (tl (be_write_script (backend (env w))))))
        (upd_mw (with_lastSavedState (Some h)) w))).
Proof.
  intros Hh Hl Hy [Ho Hs].
  unfold IndexedDBMiddleware.saveState, async, lift.
  unfold bind at 1. rewrite Hh. rewrite bind_gets, Hl, Hy. cbn [orb].
  unfold bind at 1, modify at 1, try_catch.
  rewrite (setItem_succeeds st (upd_mw (with_lastSavedState (Some h)) w) Ho Hs).
  reflexivity.
Qed.

(** A save that goes through stores the state and remembers its hash, so
    that saving the same content again sends no request; while the store
    is hydrating, or for a state without JSON text, no request is sent
    either. *)
Theorem saveState_writes_new_content_once (st : JVal) (h : Hash) (w : World) :
  JSON_stringify st = Ok h ->
  hash_is h (lastSavedState (mw w)) = false ->
  isHydrating (mw w) = false ->
  can_write (backend (env w)) ->
  let w' := exec (IndexedDBMiddleware.saveState st) w in
  be_record (backend (env w')) = Some st
  /\ writes (trace w') = writes (trace w) ++ [(st, true)]
  /\ lastSavedState (mw w') = Some h
  /\ IndexedDBMiddleware.saveState st w' = (Ok tt, w')
  /\ (forall w0 st0, isHydrating (mw w0) = true ->
        IndexedDBMiddleware.saveState st0 w0 = (Ok tt, w0)).
Proof.
  intros Hh Hl Hy Hw. cbv zeta. unfold exec.
  rewrite (saveState_run_success st h w Hh Hl Hy Hw). cbn [snd].
  split; [reflexivity | split; [| split; [reflexivity | split]]].
  - cbn. rewrite writes_app. reflexivity.
  - apply saveState_skip. left. exists h. split; [exact Hh | reflexivity].
  - intros w0 st0 H0. apply saveState_skip. right. left. exact H0.
Qed.

Lemma saveState_writes_new_content_once_witness :
  let w' := exec (IndexedDBMiddleware.saveState (Demo.count 1)) Demo.persisted in
  be_record (backend (env w')) = Some (Demo.count 1)
  /\ writes (trace w') = [(Demo.count 1, true)]
  /\ IndexedDBMiddleware.saveState (Demo.count 1) w' = (Ok tt, w').
Proof.
  destruct (saveState_writes_new_content_once (Demo.count 1)
              (Demo.hash_of (Demo.count 1)) Demo.persisted)
    as [R [W [_ [A _]]]];
    [reflexivity | reflexivity | reflexivity | split; [reflexivity | left; reflexivity] |].
  split; [exact R | split; [exact W | exact A]].
Defined.

(** ** From one window to the other *)

Lemma bind_modify {B} (f : World -> World) (k : unit -> M B) w :
  bind (modify f) k w = k tt (f w).
Proof. reflexivity. Qed.

Lemma envelope_valid st t :
  Echo.validateStateUpdate (Echo.envelope st t) = Ok true
  /\ member "state" (Echo.envelope st t) = st.
Proof. split; reflexivity. Qed.

Lemma broadcast_timer_posts st h w :
  posts (trace (exec (Echo.broadcast_timer st h) w))
  = posts (trace w)
    ++ match channel (this w) with
       | Some _ => [Echo.envelope st (now (env w))]
       | None => []
       end.
Proof.
  unfold exec, Echo.broadcast_timer. rewrite bind_gets.
  destruct (channel (this w)); cbn.
  - rewrite posts_app. reflexivity.
  - rewrite app_nil_r. reflexivity.
Qed.

Lemma onmessage_known data h w :
  Echo.validateStateUpdate data = Ok true ->
  JSON_stringify (member "state" data) = Ok h ->
  lastSyncHash (this w) = Some h ->
  Echo.onmessage data w = (Ok tt, w).
Proof.
  intros Hv Hh Hl.
  unfold Echo.onmessage, Echo.onmessage_body, async, try_catch, Echo.getStateHash, lift.
  unfold bind at 1. rewrite Hv.
  unfold bind at 1. rewrite Hh. rewrite bind_gets, Hl.
  cbn [hash_is]. rewrite Hash_eqb_refl. reflexivity.
Qed.

(** From one window to the other: what the broadcast timer of the sender
    posts is an envelope the receiver accepts; the receiver ends up with
    the state and the hash of the sender, posts nothing in return, and a
    second delivery of the same message changes nothing. *)
Theorem posted_state_reaches_the_receiver
    (sender receiver : World) (c : nat) (st : JVal) (h : Hash) :
  channel (this sender) = Some c ->
  JSON_stringify st = Ok h ->
  hash_is h (lastSyncHash (this receiver)) = false ->
  Echo.is_indexedDB (options (this receiver)) = false ->
  let message := Echo.envelope st (now (env sender)) in
  let receiver' := exec (Echo.onmessage message) receiver in
  posts (trace (exec (Echo.broadcast_timer st h) sender))
  = posts (trace sender) ++ [message]
  /\ state (store receiver') = st
  /\ lastSyncHash (this receiver') = Some h
  /\ posts (trace receiver') = posts (trace receiver)
  /\ Echo.onmessage message receiver' = (Ok tt, receiver').
Proof.
  intros Hc Hh Hl Hi message receiver'.
  assert (E : Echo.onmessage message receiver
              = Echo.onmessage_resume message h receiver).
  { apply onmessage_applies; [reflexivity | exact Hh | exact Hl | exact Hi]. }
  destruct (onmessage_resume_commits message h receiver) as [L S].
  unfold exec in L, S. rewrite <- E in L, S.
  split; [| split; [| split; [| split]]].
  - rewrite broadcast_timer_posts, Hc. reflexivity.
  - exact S.
  - exact L.
  - apply grows_posts, onmessage_trace.
  - apply (onmessage_known message h); [reflexivity | exact Hh | exact L].
Qed.

Lemma posted_state_reaches_the_receiver_witness :
  let message := Echo.envelope (Demo.count 7) (now (env Demo.synced)) in
  let receiver' := exec (Echo.onmessage message) Demo.synced in
  posts (trace (exec (Echo.broadcast_timer (Demo.count 7)
                        (Demo.hash_of (Demo.count 7))) Demo.synced))
  = posts (trace Demo.synced) ++ [message]
  /\ state (store receiver') = Demo.count 7
  /\ lastSyncHash (this receiver') = Some (Demo.hash_of (Demo.count 7))
  /\ posts (trace receiver') = posts (trace Demo.synced)
  /\ Echo.onmessage message receiver' = (Ok tt, receiver').
Proof.
  apply (posted_state_reaches_the_receiver Demo.synced Demo.synced 1
           (Demo.count 7) (Demo.hash_of (Demo.count 7))); reflexivity.
Defined.

(** On an IndexedDB store the handler only schedules the rest. *)
Lemma onmessage_deferred data h w :
  Echo.validateStateUpdate data = Ok true ->
  JSON_stringify (member "state" data) = Ok h ->
  hash_is h (lastSyncHash (this w)) = false ->
  Echo.is_indexedDB (options (this w)) = true ->
  Echo.onmessage data w =
  (Ok tt,
   upd_env (with_timers
              (timers (env w)
               ++ [mkTimer (next_timer (env w)) Echo.SYNC_DELAY
                     (now (env w) + Echo.SYNC_DELAY) (TInbound data h)])
              (S (next_timer (env w)))) w).
Proof.
  intros Hv Hh Hl Hi.
  unfold Echo.onmessage, Echo.onmessage_body, async, try_catch, Echo.getStateHash, lift.
  unfold bind at 1. rewrite Hv.
  unfold bind at 1. rewrite Hh. rewrite bind_gets, Hl, Hi. reflexivity.
Qed.

Lemma find_timer_fresh w t :
  (forall t', In t' (timers (env w)) -> t_id t' <> t_id t) ->
  Echo.find_timer (t_id t)
    (upd_env (with_timers (timers (env w) ++ [t]) (S (next_timer (env w)))) w)
  = Some t.
Proof.
  intro Hf. unfold Echo.find_timer. cbn [env upd_env timers with_timers].
  induction (timers (env w)) as [| t' l IH]; simpl.
  - rewrite Nat.eqb_refl. reflexivity.
  - destruct (Nat.eqb_spec (t_id t') (t_id t)) as [E | _].
    + exfalso. apply (Hf t'); [left; reflexivity | exact E].
    + apply IH. intros t'' Hin. apply Hf. right. exact Hin.
Qed.

(** On an IndexedDB store an accepted message is not applied at once: the
    handler leaves the state and [lastSyncHash] alone and schedules the
    rest [SYNC_DELAY] later; when that timer expires the state of the
    message is committed and its hash stored. *)
Theorem inbound_is_deferred_on_indexedDB (data : JVal) (h : Hash) (w : World) :
  Echo.validateStateUpdate data = Ok true ->
  JSON_stringify (member "state" data) = Ok h ->
  hash_is h (lastSyncHash (this w)) = false ->
  Echo.is_indexedDB (options (this w)) = true ->
  (forall t, In t (timers (env w)) -> t_id t < next_timer (env w)) ->
  let w1 := exec (Echo.onmessage data) w in
  let w2 := exec (Echo.fire (next_timer (env w))) w1 in
  state (store w1) = state (store w)
  /\ lastSyncHash (this w1) = lastSyncHash (this w)
  /\ map (fun t => (t_delay t, t_task t)) (timers (env w1))
     = map (fun t => (t_delay t, t_task t)) (timers (env w))
       ++ [(Echo.SYNC_DELAY, TInbound data h)]
  /\ state (store w2) = member "state" data
  /\ lastSyncHash (this w2) = Some h.
Proof.
  intros Hv Hh Hl Hi Hids. cbv zeta. unfold exec.
  rewrite (onmessage_deferred data h w Hv Hh Hl Hi). cbn [snd].
  split; [reflexivity | split; [reflexivity | split]].
  - cbn. rewrite map_app. reflexivity.
  - assert (Ef : Echo.find_timer (next_timer (env w))
             (upd_env (with_timers
                (timers (env w)
                 ++ [mkTimer (next_timer (env w)) Echo.SYNC_DELAY
                       (now (env w) + Echo.SYNC_DELAY) (TInbound data h)])
                (S (next_timer (env w)))) w)
           = Some (mkTimer (next_timer (env w)) Echo.SYNC_DELAY
                     (now (env w) + Echo.SYNC_DELAY) (TInbound data h))).
    { apply (find_timer_fresh w
               (mkTimer (next_timer (env w)) Echo.SYNC_DELAY
                  (now (env w) + Echo.SYNC_DELAY) (TInbound data h))).
      intros t' Hin. specialize (Hids t' Hin). simpl. lia. }
    unfold Echo.fire. rewrite Ef.
    unfold clearTimeout. rewrite !bind_modify. cbn [t_task Echo.run_task].
    match goal with
    | |- context [Echo.onmessage_resume data h ?w0] =>
        destruct (onmessage_resume_commits data h w0) as [L S0]
    end.
    split; [exact S0 | exact L].
Qed.

Lemma inbound_is_deferred_on_indexedDB_witness :
  let w1 := exec (Echo.onmessage Demo.good_message) Demo.persisted in
  let w2 := exec (Echo.fire (next_timer (env Demo.persisted))) w1 in
  state (store w1) = JObj [("a", JNum 0); ("b", JNum 2)]
  /\ state (store w2) = Demo.count 7.
Proof.
  destruct (inbound_is_deferred_on_indexedDB Demo.good_message
              (Demo.hash_of (Demo.count 7)) Demo.persisted)
    as [S1 [_ [_ [S2 _]]]];
    [reflexivity | reflexivity | reflexivity | reflexivity
    | intros t [<- | []]; cbn; lia |].
  split; [exact S1 | exact S2].
Defined.

(** ** Debouncing: what a session and a commit leave pending *)

Lemma new_Echo_slots dv o b bc : slots (Echo.new_Echo dv o (Echo.new_env b bc)).
Proof.
  unfold Echo.new_Echo.
  assert (F : preserves (keeps slots)
    (when (Echo.has_storage o) Echo.await_storage ;;
     Echo.initialize ;;
     when (sync_opt o) (_ <- setTimeout TInitSync Echo.SYNC_DELAY ;; ret tt))).
  { unfold Echo.initialize, Echo.await_storage. slots_frame. }
  apply F. split; simpl; try contradiction; try discriminate; try lia.
  constructor.
Qed.

Lemma at_most_one {A} (f : A -> nat) (p : A -> bool) (c : nat) l :
  NoDup (map f l) ->
  (forall x, In x l -> p x = true -> f x = c) ->
  List.length (filter p l) <= 1.
Proof.
  induction l as [| a l IH]; simpl; intros Hd Hc; [lia |].
  inversion Hd as [| ? ? Hn Hd']; subst.
  destruct (p a) eqn:Ea.
  - rewrite (filter_none p l); [simpl; lia |].
    intros x Hx. destruct (p x) eqn:Ex; [| reflexivity].
    exfalso. apply Hn. apply in_map_iff. exists x. split; [| exact Hx].
    rewrite (Hc x (or_intror Hx) Ex), (Hc a (or_introl eq_refl) Ea). reflexivity.
  - apply IH; [exact Hd' |]. intros x Hx. apply Hc. right. exact Hx.
Qed.

Lemma run_slots actions dv o b bc :
  slots (run actions (Echo.new_Echo dv o (Echo.new_env b bc))).
Proof.
  apply (run_preserves (keeps slots) step_slots actions), new_Echo_slots.
Qed.

(** Debounce: at any moment at most one save is pending and at most one
    broadcast. *)
Theorem at_most_one_pending_save_and_broadcast
    (dv : JVal) (o : EchoOptions) (b : Backend) (bc : bool) (actions : list Action) :
  let w := run actions (Echo.new_Echo dv o (Echo.new_env b bc)) in
  List.length (pending_saves w) <= 1 /\ List.length (pending_broadcasts w) <= 1.
Proof.
  intro w.
  assert (Hs : slots w) by apply run_slots.
  destruct Hs as [A B C D F G H I]. split.
  - destruct (saveTimeout (mw w)) as [c |] eqn:Ec.
    + apply (at_most_one t_id is_save c); [exact D |].
      intros t Hin Hp. apply (H t Hin) in Hp. congruence.
    + unfold pending_saves. rewrite filter_none; [simpl; lia |].
      intros t Hin. destruct (is_save t) eqn:Es; [| reflexivity].
      apply (H t Hin) in Es. discriminate Es.
  - destruct (syncTimeout (this w)) as [c |] eqn:Ec.
    + apply (at_most_one t_id is_broadcast c); [exact D |].
      intros t Hin Hp. apply (I t Hin) in Hp. congruence.
    + unfold pending_broadcasts. rewrite filter_none; [simpl; lia |].
      intros t Hin. destruct (is_broadcast t) eqn:Es; [| reflexivity].
      apply (I t Hin) in Es. discriminate Es.
Qed.

(** *** A commit leaves one pending save, for the new state *)

Lemma user_listener_view id cb st prev :
  preserves (same (fun w => (timers (env w), next_timer (env w), saveTimeout (mw w),
                             syncTimeout (this w), now (env w))))
            (call_user_listener id cb st prev).
Proof. atom_same. Qed.

Lemma notify_saves st prev ls : forall w,
  (forall id cb, In (id, LUser cb) ls -> forall a b, cb_throws cb a b = false) ->
  slots w ->
  (exists id, pending_saves w = [mkTimer id 100 (now (env w) + 100) (TSave st)])
  \/ (exists i, In (i, LPersist) ls) ->
  let w' := snd (Zustand.notify ls st prev w) in
  slots w' /\ now (env w') = now (env w)
  /\ exists id, pending_saves w' = [mkTimer id 100 (now (env w) + 100) (TSave st)].
Proof.
  induction ls as [| [i l] rest IH]; intros w Hq Hs Hp; cbv zeta.
  - simpl. destruct Hp as [Hp | [i []]]. auto.
  - simpl.
    assert (Hl : fst (Zustand.call_listener i l st prev w) = Ok tt).
    { destruct l as [| cb]; simpl.
      - apply persist_listener_ok.
      - unfold call_user_listener. rewrite (Hq i cb); simpl; auto. }
    rewrite (bind_ok _ _ _ _ Hl).
    set (w1 := snd (Zustand.call_listener i l st prev w)).
    assert (H1 : slots w1 /\ now (env w1) = now (env w)
                 /\ ((exists id, pending_saves w1
                                 = [mkTimer id 100 (now (env w) + 100) (TSave st)])
                     \/ exists i', In (i', LPersist) rest)).
    { destruct l as [| cb].
      - destruct (persist_listener_slots st w Hs) as [S1 [P1 N1]].
        split; [exact S1 | split; [exact N1 | left; eexists; exact P1]].
      - pose proof (user_listener_view i cb st prev w) as V.
        unfold same in V.
        change (snd (call_user_listener i cb st prev w)) with w1 in V.
        injection V as V1 V2 V3 V4 V5.
        split; [| split; [exact V5 |]].
        + apply (slots_same w w1); [| exact Hs].
          unfold same, slot_view. congruence.
        + destruct Hp as [[id Hp] | [i' [Hp | Hp]]].
          * left. exists id. unfold pending_saves in *. rewrite V1. exact Hp.
          * discriminate Hp.
          * right. exists i'. exact Hp. }
    destruct H1 as [S1 [N1 P1]].
    rewrite <- N1 in P1. rewrite <- N1.
    assert (Hq' : forall id cb, In (id, LUser cb) rest ->
                                forall a b, cb_throws cb a b = false).
    { intros id cb Hin. apply (Hq id cb). right. exact Hin. }
    destruct (IH w1 Hq' S1 P1) as [S2 [N2 P2]].
    split; [exact S2 | split; [exact N2 | exact P2]].
Qed.

Lemma set_tail_saves (old : JVal) u :
  slots u ->
  let u' := snd
    ((newState <- Echo.current ;;
      ch <- gets (fun w => channel (this w)) ;;
      when (is_some ch) (Echo.broadcastState newState) ;;
      cb <- gets (fun w => onChange (options (this w))) ;;
      match cb with
      | Some f => call_onChange f newState old
      | None => ret tt
      end) u) in
  pending_saves u' = pending_saves u.
Proof.
  intros Hs. cbv zeta. unfold Echo.current, Zustand.getState. rewrite !bind_gets.
  apply (bind_post _ _ (fun u' => pending_saves u' = pending_saves u)).
  - destruct (is_some (channel (this u))); [| reflexivity].
    apply (broadcastState_slots _ u Hs).
  - intros [] u1 H1. rewrite <- H1.
    assert (F : preserves (same (fun w => timers (env w)))
      (cb <- gets (fun w => onChange (options (this w))) ;;
       match cb with
       | Some f => call_onChange f (state (store u)) old
       | None => ret tt
       end)) by frame_with atom_same.
    unfold pending_saves. rewrite (F u1). reflexivity.
Qed.

Lemma setState_saves partial r v w :
  slots w ->
  (exists i, In (i, LPersist) (listeners (store w))) ->
  listeners_return w ->
  Zustand.eval_partial partial (state (store w)) = Ok v ->
  let w1 := snd (Zustand.setState partial r w) in
  slots w1
  /\ exists id,
       pending_saves w1
       = [mkTimer id 100 (now (env w) + 100)
            (TSave (Zustand.next_state r (state (store w)) v))].
Proof.
  intros Hs Hp Hq Hv. cbv zeta. rewrite (setState_run _ _ _ _ Hv).
  set (new := Zustand.next_state r (state (store w)) v).
  destruct (notify_saves new (state (store w)) (listeners (store w))
              (upd_store (with_state new) w)) as [S [_ P]].
  - intros id cb Hin. apply (Hq id cb). exact Hin.
  - apply (slots_same w); [reflexivity | exact Hs].
  - right. exact Hp.
  - split; [exact S | exact P].
Qed.

(** After a [set] on a store that saves, when what the updater yields is
    not the state the store holds: exactly one save is pending, it
    carries the state just committed and is due 100 ms after the call,
    whatever was pending before.  (The container runs no listener for an
    updater that hands back the very object it holds, so such a call
    schedules nothing; a result that differs from the state as a value
    is never that object.) *)
Theorem set_leaves_one_pending_save
    (w : World) (partial : Partial) (replace : bool) (v : JVal) :
  slots w ->
  (exists i, In (i, LPersist) (listeners (store w))) ->
  listeners_return w ->
  Zustand.eval_partial partial (state (store w)) = Ok v ->
  v <> state (store w) ->
  exists id,
    pending_saves (exec (Echo.set partial replace) w)
    = [mkTimer id 100 (now (env w) + 100)
         (TSave (Zustand.next_state (replace_arg replace) (state (store w)) v))].
Proof.
  intros Hs Hp Hq Hv _. unfold exec. rewrite set_unfold.
  rewrite (bind_ok _ _ _ tt (setState_ok _ _ _ _ Hv Hq)).
  destruct (setState_saves partial (replace_arg replace) v w Hs Hp Hq Hv) as [S P].
  rewrite set_tail_saves; [exact P | exact S].
Qed.

Lemma set_leaves_one_pending_save_witness :
  let w := run [AFire 1] Demo.persisted in
  state (store w) = JObj [("a", JNum 1)]
  /\ map t_task (pending_saves w) = [TSave (JObj [("a", JNum 1)])]
  /\ exists id,
       pending_saves (exec (Echo.set (PValue (JObj [("b", JNum 5)])) false) w)
       = [mkTimer id 100 100 (TSave (JObj [("a", JNum 1); ("b", JNum 5)]))].
Proof.
  cbv zeta. split; [reflexivity | split; [reflexivity |]].
  apply (set_leaves_one_pending_save (run [AFire 1] Demo.persisted)
           (PValue (JObj [("b", JNum 5)])) false (JObj [("b", JNum 5)])).
  - apply run_slots.
  - exists 1%nat. left. reflexivity.
  - intros id cb [E | []]. discriminate E.
  - reflexivity.
  - discriminate.
Defined.

Lemma broadcastState_schedules st h c w :
  slots w ->
  channel (this w) = Some c ->
  sync_opt (options (this w)) = true ->
  JSON_stringify st = Ok h ->
  hash_is h (lastSyncHash (this w)) = false ->
  pending_broadcasts (exec (Echo.broadcastState st) w)
  = [mkTimer (next_timer (env w)) Echo.SAVE_DELAY
       (now (env w) + Echo.SAVE_DELAY) (TBroadcast st h)].
Proof.
  intros Hs Hc Ho Hh Hl. unfold exec.
  destruct (broadcastState_cases st w) as [E | [h' [_ [_ [Hh' [_ E]]]]]].
  - exfalso. revert E.
    unfold Echo.broadcastState, Echo.getStateHash, lift. rewrite bind_gets, Hc, Ho.
    cbn [is_some negb orb]. unfold bind at 1. rewrite Hh, Hl.
    unfold try_catch. unfold bind at 1. rewrite clear_slot_run.
    destruct w as [s m i [] tr]. cbn. intro E.
    injection E as E. lia.
  - rewrite Hh in Hh'. injection Hh' as <-. rewrite E. cbn [snd].
    destruct Hs as [A B C D F G H I].
    unfold pending_broadcasts. cbn. rewrite filter_app. cbn.
    rewrite filter_none; [reflexivity |].
    intros t Hin. pose proof (without_slot_In _ _ _ Hin) as Hin0.
    destruct (is_broadcast t) eqn:Es; [| reflexivity].
    apply (I t Hin0) in Es. rewrite Es in Hin.
    exfalso. exact (without_slot_drops _ _ _ (B t Hin0) Hin eq_refl).
Qed.

Lemma setState_keeps_slots p r : preserves (keeps slots) (Zustand.setState p r).
Proof. slots_frame. Qed.

Lemma setState_now p r : preserves (same (fun w => now (env w))) (Zustand.setState p r).
Proof. frame_with atom_same. Qed.

(** After [set] on a store that syncs, with a state whose hash is not the
    last one: exactly one broadcast is pending, it carries the state just
    committed and is due [SAVE_DELAY] after the call. *)
Theorem set_leaves_one_pending_broadcast
    (w : World) (partial : Partial) (replace : bool) (v : JVal) (h : Hash) (c : nat) :
  slots w ->
  channel (this w) = Some c ->
  sync_opt (options (this w)) = true ->
  listeners_return w ->
  Zustand.eval_partial partial (state (store w)) = Ok v ->
  let new := Zustand.next_state (replace_arg replace) (state (store w)) v in
  JSON_stringify new = Ok h ->
  hash_is h (lastSyncHash (this w)) = false ->
  exists id,
    pending_broadcasts (exec (Echo.set partial replace) w)
    = [mkTimer id Echo.SAVE_DELAY (now (env w) + Echo.SAVE_DELAY) (TBroadcast new h)].
Proof.
  intros Hs Hc Ho Hq Hv new Hh Hl.
  assert (Hcan : can_hash w new) by (right; right; exists h; exact Hh).
  unfold exec. rewrite (set_normal _ _ _ _ Hv Hq Hcan).
  set (w1 := exec (Zustand.setState partial (replace_arg replace)) w).
  assert (T1 : this w1 = this w) by apply (setState_this _ _ w).
  assert (N1 : now (env w1) = now (env w)) by apply (setState_now _ _ w).
  assert (S1 : slots w1) by (apply (setState_keeps_slots _ _ w), Hs).
  rewrite T1, Hc. cbn [is_some when].
  assert (P : pending_broadcasts (exec (Echo.broadcastState new) w1)
              = [mkTimer (next_timer (env w1)) Echo.SAVE_DELAY
                   (now (env w) + Echo.SAVE_DELAY) (TBroadcast new h)]).
  { rewrite <- N1. apply (broadcastState_schedules new h c); try assumption;
      rewrite T1; assumption. }
  exists (next_timer (env w1)).
  destruct (onChange (options (this w))) as [f |]; [| exact P].
  unfold call_onChange.
  match goal with
  | |- context [if ?b then _ else _] => destruct b
  end; exact P.
Qed.

Lemma set_leaves_one_pending_broadcast_witness :
  let w := run [AFire 1; AFire 2]
             (Echo.new_Echo (Demo.count 0)
                (mkOptions (Some "c") None (Some Demo.quiet) true)
                (Echo.new_env Demo.healthy true)) in
  exists id,
    pending_broadcasts (exec (Echo.set (PValue (Demo.count 5)) false) w)
    = [mkTimer id Echo.SAVE_DELAY (now (env w) + Echo.SAVE_DELAY)
         (TBroadcast (Demo.count 5) (Demo.hash_of (Demo.count 5)))].
Proof.
  cbv zeta.
  apply (set_leaves_one_pending_broadcast
           (run [AFire 1; AFire 2]
              (Echo.new_Echo (Demo.count 0)
                 (mkOptions (Some "c") None (Some Demo.quiet) true)
                 (Echo.new_env Demo.healthy true)))
           (PValue (Demo.count 5)) false (Demo.count 5)
           (Demo.hash_of (Demo.count 5)) 1).
  - apply run_slots.
  - reflexivity.
  - reflexivity.
  - intros id cb [].
  - reflexivity.
  - reflexivity.
  - reflexivity.
Defined.

(** ** Sync channel: what reset and delete leave to the next set *)







(** The same for [reset], between two windows on the IndexedDB store
    [Demo.synced_db]: after [set({count: 5})] has been broadcast,
    [reset()] posts nothing, and the [set({n: 1})] that follows posts
    [{count: 0, n: 1}]: the window that held [{count: 5}] is back at the
    default [count]. *)
Example reset_reaches_the_other_window :
  let sender := Echo.run_timers 10
                  (exec (Echo.set (PValue (Demo.count 5)) false) Demo.synced_db) in
  let sender' := Echo.run_timers 10
                   (exec (Echo.set (PValue (JObj [("n", JNum 1)])) false)
                      (Echo.run_timers 10 (exec Echo.reset sender))) in
  let message := Echo.envelope (JObj [("count", JNum 0); ("n", JNum 1)]) 450 in
  let receiver := Echo.run_timers 10
                    (exec (Echo.onmessage (Echo.envelope (Demo.count 5) 250))
                       Demo.synced_db) in
  posts (trace (Echo.run_timers 10 (exec Echo.reset sender))) = posts (trace sender)
  /\ posts (trace sender') = posts (trace sender) ++ [message]
  /\ state (store receiver) = Demo.count 5
  /\ state (store (Echo.run_timers 10 (exec (Echo.onmessage message) receiver)))
     = JObj [("count", JNum 0); ("n", JNum 1)].
Proof. cbv zeta. split; [| split; [| split]]; vm_compute; reflexivity. Qed.

Lemma find_unique (l : list Timer) t :
  NoDup (map t_id l) -> In t l ->
  find (fun t' => Nat.eqb (t_id t') (t_id t)) l = Some t.
Proof.
  induction l as [| a l IH]; simpl; intros Hd Hin; [contradiction |].
  inversion Hd as [| ? ? Hn Hd']; subst.
  destruct Hin as [-> | Hin].
  - rewrite Nat.eqb_refl. reflexivity.
  - destruct (Nat.eqb_spec (t_id a) (t_id t)) as [E | _]; [| auto].
    exfalso. apply Hn. rewrite E. apply in_map, Hin.
Qed.

Lemma set_middleware p r :
  preserves (same (fun w => (isHydrating (mw w), lastSavedState (mw w))))
            (Echo.set p r).
Proof. frame_with atom_same. Qed.

(** Set, wait, saved: after a [set] whose updater yields something other
    than the state the store holds, when the pending save expires and the
    database takes the request, the record is the state just committed. *)
Theorem set_is_saved_after_the_delay
    (w : World) (partial : Partial) (replace : bool) (v : JVal) (h : Hash) :
  slots w ->
  (exists i, In (i, LPersist) (listeners (store w))) ->
  listeners_return w ->
  Zustand.eval_partial partial (state (store w)) = Ok v ->
  v <> state (store w) ->
  let new := Zustand.next_state (replace_arg replace) (state (store w)) v in
  JSON_stringify new = Ok h ->
  hash_is h (lastSavedState (mw w)) = false ->
  isHydrating (mw w) = false ->
  can_write (backend (env w)) ->
  let w1 := exec (Echo.set partial replace) w in
  exists t,
    pending_saves w1 = [t]
    /\ t_task t = TSave new
    /\ be_record (backend (env w1)) = be_record (backend (env w))
    /\ be_record (backend (env (exec (Echo.fire (t_id t)) w1))) = Some new
    /\ pending_saves (exec (Echo.fire (t_id t)) w1) = [].
Proof.
  intros Hs Hp Hq Hv _ new Hh Hl Hy Hw w1.
  assert (P0 : exists id, pending_saves w1
            = [mkTimer id 100 (now (env w) + 100) (TSave new)]).
  { unfold w1, exec. rewrite set_unfold.
    rewrite (bind_ok _ _ _ tt (setState_ok _ _ _ _ Hv Hq)).
    destruct (setState_saves partial (replace_arg replace) v w Hs Hp Hq Hv) as [S P].
    rewrite set_tail_saves; [exact P | exact S]. }
  destruct P0 as [id P].
  set (t := mkTimer id 100 (now (env w) + 100) (TSave new)) in *.
  assert (S1 : slots w1).
  { apply (step_slots (ASet partial replace) w), Hs. }
  assert (B1 : backend (env w1) = backend (env w)) by apply (set_backend partial replace w).
  assert (M1 : (isHydrating (mw w1), lastSavedState (mw w1))
               = (isHydrating (mw w), lastSavedState (mw w)))
    by apply (set_middleware partial replace w).
  injection M1 as M1 M2.
  assert (Hin : In t (timers (env w1))).
  { assert (In t (pending_saves w1)) by (rewrite P; left; reflexivity).
    eapply filter_In_sub. exact H. }
  exists t. split; [exact P | split; [reflexivity | split; [rewrite B1; reflexivity |]]].
  assert (Ef : Echo.find_timer (t_id t) w1 = Some t).
  { apply find_unique; [apply (ids_distinct w1 S1) | exact Hin]. }
  unfold exec, Echo.fire. rewrite Ef.
  unfold clearTimeout. rewrite !bind_modify. cbn [t_task t Echo.run_task].
  match goal with
  | |- context [IndexedDBMiddleware.saveState new ?u] => set (w2 := u)
  end.
  assert (R : IndexedDBMiddleware.saveState new w2 = _)
    by (apply (saveState_run_success new h w2);
        [ exact Hh
        | cbn; rewrite M2; exact Hl
        | cbn; rewrite M1; exact Hy
        | cbn; rewrite B1; exact Hw ]).
  rewrite R. cbn [snd]. split; [reflexivity |].
  unfold pending_saves. cbn.
  apply filter_none. intros t' H'. apply filter_In in H'. destruct H' as [H' Hne].
  destruct (is_save t') eqn:Es; [| reflexivity].
  assert (In t' (pending_saves w1)) by (apply filter_In; split; assumption).
  rewrite P in H. destruct H as [<- | []].
  simpl in Hne. rewrite Nat.eqb_refl in Hne. discriminate Hne.
Qed.

Lemma set_is_saved_after_the_delay_witness :
  let w := run [AFire 1] Demo.persisted in
  let w1 := exec (Echo.set (PValue (JObj [("b", JNum 5)])) false) w in
  exists t,
    pending_saves w1 = [t]
    /\ t_task t = TSave (JObj [("a", JNum 1); ("b", JNum 5)])
    /\ be_record (backend (env w1)) = Some (JObj [("a", JNum 1)])
    /\ be_record (backend (env (exec (Echo.fire (t_id t)) w1)))
       = Some (JObj [("a", JNum 1); ("b", JNum 5)])
    /\ pending_saves (exec (Echo.fire (t_id t)) w1) = [].
Proof.
  cbv zeta.
  apply (set_is_saved_after_the_delay (run [AFire 1] Demo.persisted)
           (PValue (JObj [("b", JNum 5)])) false (JObj [("b", JNum 5)])
           (Demo.hash_of (JObj [("a", JNum 1); ("b", JNum 5)]))).
  - apply run_slots.
  - exists 1%nat. left. reflexivity.
  - intros id cb [E | []]. discriminate E.
  - reflexivity.
  - discriminate.
  - reflexivity.
  - reflexivity.
  - reflexivity.
  - split; [reflexivity | left; reflexivity].
Defined.

(** ** Copies of the state with a field set or deleted *)

Lemma lookup_remove k k' l :
  lookup k (remove k' l) = if String.eqb k k' then None else lookup k l.
Proof.
  induction l as [| [k0 y] l IH]; simpl.
  - destruct (String.eqb k k'); reflexivity.
  - destruct (String.eqb_spec k' k0) as [-> | Hne]; simpl.
    + rewrite IH. destruct (String.eqb_spec k k0); reflexivity.
    + rewrite IH. destruct (String.eqb_spec k k0) as [-> | Hk]; [| reflexivity].
      destruct (String.eqb_spec k0 k'); [congruence | reflexivity].
Qed.

Lemma keys_remove_In k k' l : In k (keys (remove k' l)) -> In k (keys l).
Proof.
  induction l as [| [k0 y] l IH]; simpl; [auto |].
  destruct (String.eqb k' k0); simpl; intuition.
Qed.

Lemma NoDup_remove k l : NoDup (keys l) -> NoDup (keys (remove k l)).
Proof.
  induction l as [| [k0 y] l IH]; simpl; intro H; [constructor |].
  inversion H as [| ? ? Hn Hd]; subst.
  destruct (String.eqb k k0); simpl; [auto |].
  constructor; [| auto]. intro Hin. apply Hn. eapply keys_remove_In, Hin.
Qed.

Lemma NoDup_spread v : NoDup (keys (own_props (spread v))).
Proof. simpl. apply NoDup_assign_into. constructor. Qed.

Lemma get_prop_spread k v : get_prop k (spread v) = get_prop k v.
Proof.
  unfold get_prop. rewrite lookup_rev by apply NoDup_spread.
  simpl. rewrite lookup_assign_into. simpl.
  destruct (lookup k (rev (own_props v))); reflexivity.
Qed.

Lemma get_prop_without_field k id prev :
  get_prop k (Callers.without_field id prev)
  = if String.eqb k id then None else get_prop k prev.
Proof.
  unfold Callers.without_field, get_prop at 1. cbn [own_props].
  rewrite lookup_rev by apply NoDup_remove, NoDup_spread.
  rewrite lookup_remove. destruct (String.eqb k id); [reflexivity |].
  rewrite <- (get_prop_spread k prev). unfold get_prop.
  symmetry. apply lookup_rev, NoDup_spread.
Qed.

Lemma get_prop_with_field k key value prev :
  get_prop k (Callers.with_field key value prev)
  = if String.eqb k key then Some value else get_prop k prev.
Proof.
  unfold Callers.with_field, get_prop at 1. cbn [own_props].
  rewrite lookup_rev by apply NoDup_put, NoDup_spread.
  destruct (String.eqb_spec k key) as [-> | Hne].
  - apply lookup_put_same.
  - rewrite lookup_put_other by exact Hne.
    rewrite <- (get_prop_spread k prev). unfold get_prop.
    symmetry. apply lookup_rev, NoDup_spread.
Qed.

(** [delete(key)] commits an object without [key], every other property
    reading as before. *)
Theorem delete_removes_only_the_key (w : World) (key : string) :
  let w' := exec (Echo.delete key) w in
  is_object (state (store w')) = true
  /\ get_prop key (state (store w')) = None
  /\ (forall k, k <> key ->
        get_prop k (state (store w')) = get_prop k (state (store w))).
Proof.
  intro w'. unfold w'. rewrite delete_state.
  change (JObj (remove key (own_props (spread (state (store w))))))
    with (Callers.without_field key (state (store w))).
  split; [reflexivity | split].
  - rewrite get_prop_without_field, String.eqb_refl. reflexivity.
  - intros k Hne. rewrite get_prop_without_field.
    destruct (String.eqb_spec k key); [contradiction | reflexivity].
Qed.

(** [KnowledgeStore.deleteKnowledge(id)] hands [set] a copy of the state
    without [id] but no [replace] flag, so the copy is merged into the
    state: every property, [id] included, reads as before. *)
Theorem deleteKnowledge_keeps_every_entry (w : World) (id k : string) :
  get_prop k (state (store (exec (Callers.deleteKnowledge id) w)))
  = get_prop k (state (store w)).
Proof.
  unfold Callers.deleteKnowledge.
  rewrite (set_state _ false (Callers.without_field id (state (store w)))) by reflexivity.
  unfold Zustand.next_state, replace_arg. cbn [is_object Callers.without_field negb].
  rewrite get_prop_Object_assign.
  change (JObj (remove id (own_props (spread (state (store w))))))
    with (Callers.without_field id (state (store w))).
  rewrite get_prop_without_field.
  destruct (String.eqb k id); [reflexivity |].
  destruct (get_prop k (state (store w))); reflexivity.
Qed.

(** For instance on the store [{a: 1, b: 2}]: after [deleteKnowledge("a")]
    the state is what it was. *)
Example deleteKnowledge_on_ab_store :
  state (store (exec (Callers.deleteKnowledge "a") Demo.ab_store)) = Demo.ab
  /\ state (store (exec (Callers.deleteHistory "a") Demo.ab_store))
     = JObj [("b", JNum 2)].
Proof. split; reflexivity. Qed.

(** [deleteHistory(id)] passes [true] to [set]: the entry [id] is gone and
    every other entry reads as before. *)
Theorem deleteHistory_removes_only_the_entry (w : World) (id : string) :
  let w' := exec (Callers.deleteHistory id) w in
  get_prop id (state (store w')) = None
  /\ (forall k, k <> id ->
        get_prop k (state (store w')) = get_prop k (state (store w))).
Proof.
  intro w'. unfold w', Callers.deleteHistory.
  rewrite (set_state _ true (Callers.without_field id (state (store w)))) by reflexivity.
  unfold Zustand.next_state, replace_arg. split.
  - rewrite get_prop_without_field, String.eqb_refl. reflexivity.
  - intros k Hne. rewrite get_prop_without_field.
    destruct (String.eqb_spec k id); [contradiction | reflexivity].
Qed.

(** The setters [set((prev) => ({ ...prev, [key]: value }), replace)]
    ([setModel], [setThreshold], [setLimit], [setTheme], ...): afterwards
    [key] reads [value] and every other property reads as before, with or
    without [replace]. *)
Theorem setField_sets_only_the_field
    (w : World) (key : string) (value : JVal) (replace : bool) :
  let w' := exec (Callers.setField key value replace) w in
  get_prop key (state (store w')) = Some value
  /\ (forall k, k <> key ->
        get_prop k (state (store w')) = get_prop k (state (store w))).
Proof.
  intro w'. unfold w', Callers.setField.
  rewrite (set_state _ replace (Callers.with_field key value (state (store w))))
    by reflexivity.
  unfold Zustand.next_state, replace_arg.
  assert (E : forall k,
    get_prop k (if match (if replace then Some true else None) with
                   | Some b => b
                   | None => negb (is_object (Callers.with_field key value (state (store w))))
                   end
                then Callers.with_field key value (state (store w))
                else Object_assign (state (store w))
                       (Callers.with_field key value (state (store w))))
    = if String.eqb k key then Some value else get_prop k (state (store w))).
  { intro k. destruct replace; cbn [is_object Callers.with_field negb].
    - apply get_prop_with_field.
    - rewrite get_prop_Object_assign.
      change (JObj (put key value (own_props (spread (state (store w))))))
        with (Callers.with_field key value (state (store w))).
      rewrite get_prop_with_field.
      destruct (String.eqb k key); [reflexivity |].
      destruct (get_prop k (state (store w))); reflexivity. }
  split.
  - rewrite E, String.eqb_refl. reflexivity.
  - intros k Hne. rewrite E. destruct (String.eqb_spec k key); [contradiction | reflexivity].
Qed.

(** [HistoryMessage.create] hands [set] the object [{ [id]: history }]
    without [replace]: the entry is added under its id, also when an entry
    of that id was there, and every other entry reads as before. *)
Theorem addEntry_adds_only_the_entry (w : World) (id : string) (entry : JVal) :
  let w' := exec (Callers.addEntry id entry) w in
  is_object (state (store w')) = true
  /\ get_prop id (state (store w')) = Some entry
  /\ (forall k, k <> id ->
        get_prop k (state (store w')) = get_prop k (state (store w))).
Proof.
  intro w'. unfold w', Callers.addEntry.
  rewrite (set_state _ false (JObj [(id, entry)])) by reflexivity.
  unfold Zustand.next_state, replace_arg. cbn [is_object negb].
  split; [reflexivity | split].
  - rewrite get_prop_Object_assign. unfold get_prop at 1. simpl.
    rewrite String.eqb_refl. reflexivity.
  - intros k Hne. rewrite get_prop_Object_assign. unfold get_prop at 1. simpl.
    destruct (String.eqb_spec k id); [contradiction | reflexivity].
Qed.

(** For instance: an entry added to the emptied store is the one entry
    the store holds. *)
Example clearAll_then_addEntry :
  state (store (exec (Callers.addEntry "h1" (JStr "history"))
                     (exec Callers.clearAll Demo.ab_store)))
  = JObj [("h1", JStr "history")].
Proof. reflexivity. Qed.

(** ** Chunking a text *)

Section SplitText.
Import Chunks.

Lemma slice_length i s :
  i < List.length s -> well_sized (slice i (i + CHUNK_SIZE) s).
Proof.
  intro Hi. unfold well_sized, slice. rewrite length_firstn, length_skipn.
  unfold CHUNK_SIZE. lia.
Qed.

Lemma slices_from_sized fuel : forall i s c,
  In c (slices_from fuel i s) -> well_sized c.
Proof.
  induction fuel as [| fuel IH]; intros i s c Hin; simpl in Hin; [contradiction |].
  destruct (Nat.ltb_spec i (List.length s)) as [Hi | Hi]; [| contradiction].
  destruct Hin as [<- | Hin]; [apply slice_length, Hi | eapply IH, Hin].
Qed.

Lemma slices_from_concat fuel : forall i s,
  List.length s <= i + fuel -> List.concat (slices_from fuel i s) = skipn i s.
Proof.
  induction fuel as [| fuel IH]; intros i s Hf; simpl.
  - symmetry. apply skipn_all2. lia.
  - destruct (Nat.ltb_spec i (List.length s)) as [Hi | Hi].
    + simpl. rewrite IH by (unfold CHUNK_SIZE; lia).
      unfold slice. replace (i + CHUNK_SIZE - i) with CHUNK_SIZE by lia.
      replace (skipn (i + CHUNK_SIZE) s) with (skipn CHUNK_SIZE (skipn i s))
        by (rewrite skipn_skipn; f_equal; lia).
      apply firstn_skipn.
    + symmetry. apply skipn_all2. lia.
Qed.

Lemma slices_concat s : List.concat (slices s) = s.
Proof. unfold slices. rewrite slices_from_concat; [reflexivity | lia]. Qed.

Lemma ink_app a b : ink (a ++ b) = ink a ++ ink b.
Proof. apply filter_app. Qed.

Lemma ink_concat l : ink (List.concat l) = List.concat (map ink l).
Proof.
  induction l as [| a l IH]; simpl; [reflexivity |].
  rewrite ink_app, IH. reflexivity.
Qed.

Lemma flush_In cs cur c :
  In c (flush cs cur) -> In c cs \/ (c = cur /\ cur <> []).
Proof.
  unfold flush. destruct cur as [| x cur]; [auto |].
  intro H. apply in_app_or in H. destruct H as [H | [<- | []]]; [auto |].
  right. split; [reflexivity | discriminate].
Qed.

Lemma flush_ink cs cur :
  List.concat (map ink (flush cs cur)) = List.concat (map ink cs) ++ ink cur.
Proof.
  unfold flush. destruct cur as [| x cur]; simpl.
  - rewrite app_nil_r. reflexivity.
  - rewrite map_app, List.concat_app. simpl. rewrite app_nil_r. reflexivity.
Qed.

Lemma flush_sized cs cur c :
  (forall c, In c cs -> well_sized c) ->
  List.length cur <= CHUNK_SIZE ->
  In c (flush cs cur) -> well_sized c.
Proof.
  intros Hcs Hcur Hin. apply flush_In in Hin. destruct Hin as [Hin | [-> Hne]]; [auto |].
  unfold well_sized. destruct cur; [contradiction | simpl in *; lia].
Qed.

Lemma turn_inv done a s :
  loop_inv done a -> 1 <= List.length s -> loop_inv (done ++ [s]) (turn a s).
Proof.
  intros [Hc Hl Hcur Hink] Hs. unfold turn.
  assert (Hd : List.concat (map ink (done ++ [s])) = List.concat (map ink done) ++ ink s).
  { rewrite map_app, List.concat_app. simpl. rewrite app_nil_r. reflexivity. }
  destruct (Nat.leb_spec CHUNK_SIZE (List.length s)) as [Hbig | Hsmall].
  - split; simpl.
    + intros c Hin. apply in_app_or in Hin. destruct Hin as [Hin | Hin].
      * eapply flush_sized; eauto.
      * eapply slices_from_sized, Hin.
    + reflexivity.
    + lia.
    + rewrite app_nil_r, map_app, List.concat_app, flush_ink, Hink, Hd.
      f_equal. rewrite <- ink_concat, slices_concat. reflexivity.
  - destruct (Nat.ltb_spec CHUNK_SIZE (currentLength a + List.length s + 1)) as [Hfull | Hfits].
    + split; simpl.
      * intros c Hin. eapply flush_sized; eauto.
      * reflexivity.
      * lia.
      * rewrite flush_ink, Hink, Hd. reflexivity.
    + destruct (currentChunk a) as [| x cur] eqn:Ec.
      * split; cbn [chunks currentChunk currentLength].
        -- exact Hc.
        -- simpl in Hl. lia.
        -- lia.
        -- rewrite Hd, <- Hink. simpl. rewrite app_nil_r. reflexivity.
      * split; cbn [chunks currentChunk currentLength].
        -- exact Hc.
        -- rewrite !length_app, Hl. simpl. lia.
        -- rewrite !length_app. simpl. simpl in Hl. lia.
        -- rewrite Hd, <- Hink, !ink_app, <- !app_assoc. reflexivity.
Qed.

Lemma fold_inv ss : forall done a,
  loop_inv done a ->
  (forall s, In s ss -> 1 <= List.length s) ->
  loop_inv (done ++ ss) (fold_left turn ss a).
Proof.
  induction ss as [| s ss IH]; intros done a Ha Hs; simpl.
  - rewrite app_nil_r. exact Ha.
  - replace (done ++ s :: ss) with ((done ++ [s]) ++ ss)
      by (rewrite <- app_assoc; reflexivity).
    apply IH.
    + apply turn_inv; [exact Ha | apply Hs; left; reflexivity].
    + intros s' Hin. apply Hs. right. exact Hin.
Qed.

Lemma sentences_nonempty text s : In s (sentences text) -> 1 <= List.length s.
Proof.
  unfold sentences. intro Hin. apply in_map_iff in Hin.
  destruct Hin as [p [<- Hp]]. apply filter_In in Hp. destruct Hp as [_ Hp].
  apply Nat.ltb_lt in Hp. lia.
Qed.

Lemma split_inv text : loop_inv (sentences text)
  (fold_left turn (sentences text) (mkAcc [] [] 0)).
Proof.
  apply (fold_inv (sentences text) [] (mkAcc [] [] 0)).
  - split; simpl; try reflexivity; try contradiction. unfold CHUNK_SIZE. lia.
  - apply sentences_nonempty.
Qed.

(** No chunk is empty and none is longer than [CHUNK_SIZE]. *)
Theorem chunks_are_well_sized (text c : Text) :
  In c (splitTextIntoChunks text) ->
  1 <= List.length c <= CHUNK_SIZE.
Proof.
  unfold splitTextIntoChunks. intro Hin.
  destruct (split_inv text) as [Hc _ Hcur _].
  eapply flush_sized; eauto.
Qed.

Lemma chunks_are_well_sized_witness :
  Chunks.splitTextIntoChunks [72; 105; 46; 32; 89; 111]%N
  = [[72; 105; 32; 89; 111]%N]
  /\ 1 <= List.length [72; 105; 32; 89; 111]%N <= Chunks.CHUNK_SIZE.
Proof.
  split; [reflexivity |].
  apply (chunks_are_well_sized [72; 105; 46; 32; 89; 111]%N).
  left. reflexivity.
Defined.

(** Chunking loses and adds only spaces: the chunks, spaces apart, are the
    sentences of the text, spaces apart, in their order. *)
Theorem chunks_keep_the_text (text : Text) :
  List.concat (map ink (splitTextIntoChunks text)) = List.concat (map ink (sentences text)).
Proof.
  unfold splitTextIntoChunks.
  destruct (split_inv text) as [_ _ _ Hink].
  rewrite flush_ink. exact Hink.
Qed.

End SplitText.
